(** * logflow: ingestion and aggregation pipeline

    A shallow embedding of the Go sources of logflow
    (internal/log, internal/ipc, internal/ui) together with the
    properties of the pipeline that the design document states.

    Conventions.
    - A Go [int] is a [Z]; arithmetic that can overflow goes through
      [Go.add]/[Go.sub], which wrap at 64 bits.
    - A Go slice whose capacity equals its length is a [list]; indexing,
      slicing and [make] return [None] where Go panics.
    - A Go [string] is a [string] (a sequence of bytes).
    - A Go [map[string]T] is a [gmap string T]; a nil map and an empty
      map are identified (the sources only write to maps they have made).
    - Mutexes are left out: every method body runs under its lock, so it
      is one atomic step of the sequential model. *)

From stdpp Require Import gmap strings list fin_maps.
From Stdlib Require Import ZArith Ascii.

Set Warnings "-register-all".
#[local] Open Scope Z_scope.

(** ** The Go runtime, as far as the sources use it *)

Module Go.

Definition int_max : Z := 2 ^ 63 - 1.
Definition int_min : Z := - 2 ^ 63.

(** Two's-complement wrap-around of a 64-bit [int]. *)
Definition wrap (z : Z) : Z := (z + 2 ^ 63) mod 2 ^ 64 - 2 ^ 63.

Definition add (x y : Z) : Z := wrap (x + y).
Definition sub (x y : Z) : Z := wrap (x - y).

(** [x % y]: truncated remainder; division by zero panics. *)
Definition rem (x y : Z) : option Z :=
  if decide (y = 0) then None else Some (Z.rem x y).

Section Slices.
Context {A : Type}.

Definition len (s : list A) : Z := Z.of_nat (length s).

(** [make([]A, n)]: [n] zero values. *)
Definition make (zero : A) (n : Z) : option (list A) :=
  if decide (0 <= n <= int_max)
  then Some (replicate (Z.to_nat n) zero)
  else None.

(** [s[i] = x] *)
Definition store (s : list A) (i : Z) (x : A) : option (list A) :=
  if decide (0 <= i < len s)
  then Some (<[Z.to_nat i := x]> s)
  else None.

(** [s[:hi]] *)
Definition slice_to (s : list A) (hi : Z) : option (list A) :=
  if decide (0 <= hi <= len s)
  then Some (take (Z.to_nat hi) s)
  else None.

(** [s[lo:]] *)
Definition slice_from (s : list A) (lo : Z) : option (list A) :=
  if decide (0 <= lo <= len s)
  then Some (drop (Z.to_nat lo) s)
  else None.

(** [s[lo:hi]] with [hi] within the length. (Go lets [hi] go up to the
    capacity; the one use here has [hi <= len s].) *)
Definition slice (s : list A) (lo hi : Z) : option (list A) :=
  if decide (0 <= lo <= hi ∧ hi <= len s)
  then Some (take (Z.to_nat (hi - lo)) (drop (Z.to_nat lo) s))
  else None.

(** [copy(dst, src)]: the contents of [dst] afterwards. The first
    [min (len dst) (len src)] elements come from [src]. *)
Definition copy (dst src : list A) : list A :=
  take (length dst) src ++ drop (length src) dst.

(** [copy(dst[off:], src)]: the sub-slice aliases [dst], so the
    copy is seen through [dst]. *)
Definition copy_at (dst : list A) (off : Z) (src : list A)
  : option (list A) :=
  d ← slice_from dst off;
  Some (take (Z.to_nat off) dst ++ copy d src).

End Slices.

(** [s[i]] *)
Definition at_ {A : Type} (s : list A) (i : Z) : option A :=
  if decide (0 <= i < len s) then s !! Z.to_nat i else None.

(** [strings.HasPrefix] and [strings.Contains] compare bytes. *)
Definition HasPrefix (s prefix : string) : bool := String.prefix prefix s.

Fixpoint Contains (s substr : string) : bool :=
  String.prefix substr s ||
  match s with
  | EmptyString => false
  | String _ s' => Contains s' substr
  end.

(** [len(s)] of a string: its number of bytes. *)
Definition strlen (s : string) : Z := Z.of_nat (String.length s).

(** [sub] occurs in [s] as a run of consecutive bytes. *)
Definition occursIn (sub s : string) : Prop :=
  ∃ pre post, s = pre +:+ sub +:+ post.

(** [s[0]] and [s[:n]] on the bytes of a string. *)
Definition byte0 (s : string) : option Z :=
  match s with
  | EmptyString => None
  | String c _ => Some (Z.of_nat (nat_of_ascii c))
  end.

Definition str_slice_to (s : string) (n : Z) : option string :=
  if decide (0 <= n <= strlen s)
  then Some (String.substring 0 (Z.to_nat n) s)
  else None.

(** Subtraction of bytes wraps at 8 bits. *)
Definition byte_sub (x y : Z) : Z := (x - y) mod 256.

(** [time.RFC3339] and [time.RFC3339Nano]. *)
Definition RFC3339 : string := "2006-01-02T15:04:05Z07:00".
Definition RFC3339Nano : string := "2006-01-02T15:04:05.999999999Z07:00".

(** The fragment of [regexp] the parser needs: a pattern that is a
    sequence of single-character classes, so a match has the length of
    the pattern. *)
Inductive CharClass : Type :=
  | Digit
  | Lit (c : ascii)
  | OneOf (cs : list ascii).

Definition isDigit (c : ascii) : bool :=
  (48 <=? nat_of_ascii c)%nat && (nat_of_ascii c <=? 57)%nat.

Definition inClass (cl : CharClass) (c : ascii) : bool :=
  match cl with
  | Digit => isDigit c
  | Lit c' => bool_decide (c = c')
  | OneOf cs => bool_decide (c ∈ cs)
  end.

(** The text matched by the pattern at the start of [s], if any. *)
Fixpoint matchHere (pat : list CharClass) (s : string) : option string :=
  match pat with
  | [] => Some EmptyString
  | cl :: pat' =>
    match s with
    | EmptyString => None
    | String c s' =>
      if inClass cl c then String c <$> matchHere pat' s' else None
    end
  end.

(** [re.FindString(s)]: the leftmost match, or the empty string. *)
Fixpoint FindString (pat : list CharClass) (s : string) : string :=
  match matchHere pat s with
  | Some m => m
  | None =>
    match s with
    | EmptyString => EmptyString
    | String _ s' => FindString pat s'
    end
  end.

(** A buffered channel of capacity [chanCap]: the queued values, oldest
    first. *)
Record Chan (A : Type) : Type := {
  chanCap : Z;
  chanBuf : list A;
}.
Arguments chanCap {A} _.
Arguments chanBuf {A} _.

(** [make(chan A, n)] *)
Definition makeChan {A : Type} (n : Z) : Chan A :=
  {| chanCap := n; chanBuf := [] |}.

(** [select { case ch <- x: default: }] with no receiver waiting: the
    send goes through when the buffer has room, otherwise the default
    case runs and the channel is as it was. *)
Definition trySend {A : Type} (ch : Chan A) (x : A) : Chan A :=
  if decide (len (chanBuf ch) < chanCap ch)
  then {| chanCap := chanCap ch; chanBuf := chanBuf ch ++ [x] |}
  else ch.

(** [<-ch] when a value is queued: the oldest value and the rest. *)
Definition recv {A : Type} (ch : Chan A) : option (A * Chan A) :=
  match chanBuf ch with
  | [] => None
  | x :: q => Some (x, {| chanCap := chanCap ch; chanBuf := q |})
  end.

(** [time.Time], as an instant: nanoseconds since the Unix epoch. *)
Definition Time : Type := Z.

(** The zero [time.Time] is January 1, year 1, 00:00:00 UTC. *)
Definition zeroTime : Time := - 62135596800 * 10 ^ 9.

(** What [encoding/json] decodes into an [interface{}]. A number is
    a float64, kept as its IEEE-754 bit pattern. *)
Inductive JValue : Type :=
  | JNull
  | JBool (b : bool)
  | JNumber (bits : Z)
  | JString (s : string)
  | JArray (l : list JValue)
  | JObject (m : gmap string JValue).

(** The dynamic values the sources store in a [map[string]interface{}]:
    decoded JSON, or a parsed [time.Time]. *)
Inductive Any : Type :=
  | VJSON (j : JValue)
  | VTime (t : Time).

(** [strings.ToUpper], [strings.ToLower] and [strings.TrimSpace] follow
    the Unicode tables; they are taken as given. *)
Class Strings := {
  ToUpper : string → string;
  ToLower : string → string;
  TrimSpace : string → string;
  ToLower_empty : ToLower "" = "";
}.

(** [json.Unmarshal] into a [map[string]interface{}] ([None] on error),
    and [time.Parse layout value]. *)
Class Encoding := {
  json_Unmarshal : string → option (gmap string JValue);
  time_Parse : string → string → option Time;
}.

(** [bufio.MaxScanTokenSize]: the largest buffer of a [bufio.Scanner]
    that [NewScanner] makes. A line has to fit in it together with its
    newline; at the first line that does not, [Scan] returns false. *)
Definition MaxScanTokenSize : Z := 64 * 1024.

(** [t.Format(layout)], and the text that a lipgloss style makes of a
    string, the style being given by its foreground colour ([None] for
    the plain style). Both are taken as given. The layout [15:04:05]
    is the clock: two digits each for the hour, the minute and the
    second. *)
Class Text := {
  time_Format : string → Time → string;
  style_Render : option string → string → string;
  time_Format_clock : ∀ t, strlen (time_Format "15:04:05" t) = 8;
}.

End Go.

(** ** internal/log: entries and the ring buffer *)

Module Log.

Definition LogLevel : Type := string.

Definition LogLevelDebug : LogLevel := "DEBUG".
Definition LogLevelInfo : LogLevel := "INFO".
Definition LogLevelWarn : LogLevel := "WARN".
Definition LogLevelError : LogLevel := "ERROR".

Record LogEntry : Type := {
  Timestamp : Go.Time;
  Source : string;
  Level : LogLevel;
  Content : string;
  Raw : string;
  Metadata : gmap string Go.Any;
}.

(** The zero value of the struct, as [make] fills a slice with. *)
Definition zeroLogEntry : LogEntry :=
  {| Timestamp := Go.zeroTime; Source := ""; Level := "";
     Content := ""; Raw := ""; Metadata := ∅ |}.

Record Buffer : Type := {
  entries : list LogEntry;
  size : Z;
  index : Z;
  count : Z;
}.

Definition NewBuffer (size : Z) : option Buffer :=
  es ← Go.make zeroLogEntry size;
  Some {| entries := es; size := size; index := 0; count := 0 |}.

Definition Add (b : Buffer) (entry : LogEntry) : option Buffer :=
  es ← Go.store (entries b) (index b) entry;
  i ← Go.rem (Go.add (index b) 1) (size b);
  Some {| entries := es;
          size := size b;
          index := i;
          count := if decide (count b < size b)
                   then Go.add (count b) 1
                   else count b |}.

Definition GetAll (b : Buffer) : option (list LogEntry) :=
  if decide (count b = 0) then Some []
  else
    result ← Go.make zeroLogEntry (count b);
    if decide (count b < size b) then
      src ← Go.slice_to (entries b) (count b);
      Some (Go.copy result src)
    else
      let startIdx := index b in
      src ← Go.slice_from (entries b) startIdx;
      let result := Go.copy result src in
      src' ← Go.slice_to (entries b) startIdx;
      Go.copy_at result (Go.sub (size b) startIdx) src'.

(** Successive calls of [Add], in order. *)
Fixpoint AddAll (b : Buffer) (es : list LogEntry) : option Buffer :=
  match es with
  | [] => Some b
  | e :: es' => b' ← Add b e; AddAll b' es'
  end.

(** [GetRecent(n)] *)
Definition GetRecent (b : Buffer) (n : Z) : option (list LogEntry) :=
  all ← GetAll b;
  if decide (Go.len all <= n) then Some all
  else Go.slice_from all (Go.sub (Go.len all) n).

Definition Clear (b : Buffer) : Buffer :=
  {| entries := entries b; size := size b; index := 0; count := 0 |}.

Definition Count (b : Buffer) : Z := count b.

Definition knownLevels : list LogLevel :=
  [LogLevelDebug; LogLevelInfo; LogLevelWarn; LogLevelError].

(** The rank table that [Filter] builds on every call. *)
Definition levelOrder : gmap LogLevel Z :=
  {[ LogLevelDebug := 0; LogLevelInfo := 1;
     LogLevelWarn := 2; LogLevelError := 3 ]}.

(** [levelOrder[l]]: a key that is absent reads as the zero value. *)
Definition levelOrderOf (l : LogLevel) : Z := default 0 (levelOrder !! l).

Definition Filter (b : Buffer) (minLevel : LogLevel)
  : option (list LogEntry) :=
  all ← GetAll b;
  let minLevelOrder := levelOrderOf minLevel in
  Some (foldl (λ filtered entry,
                 if decide (levelOrderOf (Level entry) >= minLevelOrder)
                 then filtered ++ [entry]
                 else filtered)
              [] all).

Section WithStrings.
Context `{GS : !Go.Strings}.

(** The condition of the loop of [Search]. *)
Definition matchesTerm (term : string) (entry : LogEntry) : bool :=
  Go.Contains (Go.ToLower (Content entry)) (Go.ToLower term) ||
  Go.Contains (Go.ToLower (Raw entry)) (Go.ToLower term).

Definition Search (b : Buffer) (term : string) : option (list LogEntry) :=
  all ← GetAll b;
  Some (foldl (λ matches entry,
                 if matchesTerm term entry
                 then matches ++ [entry]
                 else matches)
              [] all).

(** [term] occurs in [text] when the case of both is folded. *)
Definition containsFold (text term : string) : Prop :=
  Go.occursIn (Go.ToLower term) (Go.ToLower text).

(** internal/log/parser.go *)

Definition ParseLevel (line : string) : LogLevel :=
  let upperLine := Go.ToUpper line in
  if Go.Contains upperLine "ERROR" || Go.Contains upperLine "ERR"
  then LogLevelError
  else if Go.Contains upperLine "WARN" || Go.Contains upperLine "WARNING"
  then LogLevelWarn
  else if Go.Contains upperLine "INFO" || Go.Contains upperLine "INFORMATION"
  then LogLevelInfo
  else if Go.Contains upperLine "DEBUG" || Go.Contains upperLine "DBG"
  then LogLevelDebug
  else LogLevelInfo.

Context `{GE : !Go.Encoding}.

Definition timestampFields : list string :=
  ["timestamp"; "ts"; "time"; "@timestamp"; "datetime"].

Definition formats : list string :=
  [Go.RFC3339; Go.RFC3339Nano; "2006-01-02 15:04:05";
   "2006-01-02T15:04:05"; "2006-01-02 15:04:05.000"].

Definition messageFields : list string :=
  ["message"; "msg"; "text"; "content"].

Definition levelFields : list string := ["level"; "severity"; "priority"].

(** The value of the first field of [fields] that [data] has: the loops
    over the alias lists stop at the first key that is present. *)
Fixpoint firstField (fields : list string) (data : gmap string Go.JValue)
  : option Go.JValue :=
  match fields with
  | [] => None
  | field :: fields' =>
    match data !! field with
    | Some val => Some val
    | None => firstField fields' data
    end
  end.

(** The first layout of [layouts] that parses [timeStr]. *)
Fixpoint firstParse (layouts : list string) (timeStr : string)
  : option Go.Time :=
  match layouts with
  | [] => None
  | format :: layouts' =>
    match Go.time_Parse format timeStr with
    | Some ts => Some ts
    | None => firstParse layouts' timeStr
    end
  end.

Definition normalizeJSONFields (data : gmap string Go.JValue)
  : gmap string Go.Any :=
  let result : gmap string Go.Any := ∅ in
  let result :=
    match firstField timestampFields data with
    | Some (Go.JString timeStr) =>
      match firstParse formats timeStr with
      | Some ts => <["timestamp" := Go.VTime ts]> result
      | None => result
      end
    | _ => result
    end in
  let result :=
    match firstField messageFields data with
    | Some val => <["message" := Go.VJSON val]> result
    | None => result
    end in
  let result :=
    match firstField levelFields data with
    | Some val => <["level" := Go.VJSON val]> result
    | None => result
    end in
  (* Copy other fields *)
  map_fold (λ k v result,
              match result !! k with
              | Some _ => result
              | None => <[k := Go.VJSON v]> result
              end)
           result data.

(** The pattern [\d{4}-\d{2}-\d{2}[T ]\d{2}:\d{2}:\d{2}]. *)
Definition timestampPattern : list Go.CharClass :=
  [Go.Digit; Go.Digit; Go.Digit; Go.Digit; Go.Lit "-";
   Go.Digit; Go.Digit; Go.Lit "-"; Go.Digit; Go.Digit;
   Go.OneOf ["T"; " "]%char;
   Go.Digit; Go.Digit; Go.Lit ":"; Go.Digit; Go.Digit; Go.Lit ":";
   Go.Digit; Go.Digit].

Definition ParseStructured (line : string) : gmap string Go.Any :=
  let fallback : gmap string Go.Any :=
    let result : gmap string Go.Any := ∅ in
    let match_ := Go.FindString timestampPattern line in
    if decide (match_ ≠ "") then
      match Go.time_Parse "2006-01-02 15:04:05" match_ with
      | Some ts => <["timestamp" := Go.VTime ts]> result
      | None =>
        match Go.time_Parse "2006-01-02T15:04:05" match_ with
        | Some ts => <["timestamp" := Go.VTime ts]> result
        | None => result
        end
      end
    else result in
  if Go.HasPrefix (Go.TrimSpace line) "{" then
    match Go.json_Unmarshal line with
    | Some jsonData => normalizeJSONFields jsonData
    | None => fallback
    end
  else fallback.

(** internal/log/entry.go. [now] is the reading of [time.Now()]. Both
    branches of [ParseStructured] return a map that was made, so the
    nil test of the source always passes. *)
Definition NewLogEntry (now : Go.Time) (source rawLine : string) : LogEntry :=
  let structured := ParseStructured rawLine in
  {| Timestamp :=
       match structured !! "timestamp" with
       | Some (Go.VTime timestamp) => timestamp
       | _ => now
       end;
     Source := source;
     Level := ParseLevel rawLine;
     Content :=
       match structured !! "message" with
       | Some (Go.VJSON (Go.JString msg)) => msg
       | _ => rawLine
       end;
     Raw := rawLine;
     Metadata :=
       map_fold (λ k v (metadata : gmap string Go.Any),
                   if decide (k ≠ "timestamp" ∧ k ≠ "message" ∧ k ≠ "level")
                   then <[k := v]> metadata
                   else metadata)
                ∅ structured |}.

End WithStrings.

(** The last [n] elements of a history (all of it when it is shorter). *)
Definition lastN {A : Type} (n : Z) (l : list A) : list A :=
  drop (length l - Z.to_nat n) l.

(** The logical contents of a full buffer: the segment from the cursor
    to the end, then the segment from the start up to the cursor. *)
Definition stitched (b : Buffer) : list LogEntry :=
  drop (Z.to_nat (index b)) (entries b) ++
  take (Z.to_nat (index b)) (entries b).

(** Representation invariant: [b] is a buffer of capacity [N] into which
    the history [seen] has been added, oldest first. *)
Definition Rep (N : Z) (seen : list LogEntry) (b : Buffer) : Prop :=
  size b = N ∧ Go.len (entries b) = N ∧ 0 <= index b < N ∧
  ((Go.len seen < N ∧ count b = Go.len seen ∧ index b = Go.len seen ∧
    take (length seen) (entries b) = seen)
   ∨ (N <= Go.len seen ∧ count b = N ∧ stitched b = lastN N seen)).

(** The buffers of capacity [N] that the methods can produce. *)
Inductive reachable (N : Z) : Buffer → Prop :=
  | reach_new b : NewBuffer N = Some b → reachable N b
  | reach_add b e b' : reachable N b → Add b e = Some b' → reachable N b'
  | reach_clear b : reachable N b → reachable N (Clear b).

Section ParsedFields.
Context `{GE : !Go.Encoding}.

(** The time that [normalizeJSONFields] reads from the data: the
    value of the first timestamp alias that is present, when it is a
    string that one of the layouts parses. *)
Definition parsedTimestamp (data : gmap string Go.JValue) : option Go.Time :=
  match firstField timestampFields data with
  | Some (Go.JString timeStr) => firstParse formats timeStr
  | _ => None
  end.

(** The time that the fallback of [ParseStructured] reads from a line:
    the leftmost text of the shape of a timestamp, when one of the two
    layouts parses it. *)
Definition scannedTimestamp (line : string) : option Go.Time :=
  let match_ := Go.FindString timestampPattern line in
  if decide (match_ ≠ "")
  then firstParse ["2006-01-02 15:04:05"; "2006-01-02T15:04:05"] match_
  else None.

End ParsedFields.

(** The three keys that [NewLogEntry] keeps out of the metadata. *)
Definition canonicalKeys : list string := ["timestamp"; "message"; "level"].

End Log.


(** ** internal/ipc: the wire protocol and the server *)

Module Ipc.

Definition MessageType : Type := string.

Definition MessageTypeLog : MessageType := "log".
Definition MessageTypeSourceInit : MessageType := "source_init".
Definition MessageTypeSourceExit : MessageType := "source_exit".
Definition MessageTypePing : MessageType := "ping".
Definition MessageTypePong : MessageType := "pong".

Definition LogLevel : Type := string.

Record LogEntry : Type := {
  Timestamp : Go.Time;
  Source : string;
  Level : LogLevel;
  Content : string;
  Raw : string;
  Metadata : gmap string Go.Any;
}.

Record SourceInfo : Type := {
  Name : string;
  Type_ : string;
}.

(** The pointer fields are [None] when nil. *)
Record IPCMessage : Type := {
  msgType : MessageType;
  msgLogEntry : option LogEntry;
  msgSourceInfo : option SourceInfo;
  msgError : string;
}.

Definition NewLogMessage (entry : LogEntry) : IPCMessage :=
  {| msgType := MessageTypeLog; msgLogEntry := Some entry;
     msgSourceInfo := None; msgError := "" |}.

(** The server: the connections being served (by an identifier) and the
    queue of entries. The listener and the quit channel play no part in
    the handling of messages. *)
Record Server : Type := {
  clients : gset Z;
  logChan : Go.Chan LogEntry;
}.

(** The server that [NewServer] returns once the socket is bound. *)
Definition NewServer : Server :=
  {| clients := ∅; logChan := Go.makeChan 1000 |}.

Definition LogChannel (s : Server) : Go.Chan LogEntry := logChan s.

(** The body of the scanner loop of [handleClient] for one line; [None]
    is a line that [json.Unmarshal] rejects. *)
Definition handleLine (s : Server) (line : option IPCMessage) : Server :=
  match line with
  | None => s
  | Some msg =>
    if decide (msgType msg = MessageTypeLog) then
      match msgLogEntry msg with
      | Some entry =>
        {| clients := clients s; logChan := Go.trySend (logChan s) entry |}
      | None => s
      end
    else s
  end.

(** A line that comes in on a connection: the number of its bytes, the
    newline left out, and what [json.Unmarshal] makes of them ([None]
    when it rejects them). *)
Record Line : Type := {
  lineLen : Z;
  lineMsg : option IPCMessage;
}.

(** The lines that [scanner.Scan] hands to the loop of [handleClient],
    as [json.Unmarshal] reads them. The scanner is the default one: at
    the first line that does not fit its buffer together with the
    newline it gives up, and the lines behind it are never read. *)
Fixpoint scanned (lines : list Line) : list (option IPCMessage) :=
  match lines with
  | [] => []
  | line :: lines' =>
    if decide (lineLen line < Go.MaxScanTokenSize)
    then lineMsg line :: scanned lines'
    else []
  end.

(** [handleClient] on a connection that delivers [lines] and is then
    closed by the peer. When the loop ends, at the end of the input or
    at a line that is too long, the deferred calls take the connection
    out of the clients and close it. *)
Definition handleClient (s : Server) (conn : Z) (lines : list Line)
  : Server :=
  let s := {| clients := {[conn]} ∪ clients s; logChan := logChan s |} in
  let s := foldl handleLine s (scanned lines) in
  {| clients := clients s ∖ {[conn]}; logChan := logChan s |}.

(** The server after the messages [lines] have come in on its
    connections, with nothing taken from the queue in between. *)
Definition handleLines (s : Server) (lines : list (option IPCMessage))
  : Server :=
  foldl handleLine s lines.

Definition NewSourceInitMessage (name sourceType : string) : IPCMessage :=
  {| msgType := MessageTypeSourceInit; msgLogEntry := None;
     msgSourceInfo := Some {| Name := name; Type_ := sourceType |};
     msgError := "" |}.

Definition NewSourceExitMessage (name : string) : IPCMessage :=
  {| msgType := MessageTypeSourceExit; msgLogEntry := None;
     msgSourceInfo := Some {| Name := name; Type_ := "" |};
     msgError := "" |}.

(** The entries that a sequence of lines carries: those of the
    well-formed messages of type [log] that have an entry, in order. *)
Definition logEntriesOf (lines : list (option IPCMessage)) : list LogEntry :=
  omap (λ line,
          msg ← line;
          if decide (msgType msg = MessageTypeLog)
          then msgLogEntry msg else None)
       lines.

End Ipc.

(** ** internal/ui: panes *)

Module Pane.

Record Pane : Type := {
  name : string;
  buffer : Log.Buffer;
  scrollPos : Z;
  width : Z;
  height : Z;
  focused : bool;
  lastSearch : string;
}.

Definition set_buffer (v : Log.Buffer) (r : Pane) : Pane :=
  {| name := name r; buffer := v; scrollPos := scrollPos r; width := width r;
     height := height r; focused := focused r; lastSearch := lastSearch r |}.

Definition set_scrollPos (v : Z) (r : Pane) : Pane :=
  {| name := name r; buffer := buffer r; scrollPos := v; width := width r;
     height := height r; focused := focused r; lastSearch := lastSearch r |}.

Definition set_lastSearch (v : string) (r : Pane) : Pane :=
  {| name := name r; buffer := buffer r; scrollPos := scrollPos r;
     width := width r; height := height r; focused := focused r;
     lastSearch := v |}.

Definition NewPane (name : string) (bufferSize : Z) : option Pane :=
  buffer ← Log.NewBuffer bufferSize;
  Some {| name := name; buffer := buffer; scrollPos := 0; width := 0;
          height := 0; focused := false; lastSearch := "" |}.

Definition AddEntry (p : Pane) (entry : Log.LogEntry) : option Pane :=
  buffer' ← Log.Add (buffer p) entry;
  Some (set_buffer buffer' p).

Section WithText.
Context `{GT : !Go.Text}.

(** [formatLogEntry]: the line for one entry, cut to [maxWidth] bytes.
    The slice expression of the cut panics when [maxWidth - 3] is
    negative. The receiver is not used. *)
Definition formatLogEntry (entry : Log.LogEntry) (maxWidth : Z)
  : option string :=
  let timestamp := Go.time_Format "15:04:05" (Log.Timestamp entry) in
  (* Get level color *)
  let levelStyle :=
    if decide (Log.Level entry = Log.LogLevelError) then Some "9"
    else if decide (Log.Level entry = Log.LogLevelWarn) then Some "11"
    else if decide (Log.Level entry = Log.LogLevelInfo) then Some "12"
    else if decide (Log.Level entry = Log.LogLevelDebug) then Some "8"
    else None in
  (* Format the line *)
  let levelStr := Go.style_Render levelStyle (Log.Level entry) in
  let line := timestamp +:+ " " +:+ levelStr +:+ " " +:+ Log.Content entry in
  (* Truncate if too long *)
  if decide (Go.strlen line > maxWidth) then
    cut ← Go.str_slice_to line (Go.sub maxWidth 3);
    Some (cut +:+ "...")
  else Some line.

(** What [Render] does to the pane: it records the size and the focus,
    settles the scroll position on the filtered entries and formats
    the entries of the window, which can panic. The text it returns
    (the lines, the header and the lipgloss frame around them) is
    outside the model. *)
Definition Render (p : Pane) (width height : Z) (focused : bool)
    (filterLevel : Log.LogLevel) (followMode : bool) : option Pane :=
  entries ← Log.Filter (buffer p) filterLevel;
  let contentHeight := Go.sub height 2 in
  let contentHeight :=
    if decide (contentHeight < 1) then 1 else contentHeight in
  let scrollPos :=
    if followMode && bool_decide (Go.len entries > contentHeight)
    then Go.sub (Go.len entries) contentHeight
    else scrollPos p in
  let scrollPos := if decide (scrollPos < 0) then 0 else scrollPos in
  let scrollPos :=
    if decide (Go.len entries > 0 ∧
               scrollPos > Go.sub (Go.len entries) contentHeight)
    then
      let scrollPos := Go.sub (Go.len entries) contentHeight in
      if decide (scrollPos < 0) then 0 else scrollPos
    else scrollPos in
  (* Get visible entries *)
  visibleEntries ←
    (if decide (Go.len entries > 0) then
       let start := scrollPos in
       let end_ := Go.add start contentHeight in
       let end_ :=
         if decide (end_ > Go.len entries) then Go.len entries else end_ in
       if decide (start < end_) then Go.slice entries start end_
       else Some []
     else Some []);
  (* Render entries *)
  _ ← mapM (λ entry, formatLogEntry entry (Go.sub width 4)) visibleEntries;
  Some {| name := name p; buffer := buffer p; scrollPos := scrollPos;
          width := width; height := height; focused := focused;
          lastSearch := lastSearch p |}.

End WithText.

Definition ScrollDown (p : Pane) : option Pane :=
  entries ← Log.GetAll (buffer p);
  let maxScroll := Go.sub (Go.len entries) (Go.sub (height p) 2) in
  let maxScroll := if decide (maxScroll < 0) then 0 else maxScroll in
  Some (if decide (scrollPos p < maxScroll)
        then set_scrollPos (Go.add (scrollPos p) 1) p
        else p).

Definition ScrollUp (p : Pane) : Pane :=
  if decide (scrollPos p > 0)
  then set_scrollPos (Go.sub (scrollPos p) 1) p
  else p.

Definition Clear (p : Pane) : Pane :=
  set_scrollPos 0 (set_buffer (Log.Clear (buffer p)) p).

Definition Search `{GS : !Go.Strings} (p : Pane) (term : string)
  : option (Pane * list Log.LogEntry) :=
  let p := set_lastSearch term p in
  found ← Log.Search (buffer p) term;
  Some (p, found).

Definition GetEntryCount (p : Pane) : Z := Log.Count (buffer p).

End Pane.

(** ** internal/ui: the dashboard *)

Module App.

Inductive LayoutMode : Type :=
  | LayoutHorizontal
  | LayoutVertical
  | LayoutAutoGrid.

Inductive ViewMode : Type :=
  | ViewMultiPane
  | ViewZoomed.

Inductive SearchMode : Type :=
  | SearchNone
  | SearchLocal
  | SearchGlobal.

#[export] Instance LayoutMode_eq_dec : EqDecision LayoutMode.
Proof. solve_decision. Defined.

#[export] Instance ViewMode_eq_dec : EqDecision ViewMode.
Proof. solve_decision. Defined.

#[export] Instance SearchMode_eq_dec : EqDecision SearchMode.
Proof. solve_decision. Defined.

Record SearchResult : Type := {
  PaneName : string;
  Entry : Log.LogEntry;
  Index : Z;
}.

(** The dashboard. The map holds the panes themselves: every pane is
    reached through the map only, so updating a pane in place is
    re-inserting it. The server handle and the styles are left out. *)
Record App : Type := {
  panes : gmap string Pane.Pane;
  paneOrder : list string;
  layout : LayoutMode;
  viewMode : ViewMode;
  focusedPane : Z;
  zoomedPane : Z;
  searchMode : SearchMode;
  searchQuery : string;
  searchResults : list SearchResult;
  filterLevel : Log.LogLevel;
  followMode : bool;
  paused : bool;
  width : Z;
  height : Z;
}.

Definition set_panes (v : gmap string Pane.Pane) (r : App) : App :=
  {| panes := v; paneOrder := paneOrder r; layout := layout r;
     viewMode := viewMode r; focusedPane := focusedPane r;
     zoomedPane := zoomedPane r; searchMode := searchMode r;
     searchQuery := searchQuery r; searchResults := searchResults r;
     filterLevel := filterLevel r; followMode := followMode r;
     paused := paused r; width := width r; height := height r |}.

Definition set_paneOrder (v : list string) (r : App) : App :=
  {| panes := panes r; paneOrder := v; layout := layout r;
     viewMode := viewMode r; focusedPane := focusedPane r;
     zoomedPane := zoomedPane r; searchMode := searchMode r;
     searchQuery := searchQuery r; searchResults := searchResults r;
     filterLevel := filterLevel r; followMode := followMode r;
     paused := paused r; width := width r; height := height r |}.

Definition set_layout (v : LayoutMode) (r : App) : App :=
  {| panes := panes r; paneOrder := paneOrder r; layout := v;
     viewMode := viewMode r; focusedPane := focusedPane r;
     zoomedPane := zoomedPane r; searchMode := searchMode r;
     searchQuery := searchQuery r; searchResults := searchResults r;
     filterLevel := filterLevel r; followMode := followMode r;
     paused := paused r; width := width r; height := height r |}.

Definition set_viewMode (v : ViewMode) (r : App) : App :=
  {| panes := panes r; paneOrder := paneOrder r; layout := layout r;
     viewMode := v; focusedPane := focusedPane r; zoomedPane := zoomedPane r;
     searchMode := searchMode r; searchQuery := searchQuery r;
     searchResults := searchResults r; filterLevel := filterLevel r;
     followMode := followMode r; paused := paused r; width := width r;
     height := height r |}.

Definition set_focusedPane (v : Z) (r : App) : App :=
  {| panes := panes r; paneOrder := paneOrder r; layout := layout r;
     viewMode := viewMode r; focusedPane := v; zoomedPane := zoomedPane r;
     searchMode := searchMode r; searchQuery := searchQuery r;
     searchResults := searchResults r; filterLevel := filterLevel r;
     followMode := followMode r; paused := paused r; width := width r;
     height := height r |}.

Definition set_zoomedPane (v : Z) (r : App) : App :=
  {| panes := panes r; paneOrder := paneOrder r; layout := layout r;
     viewMode := viewMode r; focusedPane := focusedPane r; zoomedPane := v;
     searchMode := searchMode r; searchQuery := searchQuery r;
     searchResults := searchResults r; filterLevel := filterLevel r;
     followMode := followMode r; paused := paused r; width := width r;
     height := height r |}.

Definition set_searchMode (v : SearchMode) (r : App) : App :=
  {| panes := panes r; paneOrder := paneOrder r; layout := layout r;
     viewMode := viewMode r; focusedPane := focusedPane r;
     zoomedPane := zoomedPane r; searchMode := v;
     searchQuery := searchQuery r; searchResults := searchResults r;
     filterLevel := filterLevel r; followMode := followMode r;
     paused := paused r; width := width r; height := height r |}.

Definition set_searchQuery (v : string) (r : App) : App :=
  {| panes := panes r; paneOrder := paneOrder r; layout := layout r;
     viewMode := viewMode r; focusedPane := focusedPane r;
     zoomedPane := zoomedPane r; searchMode := searchMode r;
     searchQuery := v; searchResults := searchResults r;
     filterLevel := filterLevel r; followMode := followMode r;
     paused := paused r; width := width r; height := height r |}.

Definition set_searchResults (v : list SearchResult) (r : App) : App :=
  {| panes := panes r; paneOrder := paneOrder r; layout := layout r;
     viewMode := viewMode r; focusedPane := focusedPane r;
     zoomedPane := zoomedPane r; searchMode := searchMode r;
     searchQuery := searchQuery r; searchResults := v;
     filterLevel := filterLevel r; followMode := followMode r;
     paused := paused r; width := width r; height := height r |}.

Definition set_filterLevel (v : Log.LogLevel) (r : App) : App :=
  {| panes := panes r; paneOrder := paneOrder r; layout := layout r;
     viewMode := viewMode r; focusedPane := focusedPane r;
     zoomedPane := zoomedPane r; searchMode := searchMode r;
     searchQuery := searchQuery r; searchResults := searchResults r;
     filterLevel := v; followMode := followMode r; paused := paused r;
     width := width r; height := height r |}.

Definition set_followMode (v : bool) (r : App) : App :=
  {| panes := panes r; paneOrder := paneOrder r; layout := layout r;
     viewMode := viewMode r; focusedPane := focusedPane r;
     zoomedPane := zoomedPane r; searchMode := searchMode r;
     searchQuery := searchQuery r; searchResults := searchResults r;
     filterLevel := filterLevel r; followMode := v; paused := paused r;
     width := width r; height := height r |}.

Definition set_paused (v : bool) (r : App) : App :=
  {| panes := panes r; paneOrder := paneOrder r; layout := layout r;
     viewMode := viewMode r; focusedPane := focusedPane r;
     zoomedPane := zoomedPane r; searchMode := searchMode r;
     searchQuery := searchQuery r; searchResults := searchResults r;
     filterLevel := filterLevel r; followMode := followMode r; paused := v;
     width := width r; height := height r |}.

Definition set_width (v : Z) (r : App) : App :=
  {| panes := panes r; paneOrder := paneOrder r; layout := layout r;
     viewMode := viewMode r; focusedPane := focusedPane r;
     zoomedPane := zoomedPane r; searchMode := searchMode r;
     searchQuery := searchQuery r; searchResults := searchResults r;
     filterLevel := filterLevel r; followMode := followMode r;
     paused := paused r; width := v; height := height r |}.

Definition set_height (v : Z) (r : App) : App :=
  {| panes := panes r; paneOrder := paneOrder r; layout := layout r;
     viewMode := viewMode r; focusedPane := focusedPane r;
     zoomedPane := zoomedPane r; searchMode := searchMode r;
     searchQuery := searchQuery r; searchResults := searchResults r;
     filterLevel := filterLevel r; followMode := followMode r;
     paused := paused r; width := width r; height := v |}.

Definition NewApp : App :=
  {| panes := ∅; paneOrder := []; layout := LayoutVertical;
     viewMode := ViewMultiPane; focusedPane := 0; zoomedPane := 0;
     searchMode := SearchNone; searchQuery := ""; searchResults := [];
     filterLevel := Log.LogLevelDebug; followMode := true; paused := false;
     width := 0; height := 0 |}.

(** The messages of the event loop; a key message is given by its
    [String()]. *)
Inductive Msg : Type :=
  | WindowSizeMsg (Width Height : Z)
  | KeyMsg (key : string)
  | LogEntryMsg (entry : Ipc.LogEntry)
  | TickMsg.

(** The command returned to the event loop: none, [tea.Quit], or the
    next [tick()]. *)
Inductive Cmd : Type :=
  | CmdNil
  | CmdQuit
  | CmdTick.

Definition updateLayout (a : App) : App := a.

Definition cycleLayout (a : App) : App :=
  let a :=
    match layout a with
    | LayoutHorizontal => set_layout LayoutVertical a
    | LayoutVertical => set_layout LayoutAutoGrid a
    | LayoutAutoGrid => set_layout LayoutHorizontal a
    end in
  updateLayout a.

Definition nextPane (a : App) : App :=
  if decide (Go.len (paneOrder a) > 0)
  then set_focusedPane
         (Z.rem (Go.add (focusedPane a) 1) (Go.len (paneOrder a))) a
  else a.

Definition prevPane (a : App) : App :=
  if decide (Go.len (paneOrder a) > 0)
  then set_focusedPane
         (Z.rem (Go.add (Go.sub (focusedPane a) 1) (Go.len (paneOrder a)))
                (Go.len (paneOrder a))) a
  else a.

Definition scrollDown (a : App) : option App :=
  if decide (Go.len (paneOrder a) > 0) then
    paneName ← Go.at_ (paneOrder a) (focusedPane a);
    match panes a !! paneName with
    | Some pane =>
      pane' ← Pane.ScrollDown pane;
      Some (set_panes (<[paneName := pane']> (panes a)) a)
    | None => Some a
    end
  else Some a.

Definition scrollUp (a : App) : option App :=
  if decide (Go.len (paneOrder a) > 0) then
    paneName ← Go.at_ (paneOrder a) (focusedPane a);
    match panes a !! paneName with
    | Some pane =>
      Some (set_panes (<[paneName := Pane.ScrollUp pane]> (panes a)) a)
    | None => Some a
    end
  else Some a.

Definition clearFocusedPane (a : App) : option App :=
  if decide (Go.len (paneOrder a) > 0) then
    paneName ← Go.at_ (paneOrder a) (focusedPane a);
    match panes a !! paneName with
    | Some pane =>
      Some (set_panes (<[paneName := Pane.Clear pane]> (panes a)) a)
    | None => Some a
    end
  else Some a.

(** The bodies of both branches are empty in the source; what is left
    is the reset of the results and the indexing of the pane list. *)
Definition performSearch (a : App) : option App :=
  let a := set_searchResults [] a in
  if decide (searchMode a = SearchLocal ∧ Go.len (paneOrder a) > 0) then
    paneName ← Go.at_ (paneOrder a) (focusedPane a);
    Some a
  else Some a.

Definition handleSearchInput (a : App) (key : string) : option (App * Cmd) :=
  a ← (if decide (key = "enter") then
         a ← performSearch a;
         Some (set_searchMode SearchNone a)
       else if decide (key = "esc") then
         Some (set_searchQuery "" (set_searchMode SearchNone a))
       else if decide (key = "backspace") then
         if decide (Go.strlen (searchQuery a) > 0) then
           q ← Go.str_slice_to (searchQuery a)
                 (Go.sub (Go.strlen (searchQuery a)) 1);
           Some (set_searchQuery q a)
         else Some a
       else
         if decide (Go.strlen key = 1)
         then Some (set_searchQuery (searchQuery a +:+ key) a)
         else Some a);
  Some (a, CmdNil).

Definition digitKeys : list string :=
  ["1"; "2"; "3"; "4"; "5"; "6"; "7"; "8"; "9"].

(** The switch of [handleKeyPress] outside search mode. The source
    lists the case [l] twice; the first one is the one that runs. *)
Definition handleCommandKey (a : App) (key : string) : option App :=
  if decide (key = "l") then Some (cycleLayout a)
  else if decide (key = "z") then
    let a :=
      if decide (viewMode a = ViewMultiPane ∧ Go.len (paneOrder a) > 0)
      then set_zoomedPane (focusedPane a) (set_viewMode ViewZoomed a)
      else if decide (viewMode a = ViewZoomed)
      then set_viewMode ViewMultiPane a
      else a in
    Some (updateLayout a)
  else if decide (key = "tab") then Some (nextPane a)
  else if decide (key = "shift+tab") then Some (prevPane a)
  else if decide (key = "h") then
    Some (if decide (layout a = LayoutVertical) then prevPane a else a)
  else if decide (key = "j") then
    if decide (layout a = LayoutHorizontal) then Some (nextPane a)
    else scrollDown a
  else if decide (key = "k") then
    if decide (layout a = LayoutHorizontal) then Some (prevPane a)
    else scrollUp a
  else if decide (key ∈ digitKeys) then
    c ← Go.byte0 key;
    let paneNum := Go.byte_sub c 49 in
    if decide (paneNum < Go.len (paneOrder a)) then
      let a :=
        if decide (viewMode a = ViewZoomed)
        then set_zoomedPane paneNum a
        else a in
      Some (updateLayout (set_focusedPane paneNum a))
    else Some a
  else if decide (key = "/") then
    Some (set_searchQuery "" (set_searchMode SearchLocal a))
  else if decide (key = "ctrl+/" ∨ key = "?") then
    Some (set_searchQuery "" (set_searchMode SearchGlobal a))
  else if decide (key = "e") then Some (set_filterLevel Log.LogLevelError a)
  else if decide (key = "w") then Some (set_filterLevel Log.LogLevelWarn a)
  else if decide (key = "i") then Some (set_filterLevel Log.LogLevelInfo a)
  else if decide (key = "a") then Some (set_filterLevel Log.LogLevelDebug a)
  else if decide (key = " ") then Some (set_paused (negb (paused a)) a)
  else if decide (key = "f") then
    Some (set_followMode (negb (followMode a)) a)
  else if decide (key = "c") then clearFocusedPane a
  else Some a.

Definition handleKeyPress (a : App) (key : string) : option (App * Cmd) :=
  (* Global quit *)
  if decide (key = "q" ∨ key = "ctrl+c") then Some (a, CmdQuit)
  (* Handle search mode *)
  else if decide (searchMode a ≠ SearchNone) then handleSearchInput a key
  else
    a' ← handleCommandKey a key;
    Some (a', CmdNil).

Definition handleLogEntry (a : App) (entry : Ipc.LogEntry) : option App :=
  (* Get or create pane for this source *)
  '(pane, a) ←
    match panes a !! Ipc.Source entry with
    | Some pane => Some (pane, a)
    | None =>
      pane ← Pane.NewPane (Ipc.Source entry) 1000;
      let a := set_panes (<[Ipc.Source entry := pane]> (panes a)) a in
      let a := set_paneOrder (paneOrder a ++ [Ipc.Source entry]) a in
      Some (pane, updateLayout a)
    end;
  (* Convert IPC entry to internal log entry *)
  let logEntry :=
    {| Log.Timestamp := Ipc.Timestamp entry;
       Log.Source := Ipc.Source entry;
       Log.Level := Ipc.Level entry;
       Log.Content := Ipc.Content entry;
       Log.Raw := Ipc.Raw entry;
       Log.Metadata := Ipc.Metadata entry |} in
  (* Add to pane if not paused *)
  if paused a then Some a
  else
    pane' ← Pane.AddEntry pane logEntry;
    Some (set_panes (<[Ipc.Source entry := pane']> (panes a)) a).

Definition Update (a : App) (msg : Msg) : option (App * Cmd) :=
  match msg with
  | WindowSizeMsg w h =>
    Some (updateLayout (set_height h (set_width w a)), CmdNil)
  | KeyMsg key => handleKeyPress a key
  | LogEntryMsg entry => a' ← handleLogEntry a entry; Some (a', CmdNil)
  | TickMsg => Some (a, CmdTick)
  end.

(** The entry handler run on a sequence of entries, in order of
    arrival. *)
Fixpoint handleLogEntries (a : App) (es : list Ipc.LogEntry) : option App :=
  match es with
  | [] => Some a
  | e :: es' => a' ← handleLogEntry a e; handleLogEntries a' es'
  end.

(** The names of a sequence in the order in which each is first seen. *)
Fixpoint firstSeen (names : list string) : list string :=
  match names with
  | [] => []
  | x :: names' => x :: filter (λ y, y ≠ x) (firstSeen names')
  end.

(** A buffer on which [Add] cannot fail. *)
Definition bufferOK (b : Log.Buffer) : Prop :=
  0 < Log.size b <= Go.int_max ∧
  Go.len (Log.entries b) = Log.size b ∧
  0 <= Log.index b < Log.size b.

Definition panesOK (a : App) : Prop :=
  ∀ s p, panes a !! s = Some p → bufferOK (Pane.buffer p).


(** The pane list and the map of panes name the same sources, each
    once. *)
Definition orderOK (a : App) : Prop :=
  NoDup (paneOrder a) ∧ ∀ s, is_Some (panes a !! s) ↔ s ∈ paneOrder a.

(** The entry that [handleLogEntry] hands to the pane: the fields of
    the IPC entry, one by one. *)
Definition logEntryOf (entry : Ipc.LogEntry) : Log.LogEntry :=
  {| Log.Timestamp := Ipc.Timestamp entry;
     Log.Source := Ipc.Source entry;
     Log.Level := Ipc.Level entry;
     Log.Content := Ipc.Content entry;
     Log.Raw := Ipc.Raw entry;
     Log.Metadata := Ipc.Metadata entry |}.

(** The entries of [seen] that come from the source [s], as the panes
    store them. *)
Definition fromSource (s : string) (seen : list Ipc.LogEntry)
  : list Log.LogEntry :=
  logEntryOf <$> filter (λ e, Ipc.Source e = s) seen.

(** Every source of [seen] has a pane whose buffer represents the
    entries of that source, and there are no other panes. *)
Definition demuxOK (seen : list Ipc.LogEntry) (a : App) : Prop :=
  ∀ s,
    match panes a !! s with
    | Some p =>
      s ∈ Ipc.Source <$> seen ∧ Log.Rep 1000 (fromSource s seen) (Pane.buffer p)
    | None => s ∉ Ipc.Source <$> seen
    end.

(** [listenForLogs]: the messages it sends to the program for the
    entries that are queued, oldest first. *)
Definition listenForLogs (ch : Go.Chan Ipc.LogEntry) : list Msg :=
  LogEntryMsg <$> Go.chanBuf ch.

(** The state after the event loop has passed the messages to
    [Update], one by one. The commands that come back are not followed:
    a quit command ends the loop, so the states reached by the program
    are among these. *)
Fixpoint updates (a : App) (msgs : list Msg) : option App :=
  match msgs with
  | [] => Some a
  | msg :: msgs' => '(a', _) ← Update a msg; updates a' msgs'
  end.

(** The focus and the zoom index point at a pane whenever there is
    one, and the zoomed view is on only when there is a pane. *)
Definition viewOK (a : App) : Prop :=
  0 <= focusedPane a < Z.max 1 (Go.len (paneOrder a)) ∧
  0 <= zoomedPane a < Z.max 1 (Go.len (paneOrder a)) ∧
  (viewMode a = ViewZoomed → 0 < Go.len (paneOrder a)).

(** Every pane has a buffer that the buffer methods have produced. *)
Definition buffersOK (a : App) : Prop :=
  ∀ s p, panes a !! s = Some p → Log.reachable 1000 (Pane.buffer p).

(** The pane list and the query have at most [n] elements. *)
Definition sizeOK (n : Z) (a : App) : Prop :=
  Go.len (paneOrder a) <= n ∧ Go.strlen (searchQuery a) <= n.

Definition appOK (n : Z) (a : App) : Prop :=
  viewOK a ∧ buffersOK a ∧ sizeOK n a.

(** layout.go: the effect of the layout functions on the panes. Every
    pane of the list is rendered in turn with its share of the area;
    the text that comes back is left out. (app.go declares placeholders
    of the same names, which return a fixed text and render no pane.) *)

Section WithText.
Context `{GT : !Go.Text}.

(** The loop over the pane list from index [i] on; [dims i] is the
    width and the height that the body works out for the pane at [i].
    A name without a pane gives a nil receiver, on which [Render]
    panics. *)
Fixpoint renderEach (a : App) (dims : Z → Z * Z) (i : Z)
    (names : list string) : option App :=
  match names with
  | [] => Some a
  | paneName :: names' =>
    pane ← panes a !! paneName;
    let focused := bool_decide (i = focusedPane a) in
    pane' ← Pane.Render pane (dims i).1 (dims i).2 focused
                        (filterLevel a) (followMode a);
    renderEach (set_panes (<[paneName := pane']> (panes a)) a)
               dims (i + 1) names'
  end.

(** The divisor is the length of the pane list, which is not zero
    where the division is reached. *)
Definition renderHorizontalLayout (a : App) (height : Z) : option App :=
  if decide (Go.len (paneOrder a) = 0) then Some a
  else
    let paneHeight := Z.quot height (Go.len (paneOrder a)) in
    let remainder := Z.rem height (Go.len (paneOrder a)) in
    renderEach a
      (λ i, let currentHeight := paneHeight in
            let currentHeight :=
              if decide (i < remainder) then Go.add currentHeight 1
              else currentHeight in
            (width a, currentHeight))
      0 (paneOrder a).

Definition renderVerticalLayout (a : App) (height : Z) : option App :=
  if decide (Go.len (paneOrder a) = 0) then Some a
  else
    let paneWidth := Z.quot (width a) (Go.len (paneOrder a)) in
    let remainder := Z.rem (width a) (Go.len (paneOrder a)) in
    renderEach a
      (λ i, let currentWidth := paneWidth in
            let currentWidth :=
              if decide (i < remainder) then Go.add currentWidth 1
              else currentWidth in
            (currentWidth, height))
      0 (paneOrder a).

End WithText.

(** The panes in the order of the pane list; [None] when a name of the
    list has no pane. *)
Definition orderedPanes (a : App) : option (list Pane.Pane) :=
  mapM (λ s, panes a !! s) (paneOrder a).

End App.

(** ** The runtime on ASCII text, and the scenarios of the design document *)

Module AsciiText.

(** On a string of ASCII bytes the case mappings of [strings] change the
    letters only, byte by byte, and [TrimSpace] removes the ASCII white
    space at both ends. *)

Definition upperByte (c : ascii) : ascii :=
  let n := nat_of_ascii c in
  if (97 <=? n)%nat && (n <=? 122)%nat then ascii_of_nat (n - 32) else c.

Definition lowerByte (c : ascii) : ascii :=
  let n := nat_of_ascii c in
  if (65 <=? n)%nat && (n <=? 90)%nat then ascii_of_nat (n + 32) else c.

Fixpoint mapBytes (f : ascii → ascii) (s : string) : string :=
  match s with
  | EmptyString => EmptyString
  | String c s' => String (f c) (mapBytes f s')
  end.

Definition isSpace (c : ascii) : bool :=
  bool_decide (nat_of_ascii c ∈ [9; 10; 11; 12; 13; 32]%nat).

Fixpoint trimLeft (s : string) : string :=
  match s with
  | EmptyString => EmptyString
  | String c s' => if isSpace c then trimLeft s' else s
  end.

Definition trimSpace (s : string) : string :=
  String.rev (trimLeft (String.rev (trimLeft s))).

Definition strings : Go.Strings :=
  {| Go.ToUpper := mapBytes upperByte;
     Go.ToLower := mapBytes lowerByte;
     Go.TrimSpace := trimSpace;
     Go.ToLower_empty := eq_refl |}.

(** The clock of an instant in UTC, and a terminal without colours, on
    which a lipgloss style leaves the text as it is. *)
Definition digit (n : Z) : ascii := ascii_of_nat (48 + Z.to_nat n).

Definition clock (t : Go.Time) : string :=
  let secs := (t `div` 10 ^ 9) `mod` 86400 in
  let h := secs `div` 3600 in
  let m := (secs `div` 60) `mod` 60 in
  let s := secs `mod` 60 in
  String (digit (h `div` 10)) (String (digit (h `mod` 10)) (String ":"
  (String (digit (m `div` 10)) (String (digit (m `mod` 10)) (String ":"
  (String (digit (s `div` 10)) (String (digit (s `mod` 10))
  EmptyString))))))).

Definition text : Go.Text :=
  {| Go.time_Format := λ _ t, clock t;
     Go.style_Render := λ _ str, str;
     Go.time_Format_clock := λ _, eq_refl |}.

End AsciiText.

Module Scenario.

Definition entry (level content : string) : Log.LogEntry :=
  {| Log.Timestamp := 1704067200 * 10 ^ 9; Log.Source := "backend";
     Log.Level := level; Log.Content := content; Log.Raw := content;
     Log.Metadata := ∅ |}.

Definition A : Log.LogEntry := entry "ERROR" "ERROR: disk full".
Definition B : Log.LogEntry := entry "INFO" "INFO: started".
Definition C : Log.LogEntry := entry "WARN" "WARN: retrying".
Definition D : Log.LogEntry := entry "DEBUG" "DEBUG: tick".
Definition T : Log.LogEntry := entry "TRACE" "trace: enter".

(** A buffer of capacity 2 after [A], [B], [C]: the store has wrapped. *)
Definition wrapped : option Log.Buffer :=
  b ← Log.NewBuffer 2; Log.AddAll b [A; B; C].

(** A buffer of capacity 8 holding all five entries. *)
Definition mixed : option Log.Buffer :=
  b ← Log.NewBuffer 8; Log.AddAll b [A; T; B; D; C].

Definition mixedBuffer : Log.Buffer :=
  {| Log.entries :=
       [A; T; B; D; C; Log.zeroLogEntry; Log.zeroLogEntry; Log.zeroLogEntry];
     Log.size := 8; Log.index := 5; Log.count := 5 |}.

Definition quote : string := String "034"%char EmptyString.

(** The line
    [{ level : warn , msg : cache miss , ts : 2024-01-01T00:00:00Z }]
    with its keys and values in double quotes and no spaces but the one
    in the message. *)
Definition jsonLine : string :=
  "{" +:+ quote +:+ "level" +:+ quote +:+ ":" +:+ quote +:+ "warn" +:+ quote
  +:+ "," +:+ quote +:+ "msg" +:+ quote +:+ ":" +:+ quote +:+ "cache miss"
  +:+ quote +:+ "," +:+ quote +:+ "ts" +:+ quote +:+ ":" +:+ quote
  +:+ "2024-01-01T00:00:00Z" +:+ quote +:+ "}".

(** What [json.Unmarshal] decodes that line into. *)
Definition jsonData : gmap string Go.JValue :=
  {[ "level" := Go.JString "warn";
     "msg" := Go.JString "cache miss";
     "ts" := Go.JString "2024-01-01T00:00:00Z" ]}.

(** 2024-01-01T00:00:00Z. *)
Definition newYear2024 : Go.Time := 1704067200 * 10 ^ 9.

(** [encoding/json] and [time] on the inputs of the scenario. *)
Definition encoding : Go.Encoding :=
  {| Go.json_Unmarshal line :=
       if decide (line = jsonLine) then Some jsonData else None;
     Go.time_Parse layout value :=
       if decide (layout = Go.RFC3339 ∧ value = "2024-01-01T00:00:00Z")
       then Some newYear2024 else None |}.

Definition ipcEntry (source content : string) : Ipc.LogEntry :=
  {| Ipc.Timestamp := newYear2024; Ipc.Source := source;
     Ipc.Level := "INFO"; Ipc.Content := content; Ipc.Raw := content;
     Ipc.Metadata := ∅ |}.

(** A server whose queue holds 1000 entries. *)
Definition fullServer : Ipc.Server :=
  {| Ipc.clients := ∅;
     Ipc.logChan :=
       {| Go.chanCap := 1000;
          Go.chanBuf := replicate 1000 (ipcEntry "backend" "queued") |} |}.

(** A dashboard that has seen one entry of [backend] and is paused. *)
Definition pausedApp : option App.App :=
  a ← App.handleLogEntry App.NewApp (ipcEntry "backend" "started");
  Some (App.set_paused true a).

(** A dashboard in global search mode. *)
Definition searchingApp : App.App :=
  App.set_searchMode App.SearchGlobal App.NewApp.

(** A dashboard with the panes [zeta] and [alpha], each with one
    entry, and the same dashboard searching the focused pane. *)
Definition twoPanes : option App.App :=
  App.handleLogEntries App.NewApp [ipcEntry "zeta" "up"; ipcEntry "alpha" "up"].

Definition twoPanesSearching : option App.App :=
  a ← twoPanes;
  Some (App.set_searchQuery "up" (App.set_searchMode App.SearchLocal a)).


End Scenario.

(** * Properties *)

(** ** Facts about the runtime model *)

Module GoFacts.

Lemma int_max_eq : Go.int_max = 9223372036854775807.
Proof. reflexivity. Qed.

Lemma int_min_eq : Go.int_min = - 9223372036854775808.
Proof. reflexivity. Qed.

(** Linear arithmetic with the bounds of [int] spelled out. *)
Ltac int_lia := rewrite ?int_max_eq, ?int_min_eq in *; lia.

Lemma wrap_small (z : Z) : Go.int_min <= z <= Go.int_max → Go.wrap z = z.
Proof.
  rewrite int_max_eq, int_min_eq. unfold Go.wrap. intros Hz.
  change (2 ^ 63) with 9223372036854775808.
  change (2 ^ 64) with 18446744073709551616.
  rewrite Z.mod_small; lia.
Qed.

Lemma add_small (x y : Z) :
  Go.int_min <= x + y <= Go.int_max → Go.add x y = x + y.
Proof. apply wrap_small. Qed.

Lemma sub_small (x y : Z) :
  Go.int_min <= x - y <= Go.int_max → Go.sub x y = x - y.
Proof. apply wrap_small. Qed.

Lemma rem_pos (x y : Z) : 0 <= x → 0 < y → Go.rem x y = Some (x mod y).
Proof.
  intros Hx Hy. unfold Go.rem. case_decide; [lia|].
  by rewrite Z.rem_mod_nonneg.
Qed.

Section Slices.
Context {A : Type}.
Implicit Types (s dst src : list A).

Lemma make_Some (zero : A) (n : Z) :
  0 <= n <= Go.int_max →
  Go.make zero n = Some (replicate (Z.to_nat n) zero).
Proof. intros Hn. unfold Go.make. by case_decide. Qed.

Lemma store_Some s (i : Z) (x : A) :
  0 <= i < Go.len s → Go.store s i x = Some (<[Z.to_nat i := x]> s).
Proof. intros Hi. unfold Go.store. by case_decide. Qed.

Lemma slice_to_Some s (hi : Z) :
  0 <= hi <= Go.len s → Go.slice_to s hi = Some (take (Z.to_nat hi) s).
Proof. intros Hi. unfold Go.slice_to. by case_decide. Qed.

Lemma slice_from_Some s (lo : Z) :
  0 <= lo <= Go.len s → Go.slice_from s lo = Some (drop (Z.to_nat lo) s).
Proof. intros Hi. unfold Go.slice_from. by case_decide. Qed.

(** Copying a source that is as long as the destination replaces it. *)
Lemma copy_full dst src : length src = length dst → Go.copy dst src = src.
Proof.
  intros Hl. unfold Go.copy.
  rewrite <- Hl, firstn_all, drop_ge by lia. apply app_nil_r.
Qed.

(** Copying a shorter source overwrites a prefix of the destination. *)
Lemma copy_prefix dst src :
  (length src ≤ length dst)%nat →
  Go.copy dst src = src ++ drop (length src) dst.
Proof. intros Hl. unfold Go.copy. by rewrite take_ge. Qed.

End Slices.

(** *** Strings *)

Lemma append_nil_l (s : string) : "" +:+ s = s.
Proof. reflexivity. Qed.

Lemma append_cons (c : ascii) (s1 s2 : string) :
  String c s1 +:+ s2 = String c (s1 +:+ s2).
Proof. reflexivity. Qed.

Lemma prefix_nil (s : string) : String.prefix "" s = true.
Proof. by destruct s. Qed.

Lemma prefix_spec (p s : string) :
  String.prefix p s = true ↔ ∃ post, s = p +:+ post.
Proof.
  revert s. induction p as [|a p IH]; intros s.
  - rewrite prefix_nil. split; [intros _; by exists s|done].
  - destruct s as [|b s].
    + split; [done|intros [post Hpost]; done].
    + change (String.prefix (String a p) (String b s))
        with (if ascii_dec a b then String.prefix p s else false).
      destruct (ascii_dec a b) as [->|Hne].
      * rewrite IH. split; intros [post Hpost]; exists post.
        -- by rewrite append_cons, Hpost.
        -- rewrite append_cons in Hpost. congruence.
      * split; [done|]. intros [post Hpost].
        rewrite append_cons in Hpost. congruence.
Qed.

Lemma Contains_nil (sub : string) :
  Go.Contains "" sub = String.prefix sub "".
Proof. unfold Go.Contains. apply orb_false_r. Qed.

Lemma Contains_cons (c : ascii) (s sub : string) :
  Go.Contains (String c s) sub
  = String.prefix sub (String c s) || Go.Contains s sub.
Proof. reflexivity. Qed.

(** [strings.Contains] decides occurrence as a substring. *)
Lemma Contains_spec (s sub : string) :
  Go.Contains s sub = true ↔ Go.occursIn sub s.
Proof.
  unfold Go.occursIn. induction s as [|c s IH].
  - rewrite Contains_nil, prefix_spec. split.
    + intros [post Hpost]. by exists EmptyString, post.
    + intros (pre & post & Hs). destruct pre; [|done]. by exists post.
  - rewrite Contains_cons, orb_true_iff, prefix_spec, IH. split.
    + intros [[post Hpost]|(pre & post & Hs)].
      * by exists EmptyString, post.
      * exists (String c pre), post. by rewrite append_cons, Hs.
    + intros (pre & post & Hs). destruct pre as [|c' pre].
      * left. by exists post.
      * right. exists pre, post. rewrite append_cons in Hs. congruence.
Qed.

Lemma Contains_false (s sub : string) :
  Go.Contains s sub = false ↔ ¬ Go.occursIn sub s.
Proof.
  rewrite <- Contains_spec. by destruct (Go.Contains s sub).
Qed.

(** Every string contains the empty string. *)
Lemma Contains_empty (s : string) : Go.Contains s "" = true.
Proof. by destruct s. Qed.

End GoFacts.

(** ** Lists *)

Module ListFacts.

(** A loop that appends the elements that pass a test is a filter. *)
Lemma foldl_append_filter {A : Type} (P : A → Prop) `{!∀ x, Decision (P x)}
    (l acc : list A) :
  foldl (λ acc x, if decide (P x) then acc ++ [x] else acc) acc l
  = acc ++ filter P l.
Proof.
  revert acc. induction l as [|x l IH]; intros acc; simpl.
  - by rewrite app_nil_r.
  - rewrite IH. rewrite filter_cons. case_decide; [|done].
    by rewrite <- app_assoc.
Qed.

Lemma foldl_append_filter_bool {A : Type} (f : A → bool) (l acc : list A) :
  foldl (λ acc x, if f x then acc ++ [x] else acc) acc l
  = acc ++ filter (λ x, f x = true) l.
Proof.
  revert acc. induction l as [|x l IH]; intros acc; simpl.
  - by rewrite app_nil_r.
  - rewrite IH, filter_cons. destruct (f x) eqn:Hf.
    + rewrite decide_True by done. by rewrite <- app_assoc.
    + rewrite decide_False by (by intros ?). done.
Qed.

(** A stricter test keeps a subsequence of what a weaker test keeps. *)
Lemma filter_sublist_mono {A : Type} (P Q : A → Prop)
    `{!∀ x, Decision (P x), !∀ x, Decision (Q x)} (l : list A) :
  (∀ x, P x → Q x) → filter P l `sublist_of` filter Q l.
Proof.
  intros HPQ. induction l as [|x l IH]; [done|].
  rewrite !filter_cons. destruct (decide (P x)) as [HP|HP].
  - rewrite decide_True by auto. by apply sublist_skip.
  - case_decide; [by apply sublist_cons|done].
Qed.

Lemma filter_all {A : Type} (P : A → Prop) `{!∀ x, Decision (P x)}
    (l : list A) :
  (∀ x, x ∈ l → P x) → filter P l = l.
Proof.
  induction l as [|x l IH]; intros HP; [done|].
  rewrite filter_cons, decide_True by (apply HP; left).
  f_equal. apply IH. intros y Hy. apply HP. by right.
Qed.

Lemma filter_none {A : Type} (P : A → Prop) `{!∀ x, Decision (P x)}
    (l : list A) :
  (∀ x, x ∈ l → ¬ P x) → filter P l = [].
Proof.
  induction l as [|x l IH]; intros HP; [done|].
  rewrite filter_cons, decide_False by (apply HP; left).
  apply IH. intros y Hy. apply HP. by right.
Qed.

End ListFacts.

(** ** The ring buffer *)

Module LogProofs.
Import Log ListFacts.

Lemma lastN_short {A : Type} (n : Z) (l : list A) :
  Go.len l <= n → lastN n l = l.
Proof.
  unfold lastN, Go.len. intros Hl.
  replace (length l - Z.to_nat n)%nat with 0%nat by lia. done.
Qed.

Lemma lastN_snoc {A : Type} (n : Z) (l : list A) (x : A) :
  0 < n <= Go.len l → lastN n (l ++ [x]) = drop 1 (lastN n l) ++ [x].
Proof.
  unfold lastN, Go.len. intros Hl.
  rewrite drop_drop, length_app. simpl.
  replace (length l + 1 - Z.to_nat n)%nat
    with (length l - Z.to_nat n + 1)%nat by lia.
  rewrite drop_app_le by lia. done.
Qed.

Lemma Rep_NewBuffer (N : Z) :
  0 < N <= Go.int_max → ∃ b, NewBuffer N = Some b ∧ Rep N [] b.
Proof.
  intros HN. unfold NewBuffer. rewrite GoFacts.make_Some by lia. simpl.
  eexists; split; [done|].
  unfold Rep, Go.len; simpl. rewrite length_replicate.
  split_and!; try lia. left. split_and!; try lia. done.
Qed.

(** Rotating past a freshly written cell drops the oldest entry and
    appends the new one. *)
Lemma rotate_insert {A : Type} (l : list A) (i : nat) (x : A) :
  (i < length l)%nat →
  let j := ((i + 1) mod length l)%nat in
  drop j (<[i:=x]> l) ++ take j (<[i:=x]> l)
  = drop 1 (drop i l ++ take i l) ++ [x].
Proof.
  intros Hi j.
  assert (Hd : drop 1 (drop i l ++ take i l) = drop (S i) l ++ take i l).
  { rewrite drop_app_le.
    - by rewrite drop_drop, Nat.add_comm.
    - rewrite length_drop. lia. }
  rewrite Hd, insert_take_drop by done.
  assert (Hlen : length (take i l ++ [x]) = (i + 1)%nat).
  { rewrite length_app, length_take. simpl. lia. }
  rewrite (cons_middle x), app_assoc.
  destruct (decide (i + 1 = length l)%nat) as [Heq|Hne]; subst j.
  - rewrite Heq, Nat.Div0.mod_same, drop_0, take_0, app_nil_r.
    rewrite (drop_ge l (S i)) by lia. by rewrite app_nil_r.
  - rewrite Nat.mod_small by lia.
    rewrite drop_app_length', take_app_length' by done.
    by rewrite app_assoc.
Qed.

Lemma Rep_Add (N : Z) (seen : list LogEntry) (b : Buffer) (e : LogEntry) :
  0 < N <= Go.int_max → Rep N seen b →
  ∃ b', Add b e = Some b' ∧ Rep N (seen ++ [e]) b'.
Proof.
  intros HN (Hsz & Hlen & Hidx & Hcase). unfold Add.
  rewrite GoFacts.store_Some by lia. simpl.
  rewrite (GoFacts.add_small (index b)) by GoFacts.int_lia.
  rewrite Hsz, GoFacts.rem_pos by lia. simpl.
  eexists; split; [done|].
  pose proof (Z.mod_pos_bound (index b + 1) N ltac:(lia)) as Hmod.
  unfold Go.len in *.
  assert (Hi : (Z.to_nat (index b) < length (entries b))%nat) by lia.
  unfold Rep; simpl. split_and!; try lia.
  { unfold Go.len. rewrite length_insert. lia. }
  unfold Go.len. rewrite length_app. simpl.
  destruct Hcase as [(Hlt & Hc & Hix & Htake)|(Hge & Hc & Hst)].
  - (* not yet full *)
    assert (Htake' :
      take (S (length seen)) (<[Z.to_nat (index b):=e]> (entries b))
      = seen ++ [e]).
    { rewrite Hix, Nat2Z.id in *.
      erewrite take_S_r by (by apply list_lookup_insert_eq).
      by rewrite take_insert_ge, Htake by lia. }
    rewrite decide_True by lia.
    rewrite GoFacts.add_small by GoFacts.int_lia.
    destruct (decide (Z.of_nat (length seen) + 1 < N)) as [Hroom|Hfull].
    + left. rewrite Z.mod_small by lia. split_and!; try lia.
      by rewrite Nat.add_1_r.
    + right. replace (index b + 1) with N by lia.
      rewrite Z.mod_same by lia. split_and!; try lia.
      unfold stitched; simpl. rewrite drop_0, app_nil_r.
      rewrite lastN_short by (unfold Go.len; rewrite length_app; simpl; lia).
      rewrite <- Htake'. symmetry. apply take_ge. rewrite length_insert. lia.
  - (* full: the oldest entry is overwritten *)
    rewrite decide_False by lia.
    right. split_and!; try lia.
    rewrite lastN_snoc by (unfold Go.len; lia). rewrite <- Hst.
    unfold stitched; simpl.
    rewrite <- (rotate_insert (entries b) (Z.to_nat (index b)) e Hi).
    replace (Z.to_nat ((index b + 1) `mod` N))
      with ((Z.to_nat (index b) + 1) `mod` length (entries b))%nat; [done|].
    apply Nat2Z.inj. rewrite Nat2Z.inj_mod, Z2Nat.id by lia.
    rewrite Nat2Z.inj_add, Z2Nat.id, Hlen by lia. done.
Qed.

Lemma Rep_GetAll (N : Z) (seen : list LogEntry) (b : Buffer) :
  0 < N <= Go.int_max → Rep N seen b → GetAll b = Some (lastN N seen).
Proof.
  intros HN (Hsz & Hlen & Hidx & Hcase). unfold GetAll, Go.len in *.
  destruct Hcase as [(Hlt & Hc & Hix & Htake)|(Hge & Hc & Hst)].
  - rewrite lastN_short by (unfold Go.len; lia).
    case_decide as H0.
    { destruct seen; [done|]. simpl in *. lia. }
    rewrite GoFacts.make_Some by lia. simpl.
    rewrite decide_True by lia.
    rewrite GoFacts.slice_to_Some by (unfold Go.len; lia). simpl.
    rewrite Hc, Nat2Z.id, Htake.
    by rewrite GoFacts.copy_full by (by rewrite length_replicate).
  - rewrite decide_False by lia.
    rewrite GoFacts.make_Some by lia. simpl.
    rewrite decide_False by lia.
    rewrite GoFacts.slice_from_Some by (unfold Go.len; lia). simpl.
    rewrite GoFacts.slice_to_Some by (unfold Go.len; lia). simpl.
    rewrite GoFacts.sub_small by GoFacts.int_lia.
    rewrite <- Hst. unfold stitched, Go.copy_at.
    set (i := Z.to_nat (index b)).
    assert (Hd : length (drop i (entries b)) = Z.to_nat (size b - index b)).
    { rewrite length_drop. lia. }
    rewrite GoFacts.copy_prefix by (rewrite length_replicate; lia).
    rewrite GoFacts.slice_from_Some
      by (unfold Go.len; rewrite length_app; lia).
    simpl. rewrite <- Hd, take_app_length, drop_app_length.
    rewrite GoFacts.copy_full; [done|].
    rewrite length_drop, length_replicate, length_take. lia.
Qed.

Lemma Rep_AddAll (N : Z) (es seen : list LogEntry) (b : Buffer) :
  0 < N <= Go.int_max → Rep N seen b →
  ∃ b', AddAll b es = Some b' ∧ Rep N (seen ++ es) b'.
Proof.
  intros HN. revert seen b.
  induction es as [|e es IH]; intros seen b Hrep; simpl.
  - exists b. by rewrite app_nil_r.
  - destruct (Rep_Add N seen b e HN Hrep) as (b1 & -> & Hrep1). simpl.
    destruct (IH _ _ Hrep1) as (b' & HAll & Hrep').
    exists b'. by rewrite <- app_assoc in Hrep'.
Qed.

Lemma Rep_Clear (N : Z) (seen : list LogEntry) (b : Buffer) :
  0 < N → Rep N seen b → Rep N [] (Clear b).
Proof.
  intros HN (Hsz & Hlen & _ & _). unfold Rep, Clear, Go.len in *; simpl.
  split_and!; try lia. left. split_and!; (lia || done).
Qed.

(** Every buffer that the methods produce represents some history; on
    such a buffer [Add] and [GetAll] do not panic. *)
Lemma reachable_Rep (N : Z) (b : Buffer) :
  0 < N <= Go.int_max → reachable N b → ∃ seen, Rep N seen b.
Proof.
  intros HN. induction 1 as [b Hnew|b e b' _ [seen Hrep] Hadd|b _ [seen Hrep]].
  - destruct (Rep_NewBuffer N HN) as (b0 & Hb0 & Hrep).
    exists []. congruence.
  - destruct (Rep_Add N seen b e HN Hrep) as (b1 & Hb1 & Hrep1).
    exists (seen ++ [e]). congruence.
  - exists []. apply (Rep_Clear N seen); [lia|done].
Qed.

Lemma reachable_total (N : Z) (b : Buffer) (e : LogEntry) :
  0 < N <= Go.int_max → reachable N b →
  is_Some (Add b e) ∧ is_Some (GetAll b).
Proof.
  intros HN Hreach. destruct (reachable_Rep N b HN Hreach) as [seen Hrep].
  destruct (Rep_Add N seen b e HN Hrep) as (b' & -> & _).
  by rewrite (Rep_GetAll N seen b).
Qed.

(** C1. A buffer made with capacity [N > 0] into which the entries [es]
    are added in order returns from [GetAll] exactly the last [N] of them
    (all of them when there are fewer than [N]), oldest first; once the
    store has wrapped, that result is the segment from the cursor to the
    end followed by the segment from the start to the cursor. *)
Theorem GetAll_returns_last_N (N : Z) (es : list LogEntry) :
  0 < N <= Go.int_max →
  ∃ b0 b,
    NewBuffer N = Some b0 ∧ AddAll b0 es = Some b ∧
    GetAll b = Some (drop (length es - Z.to_nat N) es) ∧
    (Go.len es <= N → GetAll b = Some es) ∧
    (N <= Go.len es → GetAll b = Some (stitched b)).
Proof.
  intros HN.
  destruct (Rep_NewBuffer N HN) as (b0 & Hnew & Hrep0).
  destruct (Rep_AddAll N es [] b0 HN Hrep0) as (b & HAll & Hrep).
  simpl in Hrep. pose proof (Rep_GetAll N es b HN Hrep) as Hget.
  exists b0, b. split_and!; [exact Hnew|exact HAll|exact Hget|..].
  - intros Hshort. by rewrite Hget, lastN_short.
  - intros Hlong. rewrite Hget. f_equal.
    destruct Hrep as (_ & _ & _ & [(Hlt & _)|(_ & _ & Hst)]); [lia|done].
Qed.

Lemma GetAll_returns_last_N_witness :
  0 < 2 <= Go.int_max ∧
  ∃ b0 b,
    NewBuffer 2 = Some b0 ∧
    AddAll b0 [Scenario.A; Scenario.B; Scenario.C] = Some b ∧
    GetAll b = Some [Scenario.B; Scenario.C] ∧
    (Go.len [Scenario.A; Scenario.B; Scenario.C] <= 2 →
     GetAll b = Some [Scenario.A; Scenario.B; Scenario.C]) ∧
    (2 <= Go.len [Scenario.A; Scenario.B; Scenario.C] →
     GetAll b = Some (stitched b)).
Proof.
  assert (H : 0 < 2 <= Go.int_max) by (vm_compute; split; [done|discriminate]).
  split; [exact H|].
  exact (GetAll_returns_last_N 2 [Scenario.A; Scenario.B; Scenario.C] H).
Defined.

(** The scenario of the design document: capacity 2, then A, B, C. The
    cell of A is overwritten and the cursor stands at index 1. *)
Example wrapped_buffer :
  ∃ b, Scenario.wrapped = Some b ∧
       entries b = [Scenario.C; Scenario.B] ∧ index b = 1 ∧ count b = 2 ∧
       GetAll b = Some [Scenario.B; Scenario.C].
Proof. eexists. split; [vm_compute; reflexivity|]. by vm_compute. Qed.

(** *** Filter *)

Lemma Filter_filter (b : Buffer) (all : list LogEntry) (minLevel : LogLevel) :
  GetAll b = Some all →
  Filter b minLevel
  = Some (filter (λ e, levelOrderOf minLevel <= levelOrderOf (Level e)) all).
Proof.
  intros Hall. unfold Filter. rewrite Hall. simpl. f_equal.
  rewrite (foldl_append_filter
             (λ e, levelOrderOf (Level e) >= levelOrderOf minLevel)).
  simpl. apply list_filter_iff. intros e. lia.
Qed.

Lemma levelOrderOf_known :
  levelOrderOf LogLevelDebug = 0 ∧ levelOrderOf LogLevelInfo = 1 ∧
  levelOrderOf LogLevelWarn = 2 ∧ levelOrderOf LogLevelError = 3.
Proof. by vm_compute. Qed.

Lemma levelOrderOf_unknown (l : LogLevel) :
  l ∉ knownLevels → levelOrderOf l = 0.
Proof.
  intros Hl. unfold levelOrderOf, levelOrder.
  rewrite !lookup_insert_ne, lookup_singleton_ne; [done|..];
    intros <-; apply Hl; set_solver.
Qed.

Lemma levelOrderOf_range (l : LogLevel) : 0 <= levelOrderOf l <= 3.
Proof.
  destruct (decide (l ∈ knownLevels)) as [Hin|Hout].
  - destruct levelOrderOf_known as (HD & HI & HW & HE).
    unfold knownLevels in Hin.
    repeat (apply elem_of_cons in Hin as [->|Hin]; [lia|]).
    by apply elem_of_nil in Hin.
  - rewrite levelOrderOf_unknown by done. lia.
Qed.

(** C4. [Filter] is monotonic in the floor: what passes ERROR is a
    subsequence of what passes WARN, that of what passes INFO, that of
    what passes DEBUG, which is all of [GetAll]; for every floor the
    result is, in the order of [GetAll], the entries whose rank under
    DEBUG 0 < INFO 1 < WARN 2 < ERROR 3 is at least the rank of the
    floor. *)
Theorem Filter_monotonic (b : Buffer) (all : list LogEntry) :
  GetAll b = Some all →
  (levelOrderOf LogLevelDebug = 0 ∧ levelOrderOf LogLevelInfo = 1 ∧
   levelOrderOf LogLevelWarn = 2 ∧ levelOrderOf LogLevelError = 3) ∧
  (∀ minLevel,
     Filter b minLevel
     = Some (filter (λ e, levelOrderOf minLevel <= levelOrderOf (Level e))
                    all)) ∧
  ∃ fe fw fi fd,
    Filter b LogLevelError = Some fe ∧ Filter b LogLevelWarn = Some fw ∧
    Filter b LogLevelInfo = Some fi ∧ Filter b LogLevelDebug = Some fd ∧
    fe `sublist_of` fw ∧ fw `sublist_of` fi ∧ fi `sublist_of` fd ∧
    fd = all.
Proof.
  intros Hall. split; [apply levelOrderOf_known|].
  split; [intros; by apply Filter_filter|].
  destruct levelOrderOf_known as (HD & HI & HW & HE).
  do 4 eexists. rewrite !(Filter_filter b all) by done.
  split_and!; try reflexivity.
  - apply filter_sublist_mono. intros e. lia.
  - apply filter_sublist_mono. intros e. lia.
  - apply filter_sublist_mono. intros e. lia.
  - rewrite HD. apply filter_all. intros e _. apply levelOrderOf_range.
Qed.

Example mixed_buffer : Scenario.mixed = Some Scenario.mixedBuffer.
Proof. by vm_compute. Qed.

Lemma Filter_monotonic_witness :
  let all := [Scenario.A; Scenario.T; Scenario.B; Scenario.D; Scenario.C] in
  GetAll Scenario.mixedBuffer = Some all ∧
  ∃ fe fw fi fd,
    Filter Scenario.mixedBuffer LogLevelError = Some fe ∧
    Filter Scenario.mixedBuffer LogLevelWarn = Some fw ∧
    Filter Scenario.mixedBuffer LogLevelInfo = Some fi ∧
    Filter Scenario.mixedBuffer LogLevelDebug = Some fd ∧
    fe `sublist_of` fw ∧ fw `sublist_of` fi ∧ fi `sublist_of` fd ∧
    fd = all.
Proof.
  intros all.
  assert (H : GetAll Scenario.mixedBuffer = Some all) by (by vm_compute).
  split; [exact H|].
  exact (proj2 (proj2 (Filter_monotonic Scenario.mixedBuffer all H))).
Defined.

Example Filter_mixed :
  Filter Scenario.mixedBuffer LogLevelError = Some [Scenario.A] ∧
  Filter Scenario.mixedBuffer LogLevelWarn = Some [Scenario.A; Scenario.C] ∧
  Filter Scenario.mixedBuffer LogLevelInfo
  = Some [Scenario.A; Scenario.B; Scenario.C] ∧
  Filter Scenario.mixedBuffer LogLevelDebug
  = Some [Scenario.A; Scenario.T; Scenario.B; Scenario.D; Scenario.C].
Proof. by vm_compute. Qed.

(** C10. A level that is not one of the four has rank 0, as an entry and
    as a floor: a floor that is not recognized lets every entry through,
    and an entry whose level is not recognized passes the floor DEBUG
    but none of INFO, WARN and ERROR. *)
Theorem Filter_unknown_level (b : Buffer) (all : list LogEntry) :
  GetAll b = Some all →
  (∀ l, l ∉ knownLevels → levelOrderOf l = 0) ∧
  (∀ minLevel, minLevel ∉ knownLevels → Filter b minLevel = Some all) ∧
  (∀ e, e ∈ all → Level e ∉ knownLevels →
     (∃ fd, Filter b LogLevelDebug = Some fd ∧ e ∈ fd) ∧
     (∀ minLevel,
        minLevel ∈ [LogLevelInfo; LogLevelWarn; LogLevelError] →
        ∃ f, Filter b minLevel = Some f ∧ e ∉ f)).
Proof.
  intros Hall. destruct levelOrderOf_known as (HD & HI & HW & HE).
  split; [apply levelOrderOf_unknown|]. split.
  - intros minLevel Hunk. rewrite (Filter_filter b all) by done.
    rewrite levelOrderOf_unknown by done. f_equal.
    apply filter_all. intros e _. apply levelOrderOf_range.
  - intros e He Hunk. split.
    + eexists. split; [by apply Filter_filter|].
      apply list_elem_of_filter. split; [|done].
      rewrite HD. apply levelOrderOf_range.
    + intros minLevel Hmin. eexists. split; [by apply Filter_filter|].
      rewrite list_elem_of_filter, (levelOrderOf_unknown (Level e)) by done.
      intros [Hle _].
      repeat (apply elem_of_cons in Hmin as [->|Hmin]; [lia|]).
      by apply elem_of_nil in Hmin.
Qed.

Lemma Filter_unknown_level_witness :
  let all := [Scenario.A; Scenario.T; Scenario.B; Scenario.D; Scenario.C] in
  GetAll Scenario.mixedBuffer = Some all ∧
  (Level Scenario.T ∉ knownLevels) ∧ Scenario.T ∈ all ∧
  Filter Scenario.mixedBuffer (Level Scenario.T) = Some all ∧
  (∃ fd, Filter Scenario.mixedBuffer LogLevelDebug = Some fd ∧
         Scenario.T ∈ fd) ∧
  (∃ f, Filter Scenario.mixedBuffer LogLevelInfo = Some f ∧
        Scenario.T ∉ f).
Proof.
  intros all.
  assert (H : GetAll Scenario.mixedBuffer = Some all) by (by vm_compute).
  assert (Hunk : Level Scenario.T ∉ knownLevels).
  { apply (proj1 (bool_decide_eq_true _)). vm_compute. reflexivity. }
  assert (HT : Scenario.T ∈ all) by (right; left).
  destruct (Filter_unknown_level Scenario.mixedBuffer all H)
    as (_ & Hfloor & Hentry).
  destruct (Hentry Scenario.T HT Hunk) as (Hdebug & Hstrict).
  split_and!; [done|done|done|by apply Hfloor|done|].
  apply Hstrict. left.
Defined.

(** *** Search and the line classifier *)

Section WithStrings.
Context `{GS : !Go.Strings}.

Lemma matchesTerm_spec (term : string) (e : LogEntry) :
  matchesTerm term e = true
  ↔ containsFold (Content e) term ∨ containsFold (Raw e) term.
Proof.
  unfold matchesTerm, containsFold.
  by rewrite orb_true_iff, !GoFacts.Contains_spec.
Qed.

Lemma Search_filter (b : Buffer) (all : list LogEntry) (term : string) :
  GetAll b = Some all →
  Search b term = Some (filter (λ e, matchesTerm term e = true) all).
Proof.
  intros Hall. unfold Search. rewrite Hall. simpl.
  by rewrite foldl_append_filter_bool.
Qed.

(** C8. [Search] returns, in the order of [GetAll], exactly the entries
    whose content or raw text contains the term when the case of both is
    folded; a term that occurs in neither field of any entry gives the
    empty result, and the empty term gives every entry. *)
Theorem Search_case_insensitive (b : Buffer) (all : list LogEntry)
    (term : string) :
  GetAll b = Some all →
  Search b term = Some (filter (λ e, matchesTerm term e = true) all) ∧
  (∀ e, matchesTerm term e = true
        ↔ containsFold (Content e) term ∨ containsFold (Raw e) term) ∧
  ((∀ e, e ∈ all →
      ¬ containsFold (Content e) term ∧ ¬ containsFold (Raw e) term) →
   Search b term = Some []) ∧
  Search b "" = Some all.
Proof.
  intros Hall. split; [by apply Search_filter|].
  split; [apply matchesTerm_spec|]. split.
  - intros Hnone. rewrite (Search_filter b all) by done. f_equal.
    apply filter_none. intros e He. rewrite matchesTerm_spec.
    destruct (Hnone e He). tauto.
  - rewrite (Search_filter b all) by done. f_equal.
    apply filter_all. intros e _. unfold matchesTerm.
    by rewrite Go.ToLower_empty, GoFacts.Contains_empty.
Qed.

(** Turn [H : b = true ↔ P], with [b] a literal, into [P] or [¬ P]. *)
Ltac settle H :=
  match type of H with
  | true = true ↔ ?P =>
    let HP := fresh in assert (HP : P) by (by apply H); clear H
  | false = true ↔ ?P =>
    let HP := fresh in
    assert (HP : ¬ P) by (let X := fresh in intros X; by apply H in X);
    clear H
  end.

(** Close the conjuncts once the deciding group is known. *)
Ltac finish_level :=
  split_and!;
  first
    [ by (intros; exfalso; tauto)
    | by intros
    | by repeat first [apply list_elem_of_here | apply list_elem_of_further]
    | assumption ].

Lemma ParseLevel_cases (line : string) :
  let has w := Go.Contains (Go.ToUpper line) w in
  ParseLevel line =
    if has "ERROR" || has "ERR" then LogLevelError
    else if has "WARN" || has "WARNING" then LogLevelWarn
    else if has "INFO" || has "INFORMATION" then LogLevelInfo
    else if has "DEBUG" || has "DBG" then LogLevelDebug
    else LogLevelInfo.
Proof. reflexivity. Qed.

(** C7. The level of a line is found by looking for the level words in
    the upper-cased line, ERROR first, then WARN, INFO and DEBUG; the
    first group with a word that occurs decides, a line with none of
    the words is INFO, so the level is always one of the four, and
    lines that differ in case only get the same level. *)
Theorem ParseLevel_priority (line : string) :
  let has w := Go.occursIn w (Go.ToUpper line) in
  let isError := has "ERROR" ∨ has "ERR" in
  let isWarn := has "WARN" ∨ has "WARNING" in
  let isInfo := has "INFO" ∨ has "INFORMATION" in
  let isDebug := has "DEBUG" ∨ has "DBG" in
  (isError → ParseLevel line = LogLevelError) ∧
  (¬ isError → isWarn → ParseLevel line = LogLevelWarn) ∧
  (¬ isError → ¬ isWarn → isInfo → ParseLevel line = LogLevelInfo) ∧
  (¬ isError → ¬ isWarn → ¬ isInfo → isDebug →
   ParseLevel line = LogLevelDebug) ∧
  (¬ isError → ¬ isWarn → ¬ isInfo → ¬ isDebug →
   ParseLevel line = LogLevelInfo) ∧
  ParseLevel line ∈ knownLevels ∧
  (∀ line', Go.ToUpper line' = Go.ToUpper line →
            ParseLevel line' = ParseLevel line).
Proof.
  intros has isError isWarn isInfo isDebug.
  assert (Hor : ∀ w1 w2,
    Go.Contains (Go.ToUpper line) w1 || Go.Contains (Go.ToUpper line) w2
    = true ↔ has w1 ∨ has w2).
  { intros. by rewrite orb_true_iff, !GoFacts.Contains_spec. }
  assert (Hcase : ∀ line', Go.ToUpper line' = Go.ToUpper line →
                           ParseLevel line' = ParseLevel line).
  { intros line' Heq. by rewrite !ParseLevel_cases, Heq. }
  pose proof (Hor "ERROR" "ERR") as HE.
  pose proof (Hor "WARN" "WARNING") as HW.
  pose proof (Hor "INFO" "INFORMATION") as HI.
  pose proof (Hor "DEBUG" "DBG") as HD.
  fold isError in HE. fold isWarn in HW. fold isInfo in HI.
  fold isDebug in HD. clear Hor.
  rewrite ParseLevel_cases in *. cbv zeta in *.
  unfold knownLevels.
  destruct (_ || _) in HE, Hcase |- *; settle HE; [finish_level|].
  destruct (_ || _) in HW, Hcase |- *; settle HW; [finish_level|].
  destruct (_ || _) in HI, Hcase |- *; settle HI; [finish_level|].
  destruct (_ || _) in HD, Hcase |- *; settle HD; finish_level.
Qed.

End WithStrings.

(** The scenario of the design document on ASCII text: the levels of
    the three lines. *)
Example ParseLevel_scenario :
  ParseLevel (GS := AsciiText.strings) "ERROR: disk full" = LogLevelError ∧
  ParseLevel (GS := AsciiText.strings) "INFO: started" = LogLevelInfo ∧
  ParseLevel (GS := AsciiText.strings) "WARN: retrying" = LogLevelWarn ∧
  ParseLevel (GS := AsciiText.strings) "interrupted, see debug info"
  = LogLevelError ∧
  ParseLevel (GS := AsciiText.strings) "listening on :8080" = LogLevelInfo.
Proof. by vm_compute. Qed.

Lemma Search_case_insensitive_witness :
  let all := [Scenario.A; Scenario.T; Scenario.B; Scenario.D; Scenario.C] in
  GetAll Scenario.mixedBuffer = Some all ∧
  Search (GS := AsciiText.strings) Scenario.mixedBuffer "DISK"
  = Some [Scenario.A] ∧
  Search (GS := AsciiText.strings) Scenario.mixedBuffer "" = Some all.
Proof.
  intros all.
  assert (H : GetAll Scenario.mixedBuffer = Some all) by (by vm_compute).
  destruct (Search_case_insensitive (GS := AsciiText.strings)
              Scenario.mixedBuffer all "DISK" H) as (Hfound & _ & _ & Hempty).
  split; [exact H|]. split; [|exact Hempty].
  rewrite Hfound. by vm_compute.
Defined.

(** *** Entries from JSON lines *)

Section WithEncoding.
Context `{GS : !Go.Strings} `{GE : !Go.Encoding}.

Lemma normalizeJSONFields_scenario :
  Go.time_Parse Go.RFC3339 "2024-01-01T00:00:00Z"
  = Some Scenario.newYear2024 →
  normalizeJSONFields Scenario.jsonData
  = {[ "timestamp" := Go.VTime Scenario.newYear2024;
       "message" := Go.VJSON (Go.JString "cache miss");
       "level" := Go.VJSON (Go.JString "warn");
       "msg" := Go.VJSON (Go.JString "cache miss");
       "ts" := Go.VJSON (Go.JString "2024-01-01T00:00:00Z") ]}.
Proof.
  intros Htime. unfold normalizeJSONFields.
  replace (firstField timestampFields Scenario.jsonData)
    with (Some (Go.JString "2024-01-01T00:00:00Z")) by (by vm_compute).
  unfold formats. cbn [firstParse]. rewrite Htime.
  vm_compute. reflexivity.
Qed.

(** C5, as the code has it. From the JSON line of the scenario
    [NewLogEntry] makes an entry of level WARN with content
    [cache miss] and the timestamp 2024-01-01T00:00:00Z; its metadata
    has no entry for [level], but it keeps the aliases [msg] and [ts]
    with the values of the line. *)
Theorem NewLogEntry_json_line (now : Go.Time) :
  Go.ToUpper Scenario.jsonLine
  = AsciiText.mapBytes AsciiText.upperByte Scenario.jsonLine →
  Go.TrimSpace Scenario.jsonLine = Scenario.jsonLine →
  Go.json_Unmarshal Scenario.jsonLine = Some Scenario.jsonData →
  Go.time_Parse Go.RFC3339 "2024-01-01T00:00:00Z"
  = Some Scenario.newYear2024 →
  let e := NewLogEntry now "backend" Scenario.jsonLine in
  Level e = LogLevelWarn ∧ Content e = "cache miss" ∧
  Timestamp e = Scenario.newYear2024 ∧
  Metadata e !! "level" = None ∧
  Metadata e !! "msg" = Some (Go.VJSON (Go.JString "cache miss")) ∧
  Metadata e !! "ts" = Some (Go.VJSON (Go.JString "2024-01-01T00:00:00Z")) ∧
  dom (Metadata e) = {[ "msg"; "ts" ]}.
Proof.
  intros Hupper Htrim Hjson Htime e.
  assert (Hs : ParseStructured Scenario.jsonLine
               = normalizeJSONFields Scenario.jsonData).
  { unfold ParseStructured. rewrite Htrim, Hjson.
    replace (Go.HasPrefix Scenario.jsonLine "{") with true
      by (by vm_compute).
    done. }
  rewrite normalizeJSONFields_scenario in Hs by done.
  subst e. unfold NewLogEntry. rewrite Hs. simpl.
  split.
  { rewrite ParseLevel_cases. cbv zeta. rewrite Hupper.
    vm_compute. reflexivity. }
  vm_compute. repeat split.
Qed.

End WithEncoding.

Lemma NewLogEntry_json_line_witness :
  let e := NewLogEntry (GS := AsciiText.strings) (GE := Scenario.encoding)
             0 "backend" Scenario.jsonLine in
  Level e = LogLevelWarn ∧ Content e = "cache miss" ∧
  Timestamp e = Scenario.newYear2024 ∧
  Metadata e !! "level" = None ∧
  Metadata e !! "msg" = Some (Go.VJSON (Go.JString "cache miss")) ∧
  Metadata e !! "ts" = Some (Go.VJSON (Go.JString "2024-01-01T00:00:00Z")) ∧
  dom (Metadata e) = {[ "msg"; "ts" ]}.
Proof.
  apply (NewLogEntry_json_line (GS := AsciiText.strings)
           (GE := Scenario.encoding) 0); vm_compute; reflexivity.
Defined.

(** The timestamp pattern finds the leftmost timestamp of a line. *)
Example FindString_timestamp :
  Go.FindString timestampPattern "up since 2024-01-01 10:00:00, 3 errors"
  = "2024-01-01 10:00:00" ∧
  Go.FindString timestampPattern "no timestamp here" = "".
Proof. by vm_compute. Qed.

End LogProofs.

(** ** The queue of the server *)

Module IpcProofs.
Import Ipc.

Lemma trySend_full {A : Type} (ch : Go.Chan A) (x : A) :
  Go.len (Go.chanBuf ch) = Go.chanCap ch → Go.trySend ch x = ch.
Proof. intros Hfull. unfold Go.trySend. rewrite decide_False by lia. done. Qed.

Lemma trySend_room {A : Type} (ch : Go.Chan A) (x : A) :
  Go.len (Go.chanBuf ch) < Go.chanCap ch →
  Go.chanBuf (Go.trySend ch x) = Go.chanBuf ch ++ [x] ∧
  Go.chanCap (Go.trySend ch x) = Go.chanCap ch.
Proof. intros Hroom. unfold Go.trySend. by rewrite decide_True by lia. Qed.

Lemma trySend_cap {A : Type} (ch : Go.Chan A) (x : A) :
  Go.chanCap (Go.trySend ch x) = Go.chanCap ch.
Proof. unfold Go.trySend. by case_decide. Qed.

Lemma trySend_bounded {A : Type} (ch : Go.Chan A) (x : A) :
  Go.len (Go.chanBuf ch) <= Go.chanCap ch →
  Go.len (Go.chanBuf (Go.trySend ch x)) <= Go.chanCap ch.
Proof.
  intros Hb. unfold Go.trySend. case_decide; [|done].
  unfold Go.len in *. simpl. rewrite length_app. simpl. lia.
Qed.

Lemma handleLine_full (s : Server) (line : option IPCMessage) :
  Go.len (Go.chanBuf (logChan s)) = Go.chanCap (logChan s) →
  handleLine s line = s.
Proof.
  intros Hfull. unfold handleLine.
  destruct line as [msg|]; [|done]. case_decide; [|done].
  destruct (msgLogEntry msg); [|done].
  rewrite trySend_full by done. by destruct s.
Qed.

Lemma handleLines_full (s : Server) (lines : list (option IPCMessage)) :
  Go.len (Go.chanBuf (logChan s)) = Go.chanCap (logChan s) →
  handleLines s lines = s.
Proof.
  intros Hfull. unfold handleLines.
  induction lines as [|line lines IH]; [done|].
  simpl. by rewrite handleLine_full.
Qed.

(** The capacity never changes and the queue never outgrows it. *)
Lemma handleLines_bounded (s : Server) (lines : list (option IPCMessage)) :
  Go.len (Go.chanBuf (logChan s)) <= Go.chanCap (logChan s) →
  Go.chanCap (logChan (handleLines s lines)) = Go.chanCap (logChan s) ∧
  Go.len (Go.chanBuf (logChan (handleLines s lines)))
  <= Go.chanCap (logChan s).
Proof.
  unfold handleLines. revert s.
  induction lines as [|line lines IH]; intros s Hb; [done|].
  simpl.
  assert (Hstep :
    Go.chanCap (logChan (handleLine s line)) = Go.chanCap (logChan s) ∧
    Go.len (Go.chanBuf (logChan (handleLine s line)))
    <= Go.chanCap (logChan s)).
  { unfold handleLine. destruct line as [msg|]; [|done].
    case_decide; [|done]. destruct (msgLogEntry msg); [|done]. simpl.
    split; [apply trySend_cap|by apply trySend_bounded]. }
  destruct Hstep as [Hcap Hlen].
  destruct (IH (handleLine s line)) as [Hcap' Hlen']; [by rewrite Hcap|].
  rewrite Hcap in *. done.
Qed.

(** C2. The queue that [NewServer] makes has capacity 1000. When it
    holds 1000 entries, handling one more message, whatever it is,
    leaves the server as it was: the entry that arrives is dropped and
    the queued entries stay, the oldest included. This holds for a
    whole connection as well. While there is room, the entry of a log
    message goes to the back of the queue, and the queue never holds
    more than 1000 entries. *)
Theorem full_queue_drops_arriving_entry (s : Server)
    (line : option IPCMessage) :
  Go.chanCap (logChan s) = 1000 →
  Go.len (Go.chanBuf (logChan s)) = 1000 →
  Go.chanCap (logChan NewServer) = 1000 ∧
  handleLine s line = s ∧
  (∀ conn lines, logChan (handleClient s conn lines) = logChan s) ∧
  (∀ s' entry,
     Go.chanCap (logChan s') = 1000 →
     Go.len (Go.chanBuf (logChan s')) < 1000 →
     Go.chanBuf (logChan (handleLine s' (Some (NewLogMessage entry))))
     = Go.chanBuf (logChan s') ++ [entry]) ∧
  (∀ lines,
     Go.chanCap (logChan (handleLines NewServer lines)) = 1000 ∧
     Go.len (Go.chanBuf (logChan (handleLines NewServer lines))) <= 1000).
Proof.
  intros Hcap Hfull. split; [done|].
  split; [apply handleLine_full; lia|]. split; [|split].
  - intros conn lines. unfold handleClient. simpl.
    fold (handleLines {| clients := {[conn]} ∪ clients s;
                         logChan := logChan s |} (scanned lines)).
    rewrite handleLines_full by (simpl; lia). done.
  - intros s' entry Hcap' Hroom. unfold handleLine. simpl.
    apply trySend_room. lia.
  - intros lines. apply (handleLines_bounded NewServer lines). by vm_compute.
Qed.

Lemma full_queue_drops_arriving_entry_witness :
  let arriving := Some (NewLogMessage (Scenario.ipcEntry "backend" "late")) in
  Go.len (Go.chanBuf (logChan Scenario.fullServer)) = 1000 ∧
  handleLine Scenario.fullServer arriving = Scenario.fullServer.
Proof.
  intros arriving.
  assert (Hcap : Go.chanCap (logChan Scenario.fullServer) = 1000)
    by reflexivity.
  assert (Hfull : Go.len (Go.chanBuf (logChan Scenario.fullServer)) = 1000).
  { vm_compute. reflexivity. }
  split; [exact Hfull|].
  exact (proj1 (proj2 (full_queue_drops_arriving_entry
                         Scenario.fullServer arriving Hcap Hfull))).
Defined.

End IpcProofs.

(** ** The dashboard *)

Module AppProofs.
Import App ListFacts.


Lemma bufferOK_Add (b : Log.Buffer) (e : Log.LogEntry) :
  bufferOK b → ∃ b', Log.Add b e = Some b' ∧ bufferOK b'.
Proof.
  intros (Hsz & Hlen & Hidx). unfold Log.Add.
  rewrite GoFacts.store_Some by lia. simpl.
  rewrite (GoFacts.add_small (Log.index b)) by GoFacts.int_lia.
  rewrite GoFacts.rem_pos by lia. simpl.
  eexists; split; [done|].
  pose proof (Z.mod_pos_bound (Log.index b + 1) (Log.size b) ltac:(lia)).
  unfold bufferOK, Go.len in *; simpl. rewrite length_insert. lia.
Qed.

Lemma NewPane_1000 (name : string) :
  ∃ p, Pane.NewPane name 1000 = Some p ∧ bufferOK (Pane.buffer p) ∧
       Log.count (Pane.buffer p) = 0 ∧
       Log.GetAll (Pane.buffer p) = Some [].
Proof.
  unfold Pane.NewPane, Log.NewBuffer.
  rewrite GoFacts.make_Some by GoFacts.int_lia.
  eexists. split; [reflexivity|].
  split_and!; [|reflexivity|reflexivity].
  unfold bufferOK, Go.len.
  cbn [Pane.buffer Log.size Log.entries Log.index].
  rewrite length_replicate. GoFacts.int_lia.
Qed.

Lemma panesOK_insert (m : gmap string Pane.Pane) (s : string)
    (p : Pane.Pane) :
  (∀ s' p', m !! s' = Some p' → bufferOK (Pane.buffer p')) →
  bufferOK (Pane.buffer p) →
  ∀ s' p', <[s := p]> m !! s' = Some p' → bufferOK (Pane.buffer p').
Proof.
  intros Hm Hp s' p'. rewrite lookup_insert. case_decide.
  - by intros [= <-].
  - apply Hm.
Qed.

Lemma AddEntry_OK (p : Pane.Pane) (e : Log.LogEntry) :
  bufferOK (Pane.buffer p) →
  ∃ p', Pane.AddEntry p e = Some p' ∧ bufferOK (Pane.buffer p').
Proof.
  intros Hok. destruct (bufferOK_Add _ e Hok) as (b' & Hadd & Hok').
  unfold Pane.AddEntry. rewrite Hadd. by eexists.
Qed.

(** Read a field through the setters. *)
Ltac app_simpl :=
  unfold updateLayout, set_paneOrder, set_panes;
  cbn [panes paneOrder paused].

(** One entry: the pane of its source is made if it is missing, and
    nothing else is added to the map or to the order. *)
Lemma handleLogEntry_step (a : App) (e : Ipc.LogEntry) :
  panesOK a →
  ∃ a', handleLogEntry a e = Some a' ∧ panesOK a' ∧
    paneOrder a' =
      (if decide (is_Some (panes a !! Ipc.Source e))
       then paneOrder a else paneOrder a ++ [Ipc.Source e]) ∧
    (∀ s, is_Some (panes a' !! s)
          ↔ s = Ipc.Source e ∨ is_Some (panes a !! s)).
Proof.
  intros Hok. unfold handleLogEntry.
  set (logEntry := Log.Build_LogEntry _ _ _ _ _ _).
  destruct (panes a !! Ipc.Source e) as [pane|] eqn:Hp.
  - rewrite decide_True by done. cbn [mbind option_bind].
    destruct (paused a) eqn:Hpaused.
    + exists a. split_and!; try done.
      intros s. split; [by right|]. intros [->|Hs]; [by rewrite Hp|done].
    + destruct (AddEntry_OK pane logEntry) as (p' & -> & Hok');
        [by eapply Hok|].
      cbn [mbind option_bind]. eexists. split; [done|]. app_simpl.
      split_and!; try done.
      * intros s p. app_simpl. by apply panesOK_insert.
      * intros s. app_simpl. rewrite lookup_insert_is_Some.
        split; [intros [<-|[_ Hs]]; auto|]. intros [->|Hs]; [by left|].
        destruct (decide (Ipc.Source e = s)); [by left|by right].
  - rewrite decide_False by (by intros [? ?]).
    destruct (NewPane_1000 (Ipc.Source e)) as (p & -> & Hokp & _).
    cbn [mbind option_bind]. app_simpl.
    destruct (paused a) eqn:Hpaused.
    + eexists. split; [done|]. app_simpl. split_and!; try done.
      * intros s p'. app_simpl. by apply panesOK_insert.
      * intros s. app_simpl. rewrite lookup_insert_is_Some.
        split; [intros [<-|[_ Hs]]; auto|]. intros [->|Hs]; [by left|].
        destruct (decide (Ipc.Source e = s)); [by left|by right].
    + destruct (AddEntry_OK p logEntry Hokp) as (p' & -> & Hok').
      cbn [mbind option_bind]. eexists. split; [done|]. app_simpl.
      split_and!; try done.
      * intros s p''. app_simpl.
        apply panesOK_insert; [|done]. by apply panesOK_insert.
      * intros s. app_simpl. rewrite !lookup_insert_is_Some.
        split; [intros [<-|[_ [<-|[_ Hs]]]]; auto|].
        intros [->|Hs]; [by left|].
        destruct (decide (Ipc.Source e = s)); [by left|].
        right. split; [done|]. by right.
Qed.

(** *** First-seen order *)

Lemma elem_of_firstSeen (x : string) (names : list string) :
  x ∈ firstSeen names ↔ x ∈ names.
Proof.
  induction names as [|y names IH]; [done|]. simpl.
  rewrite !elem_of_cons, list_elem_of_filter, IH.
  destruct (decide (x = y)); tauto.
Qed.

Lemma NoDup_firstSeen (names : list string) : NoDup (firstSeen names).
Proof.
  induction names as [|y names IH]; simpl; [constructor|].
  constructor; [|by apply NoDup_filter].
  rewrite list_elem_of_filter. by intros [? _].
Qed.

(** The names of [l] that are new with respect to [seen ++ [x]] are
    those that are new with respect to [seen] and differ from [x]. *)
Lemma filter_new_snoc (seen l : list string) (x : string) :
  filter (λ s, s ∉ seen ++ [x]) l
  = filter (λ s, s ∉ seen) (filter (λ s, s ≠ x) l).
Proof.
  rewrite list_filter_filter. apply list_filter_iff. intros s.
  rewrite elem_of_app, list_elem_of_singleton. tauto.
Qed.

Lemma filter_new_seen (seen l : list string) (x : string) :
  x ∈ seen →
  filter (λ s, s ∉ seen) (filter (λ s, s ≠ x) l) = filter (λ s, s ∉ seen) l.
Proof.
  intros Hx. rewrite list_filter_filter. apply list_filter_iff. intros s.
  split; [tauto|]. intros Hs. split; [done|]. by intros ->.
Qed.

Lemma handleLogEntries_order (es : list Ipc.LogEntry) (a : App) :
  panesOK a → orderOK a →
  ∃ a', handleLogEntries a es = Some a' ∧ panesOK a' ∧ orderOK a' ∧
    paneOrder a' =
      paneOrder a ++
      filter (λ s, s ∉ paneOrder a) (firstSeen (Ipc.Source <$> es)).
Proof.
  revert a. induction es as [|e es IH]; intros a Hok [Hnd Hdom].
  - exists a. simpl. by rewrite app_nil_r.
  - destruct (handleLogEntry_step a e Hok) as (a1 & Hstep & Hok1 & Ho1 & Hd1).
    assert (Hord1 : orderOK a1).
    { split.
      - rewrite Ho1. case_decide as Hin; [done|].
        apply NoDup_app. split_and!; [done| |apply NoDup_singleton].
        intros s Hs. rewrite list_elem_of_singleton. intros ->.
        by apply Hin, Hdom.
      - intros s. rewrite Hd1, Ho1, Hdom. case_decide as Hin.
        + split; [|by right]. intros [->|Hs]; [by apply Hdom|done].
        + rewrite elem_of_app, list_elem_of_singleton. tauto. }
    destruct (IH a1 Hok1 Hord1) as (a' & Hrun & Hok' & Hord' & Ho').
    exists a'. simpl. rewrite Hstep. simpl. split_and!; try done.
    rewrite Ho', Ho1. rewrite filter_cons. case_decide as Hin.
    + rewrite decide_False by (intros Hn; by apply Hn, Hdom).
      by rewrite filter_new_seen by (by apply Hdom).
    + rewrite decide_True by (intros Hn; by apply Hin, Hdom).
      by rewrite filter_new_snoc, <- app_assoc.
Qed.

(** C3. Starting with no panes, after any sequence of entries has gone
    through the entry handler the pane list is the list of the source
    names in the order in which each was first seen, whatever their
    alphabetical order; no name is in it twice, and the map holds a pane
    for exactly the names of the list, so one pane for each source. *)
Theorem panes_in_first_seen_order (a : App) (es : list Ipc.LogEntry) :
  panes a = ∅ → paneOrder a = [] →
  ∃ a', handleLogEntries a es = Some a' ∧
    paneOrder a' = firstSeen (Ipc.Source <$> es) ∧
    NoDup (paneOrder a') ∧
    (∀ s, is_Some (panes a' !! s) ↔ s ∈ paneOrder a') ∧
    (∀ s, s ∈ paneOrder a' ↔ s ∈ Ipc.Source <$> es) ∧
    size (panes a') = length (paneOrder a').
Proof.
  intros Hpanes Horder.
  destruct (handleLogEntries_order es a) as (a' & Hrun & _ & [Hnd Hdom] & Ho).
  { intros s p. by rewrite Hpanes, lookup_empty. }
  { split; [rewrite Horder; constructor|].
    intros s. rewrite Hpanes, Horder, lookup_empty.
    split; [by intros [? ?]|by intros ?%elem_of_nil]. }
  rewrite Horder in Ho. simpl in Ho.
  rewrite filter_all in Ho by (intros ? _; apply not_elem_of_nil).
  exists a'. split_and!; try done.
  - intros s. by rewrite Ho, elem_of_firstSeen.
  - rewrite <- size_dom, <- (size_list_to_set (C := gset string)) by done.
    f_equal. apply set_eq. intros s.
    by rewrite elem_of_dom, elem_of_list_to_set.
Qed.

Lemma panes_in_first_seen_order_witness :
  let es := [Scenario.ipcEntry "zeta" "up"; Scenario.ipcEntry "alpha" "up";
             Scenario.ipcEntry "zeta" "again"] in
  ∃ a', handleLogEntries NewApp es = Some a' ∧
        paneOrder a' = ["zeta"; "alpha"] ∧
        size (panes a') = 2%nat.
Proof.
  intros es.
  destruct (panes_in_first_seen_order NewApp es eq_refl eq_refl)
    as (a' & Hrun & Ho & _ & _ & _ & Hsize).
  exists a'. split; [exact Hrun|]. split; [exact Ho|].
  rewrite Hsize, Ho. reflexivity.
Defined.

(** *** Pause *)

(** C9. While the dashboard is paused the entry handler keeps every
    pane as it is, its buffer included: the entry is discarded. If the
    source of the entry has a pane the whole state stays as it is; if
    it has none, a pane with an empty buffer is made for it and its
    name is appended to the pane list. *)
Theorem paused_entry_only_creates_pane (a : App) (e : Ipc.LogEntry) :
  paused a = true →
  ∃ a', handleLogEntry a e = Some a' ∧
    (∀ s p, panes a !! s = Some p → panes a' !! s = Some p) ∧
    (is_Some (panes a !! Ipc.Source e) → a' = a) ∧
    (panes a !! Ipc.Source e = None →
     paneOrder a' = paneOrder a ++ [Ipc.Source e] ∧
     ∃ p, Pane.NewPane (Ipc.Source e) 1000 = Some p ∧
          panes a' = <[Ipc.Source e := p]> (panes a) ∧
          Log.count (Pane.buffer p) = 0 ∧
          Log.GetAll (Pane.buffer p) = Some []).
Proof.
  intros Hpaused. unfold handleLogEntry.
  destruct (panes a !! Ipc.Source e) as [pane|] eqn:Hp.
  - cbn [mbind option_bind]. rewrite Hpaused. exists a.
    split_and!; [done|done|done|]. intros H; discriminate H.
  - destruct (NewPane_1000 (Ipc.Source e)) as (p & Hnew & _ & Hcount & Hall).
    rewrite Hnew. cbn [mbind option_bind]. app_simpl. rewrite Hpaused.
    eexists. split; [done|]. app_simpl. split_and!.
    + intros s p' Hs. rewrite lookup_insert_ne; [done|]. intros <-.
      by rewrite Hp in Hs.
    + intros [? H]; discriminate H.
    + intros _. split; [done|]. by exists p.
Qed.

Lemma paused_entry_only_creates_pane_witness :
  ∃ a a',
    Scenario.pausedApp = Some a ∧ paneOrder a = ["backend"] ∧
    handleLogEntry a (Scenario.ipcEntry "worker" "started") = Some a' ∧
    paneOrder a' = ["backend"; "worker"] ∧
    (∀ s p, panes a !! s = Some p → panes a' !! s = Some p).
Proof.
  destruct Scenario.pausedApp as [a|] eqn:Ha; [|by vm_compute in Ha].
  assert (Hpaused : paused a = true).
  { vm_compute in Ha. injection Ha as <-. reflexivity. }
  assert (Horder : paneOrder a = ["backend"]).
  { vm_compute in Ha. injection Ha as <-. reflexivity. }
  assert (Hnone : panes a !! "worker" = None).
  { vm_compute in Ha. injection Ha as <-. vm_compute. reflexivity. }
  destruct (paused_entry_only_creates_pane a
              (Scenario.ipcEntry "worker" "started") Hpaused)
    as (a' & Hrun & Hkeep & _ & Hnew).
  destruct (Hnew Hnone) as (Ho & _).
  exists a, a'. split; [reflexivity|]. split; [exact Horder|].
  split; [exact Hrun|]. split; [|exact Hkeep].
  rewrite Ho, Horder. reflexivity.
Defined.

(** *** Search mode *)




End AppProofs.

(** * Further properties of the code *)

(** ** The ring buffer: Clear, Count, GetRecent, capacity *)

Module BufferProps.
Import Log ListFacts.

Lemma length_lastN {A : Type} (n : Z) (l : list A) :
  0 <= n → Go.len (lastN n l) = Z.min n (Go.len l).
Proof. intros Hn. unfold lastN, Go.len. rewrite length_drop. lia. Qed.

Lemma lastN_lastN_snoc {A : Type} (N : Z) (l : list A) (x : A) :
  0 < N →
  lastN N (l ++ [x])
  = if decide (Go.len (lastN N l) < N)
    then lastN N l ++ [x] else drop 1 (lastN N l) ++ [x].
Proof.
  intros HN. rewrite length_lastN by lia. case_decide as Hlt.
  - assert (Go.len l < N) by lia.
    rewrite !LogProofs.lastN_short; try lia; [done|].
    unfold Go.len in *. rewrite length_app. simpl. lia.
  - apply LogProofs.lastN_snoc. lia.
Qed.

(** A buffer that the methods produce has the contents [GetAll]
    returns for some history of which it keeps the last [N]. *)
Lemma reachable_GetAll (N : Z) (b : Buffer) :
  0 < N <= Go.int_max → reachable N b →
  ∃ seen, Rep N seen b ∧ GetAll b = Some (lastN N seen).
Proof.
  intros HN Hreach.
  destruct (LogProofs.reachable_Rep N b HN Hreach) as [seen Hrep].
  exists seen. split; [done|]. by apply LogProofs.Rep_GetAll.
Qed.

Lemma reachable_AddAll (N : Z) (es : list LogEntry) (b b' : Buffer) :
  reachable N b → AddAll b es = Some b' → reachable N b'.
Proof.
  revert b. induction es as [|e es IH]; intros b Hreach Hadd; simpl in Hadd.
  - by injection Hadd as <-.
  - destruct (Add b e) as [b1|] eqn:H1; [|done]. simpl in Hadd.
    apply (IH b1); [|done]. by eapply reach_add.
Qed.

(** The two buffers of the scenarios are produced by the methods. *)
Lemma reachable_wrapped (b : Buffer) :
  Scenario.wrapped = Some b → reachable 2 b.
Proof.
  unfold Scenario.wrapped. intros Hb.
  destruct (NewBuffer 2) as [b0|] eqn:H0; [|done].
  cbn [mbind option_bind] in Hb.
  eapply reachable_AddAll; [|exact Hb]. by apply reach_new.
Qed.

Lemma reachable_mixedBuffer : reachable 8 Scenario.mixedBuffer.
Proof.
  assert (Hb : Scenario.mixed = Some Scenario.mixedBuffer)
    by (vm_compute; reflexivity).
  unfold Scenario.mixed in Hb.
  destruct (NewBuffer 8) as [b0|] eqn:H0; [|done].
  cbn [mbind option_bind] in Hb.
  eapply reachable_AddAll; [|exact Hb]. by apply reach_new.
Qed.

(** X1. [Clear] forgets the history without touching the store: on a
    buffer that the methods have produced, [GetAll] is empty after
    [Clear], and entries added afterwards come back as from a new
    buffer of the same capacity, whatever the cells still hold. *)
Theorem Clear_starts_afresh (N : Z) (b : Buffer) (es : list LogEntry) :
  0 < N <= Go.int_max → reachable N b →
  entries (Clear b) = entries b ∧
  GetAll (Clear b) = Some [] ∧ Count (Clear b) = 0 ∧
  ∃ b', AddAll (Clear b) es = Some b' ∧ GetAll b' = Some (lastN N es).
Proof.
  intros HN Hreach.
  destruct (LogProofs.reachable_Rep N b HN Hreach) as [seen Hrep].
  pose proof (LogProofs.Rep_Clear N seen b ltac:(lia) Hrep) as Hclear.
  split_and!; [done|done|done|].
  destruct (LogProofs.Rep_AddAll N es [] _ HN Hclear) as (b' & Hadd & Hrep').
  exists b'. split; [done|]. by apply LogProofs.Rep_GetAll.
Qed.

Lemma Clear_starts_afresh_witness :
  ∃ b b',
    Scenario.wrapped = Some b ∧
    AddAll (Clear b) [Scenario.D] = Some b' ∧
    entries b' = [Scenario.D; Scenario.B] ∧
    GetAll b' = Some [Scenario.D].
Proof.
  destruct Scenario.wrapped as [b|] eqn:Hb; [|by vm_compute in Hb].
  assert (HN : 0 < 2 <= Go.int_max) by (by vm_compute).
  pose proof (reachable_wrapped b Hb) as Hreach.
  destruct (Clear_starts_afresh 2 b [Scenario.D] HN Hreach)
    as (_ & _ & _ & b' & Hadd & Hget).
  exists b, b'. split; [reflexivity|]. split; [exact Hadd|].
  split; [|exact Hget].
  vm_compute in Hb. injection Hb as <-.
  vm_compute in Hadd. injection Hadd as <-. reflexivity.
Defined.

(** X2. On every buffer that the methods produce, [Count] is the
    number of entries [GetAll] returns, and it never exceeds the
    capacity. *)
Theorem Count_is_length_of_GetAll (N : Z) (b : Buffer) :
  0 < N <= Go.int_max → reachable N b →
  ∃ all, GetAll b = Some all ∧ Count b = Go.len all ∧
         0 <= Count b <= N ∧ size b = N.
Proof.
  intros HN Hreach.
  destruct (reachable_GetAll N b HN Hreach) as (seen & Hrep & Hget).
  exists (lastN N seen). split; [done|].
  rewrite length_lastN by lia.
  destruct Hrep as (Hsz & _ & _ & [(Hlt & Hc & _)|(Hge & Hc & _)]);
    unfold Count, Go.len in *; lia.
Qed.

Lemma Count_is_length_of_GetAll_witness :
  0 < 8 <= Go.int_max ∧
  ∃ all, GetAll Scenario.mixedBuffer = Some all ∧
         Count Scenario.mixedBuffer = Go.len all ∧
         0 <= Count Scenario.mixedBuffer <= 8 ∧
         size Scenario.mixedBuffer = 8.
Proof.
  assert (HN : 0 < 8 <= Go.int_max) by (by vm_compute).
  split; [exact HN|].
  exact (Count_is_length_of_GetAll 8 Scenario.mixedBuffer HN
           reachable_mixedBuffer).
Defined.

(** X3. [GetRecent n] on a buffer that the methods produce: for
    [n >= 0] it returns the last [n] entries of [GetAll] (all of them
    when there are no more than [n], none for [n = 0]); for a negative
    [n] the slice expression is out of range and the call panics, even
    on an empty buffer. *)
Theorem GetRecent_suffix_or_panic (N : Z) (b : Buffer) (n : Z) :
  0 < N <= Go.int_max → reachable N b → Go.int_min <= n <= Go.int_max →
  ∃ all, GetAll b = Some all ∧
    (0 <= n → GetRecent b n = Some (lastN n all)) ∧
    (n < 0 → GetRecent b n = None).
Proof.
  intros HN Hreach Hn.
  destruct (reachable_GetAll N b HN Hreach) as (seen & _ & Hget).
  exists (lastN N seen). split; [done|].
  pose proof (length_lastN N seen ltac:(lia)) as Hlen.
  set (all := lastN N seen) in *.
  assert (0 <= Go.len all) by (unfold Go.len; lia).
  unfold GetRecent. rewrite Hget. cbn [mbind option_bind]. split.
  - intros Hpos. case_decide as Hle.
    + by rewrite LogProofs.lastN_short.
    + rewrite GoFacts.sub_small by GoFacts.int_lia.
      rewrite GoFacts.slice_from_Some by lia.
      unfold lastN, Go.len in *. do 2 f_equal. lia.
  - intros Hneg. rewrite decide_False by lia.
    unfold Go.slice_from. apply decide_False.
    destruct (decide (Go.len all - n <= Go.int_max)) as [Hsmall|Hbig].
    + rewrite GoFacts.sub_small by GoFacts.int_lia. lia.
    + unfold Go.sub, Go.wrap.
      rewrite GoFacts.int_max_eq, GoFacts.int_min_eq in *.
      change (2 ^ 63) with 9223372036854775808.
      change (2 ^ 64) with 18446744073709551616.
      replace (Go.len all - n + 9223372036854775808)
        with (Go.len all - n - 9223372036854775808
              + 1 * 18446744073709551616) by lia.
      rewrite Z.mod_add, Z.mod_small by lia. lia.
Qed.

Lemma GetRecent_suffix_or_panic_witness :
  GetRecent Scenario.mixedBuffer 2 = Some [Scenario.D; Scenario.C] ∧
  GetRecent Scenario.mixedBuffer (-1) = None.
Proof.
  assert (HN : 0 < 8 <= Go.int_max) by (by vm_compute).
  assert (H2 : Go.int_min <= 2 <= Go.int_max) by (by vm_compute).
  assert (H1 : Go.int_min <= -1 <= Go.int_max) by (by vm_compute).
  destruct (GetRecent_suffix_or_panic 8 Scenario.mixedBuffer 2 HN
              reachable_mixedBuffer H2) as (all & Hall & Hpos & _).
  destruct (GetRecent_suffix_or_panic 8 Scenario.mixedBuffer (-1) HN
              reachable_mixedBuffer H1) as (_ & _ & _ & Hneg).
  split; [|apply Hneg; lia].
  rewrite Hpos by lia. vm_compute in Hall. injection Hall as <-.
  reflexivity.
Defined.

(** X4. One [Add] on a buffer that the methods produce: while the
    buffer holds fewer than [N] entries the new entry is appended to
    what [GetAll] returns; once it holds [N], the oldest entry, and
    only that one, goes and the new entry comes last. *)
Theorem Add_evicts_oldest_when_full (N : Z) (b : Buffer) (e : LogEntry) :
  0 < N <= Go.int_max → reachable N b →
  ∃ all b',
    GetAll b = Some all ∧ Add b e = Some b' ∧
    GetAll b' = Some (if decide (Go.len all < N)
                      then all ++ [e] else drop 1 all ++ [e]).
Proof.
  intros HN Hreach.
  destruct (reachable_GetAll N b HN Hreach) as (seen & Hrep & Hget).
  destruct (LogProofs.Rep_Add N seen b e HN Hrep) as (b' & Hadd & Hrep').
  exists (lastN N seen), b'. split_and!; [done|done|].
  rewrite (LogProofs.Rep_GetAll N (seen ++ [e]) b') by done.
  by rewrite lastN_lastN_snoc by lia.
Qed.

Lemma Add_evicts_oldest_when_full_witness :
  ∃ b b',
    Scenario.wrapped = Some b ∧ GetAll b = Some [Scenario.B; Scenario.C] ∧
    Add b Scenario.D = Some b' ∧
    GetAll b' = Some [Scenario.C; Scenario.D].
Proof.
  destruct Scenario.wrapped as [b|] eqn:Hb; [|by vm_compute in Hb].
  assert (HN : 0 < 2 <= Go.int_max) by (by vm_compute).
  destruct (Add_evicts_oldest_when_full 2 b Scenario.D HN
              (reachable_wrapped b Hb)) as (all & b' & Hall & Hadd & Hget).
  exists b, b'.
  assert (Hall' : GetAll b = Some [Scenario.B; Scenario.C]).
  { vm_compute in Hb. injection Hb as <-. reflexivity. }
  split; [reflexivity|]. split; [exact Hall'|]. split; [exact Hadd|].
  rewrite Hall' in Hall. injection Hall as <-. exact Hget.
Defined.

(** X5. Capacity at the edge. A negative size makes [NewBuffer] panic.
    Size 0 gives a buffer on which [GetAll] is empty and every [Add]
    panics, since there is no cell to write. *)
Theorem capacity_zero_or_negative (e : LogEntry) :
  (∀ N, N < 0 → NewBuffer N = None) ∧
  ∃ b0, NewBuffer 0 = Some b0 ∧ GetAll b0 = Some [] ∧ Add b0 e = None.
Proof.
  split.
  - intros N HN. unfold NewBuffer, Go.make. by rewrite decide_False by lia.
  - eexists. split; [reflexivity|]. split; reflexivity.
Qed.

End BufferProps.

(** ** The server queue as a whole, and delivery to the panes *)

Module PipelineProps.
Import ListFacts.

Lemma take_take_app {A : Type} (n : nat) (l k : list A) :
  take n (take n l ++ k) = take n (l ++ k).
Proof.
  destruct (decide (length l ≤ n)%nat) as [Hle|Hgt].
  - by rewrite (take_ge l n).
  - rewrite !take_app_le; [apply take_idemp| lia |].
    rewrite length_take. lia.
Qed.

Lemma trySend_take {A : Type} (ch : Go.Chan A) (x : A) :
  Go.len (Go.chanBuf ch) <= Go.chanCap ch →
  Go.chanBuf (Go.trySend ch x)
  = take (Z.to_nat (Go.chanCap ch)) (Go.chanBuf ch ++ [x]).
Proof.
  intros Hb. unfold Go.trySend, Go.len in *. case_decide; simpl.
  - rewrite take_ge; [done|]. rewrite length_app. simpl. lia.
  - rewrite take_app_le by lia. rewrite take_ge; [done|lia].
Qed.

Lemma handleLine_queue (s : Ipc.Server) (line : option Ipc.IPCMessage) :
  Go.len (Go.chanBuf (Ipc.logChan s)) <= Go.chanCap (Ipc.logChan s) →
  Ipc.clients (Ipc.handleLine s line) = Ipc.clients s ∧
  Go.chanCap (Ipc.logChan (Ipc.handleLine s line))
  = Go.chanCap (Ipc.logChan s) ∧
  Go.chanBuf (Ipc.logChan (Ipc.handleLine s line))
  = take (Z.to_nat (Go.chanCap (Ipc.logChan s)))
         (Go.chanBuf (Ipc.logChan s) ++ Ipc.logEntriesOf [line]).
Proof.
  intros Hb. unfold Ipc.handleLine, Ipc.logEntriesOf.
  assert (Hsame : Go.chanBuf (Ipc.logChan s)
                  = take (Z.to_nat (Go.chanCap (Ipc.logChan s)))
                         (Go.chanBuf (Ipc.logChan s) ++ [])).
  { rewrite app_nil_r, take_ge; [done|]. unfold Go.len in Hb. lia. }
  destruct line as [msg|]; simpl; [|done].
  case_decide; [|done].
  destruct (Ipc.msgLogEntry msg) as [entry|]; simpl; [|done].
  split; [done|]. split; [apply IpcProofs.trySend_cap|].
  by apply trySend_take.
Qed.

Lemma handleLines_queue (msgs : list (option Ipc.IPCMessage))
    (t : Ipc.Server) :
  Go.len (Go.chanBuf (Ipc.logChan t)) <= Go.chanCap (Ipc.logChan t) →
  Ipc.clients (foldl Ipc.handleLine t msgs) = Ipc.clients t ∧
  Go.chanCap (Ipc.logChan (foldl Ipc.handleLine t msgs))
  = Go.chanCap (Ipc.logChan t) ∧
  Go.chanBuf (Ipc.logChan (foldl Ipc.handleLine t msgs))
  = take (Z.to_nat (Go.chanCap (Ipc.logChan t)))
         (Go.chanBuf (Ipc.logChan t) ++ Ipc.logEntriesOf msgs).
Proof.
  revert t. induction msgs as [|line msgs IH]; intros t Hb.
  - simpl. rewrite app_nil_r, take_ge; [done|]. unfold Go.len in Hb. lia.
  - simpl foldl.
    destruct (handleLine_queue t line Hb) as (Hcl & Hcap & Hbuf).
    destruct (IH (Ipc.handleLine t line)) as (Hcl' & Hcap' & Hbuf').
    { rewrite Hcap, Hbuf. unfold Go.len in *. rewrite length_take. lia. }
    rewrite Hcl', Hcap', Hcl, Hcap, Hbuf', Hcap, Hbuf.
    split; [done|]. split; [done|].
    rewrite take_take_app, <- app_assoc. do 2 f_equal.
    unfold Ipc.logEntriesOf. by rewrite <- omap_app.
Qed.

Lemma queue_after_connection_aux (s : Ipc.Server) (conn : Z)
    (lines : list Ipc.Line) :
  Go.len (Go.chanBuf (Ipc.logChan s)) <= Go.chanCap (Ipc.logChan s) →
  let s' := Ipc.handleClient s conn lines in
  Go.chanCap (Ipc.logChan s') = Go.chanCap (Ipc.logChan s) ∧
  Go.chanBuf (Ipc.logChan s')
  = take (Z.to_nat (Go.chanCap (Ipc.logChan s)))
         (Go.chanBuf (Ipc.logChan s) ++
          Ipc.logEntriesOf (Ipc.scanned lines)) ∧
  Ipc.clients s' = Ipc.clients s ∖ {[conn]}.
Proof.
  intros Hb s'. subst s'. unfold Ipc.handleClient.
  set (s0 := {| Ipc.clients := {[conn]} ∪ Ipc.clients s;
                Ipc.logChan := Ipc.logChan s |}).
  destruct (handleLines_queue (Ipc.scanned lines) s0 Hb)
    as (Hcl & Hcap & Hbuf).
  simpl. rewrite Hcl, Hcap, Hbuf. simpl.
  split; [done|]. split; [done|].
  apply set_eq. intros x.
  rewrite !elem_of_difference, elem_of_union, elem_of_singleton. tauto.
Qed.

(** The scanner reads every line when none is too long, and stops in
    front of the first one that is. *)
Lemma scanned_all (lines : list Ipc.Line) :
  Forall (λ l, Ipc.lineLen l < Go.MaxScanTokenSize) lines →
  Ipc.scanned lines = Ipc.lineMsg <$> lines.
Proof.
  induction 1 as [|l lines Hl _ IH]; [done|].
  simpl. rewrite decide_True by done. by rewrite IH.
Qed.

Lemma scanned_stops (before after : list Ipc.Line) (long : Ipc.Line) :
  Forall (λ l, Ipc.lineLen l < Go.MaxScanTokenSize) before →
  Go.MaxScanTokenSize <= Ipc.lineLen long →
  Ipc.scanned (before ++ long :: after) = Ipc.lineMsg <$> before.
Proof.
  intros Hbefore Hlong. induction Hbefore as [|l before Hl _ IH].
  - simpl. by rewrite decide_False by lia.
  - simpl. rewrite decide_True by done. by rewrite IH.
Qed.

(** X6. The queue after a connection has delivered its lines, with
    nothing received in between. The scanner of [handleClient] reads
    the lines up to the first one of 64 KiB or more and stops there:
    that line and every line behind it are lost, well-formed log
    messages included. Of the lines that are read, the entries of the
    well-formed log messages are queued behind what was there, in the
    order of arrival, up to the capacity; what does not fit is
    dropped. Lines that do not parse, messages of another type and log
    messages without an entry leave no trace. The connection is
    removed from the set of clients when the loop ends, the other
    clients staying. *)
Theorem queue_after_connection (s : Ipc.Server) (conn : Z)
    (lines : list Ipc.Line) :
  Go.len (Go.chanBuf (Ipc.logChan s)) <= Go.chanCap (Ipc.logChan s) →
  let s' := Ipc.handleClient s conn lines in
  Go.chanCap (Ipc.logChan s') = Go.chanCap (Ipc.logChan s) ∧
  Go.chanBuf (Ipc.logChan s')
  = take (Z.to_nat (Go.chanCap (Ipc.logChan s)))
         (Go.chanBuf (Ipc.logChan s) ++
          Ipc.logEntriesOf (Ipc.scanned lines)) ∧
  Ipc.clients s' = Ipc.clients s ∖ {[conn]} ∧
  (Forall (λ l, Ipc.lineLen l < 65536) lines →
   Ipc.scanned lines = Ipc.lineMsg <$> lines) ∧
  (∀ before long after,
     lines = before ++ long :: after →
     Forall (λ l, Ipc.lineLen l < 65536) before →
     65536 <= Ipc.lineLen long →
     Ipc.scanned lines = Ipc.lineMsg <$> before).
Proof.
  intros Hb s'.
  destruct (queue_after_connection_aux s conn lines Hb)
    as (Hcap & Hbuf & Hcl).
  do 3 (split; [done|]). split.
  - apply scanned_all.
  - intros before long after -> Hbefore Hlong. by apply scanned_stops.
Qed.

Lemma queue_after_connection_witness :
  let late := Scenario.ipcEntry "backend" "late" in
  let lost := Scenario.ipcEntry "backend" "lost" in
  let lines :=
    [ {| Ipc.lineLen := 8; Ipc.lineMsg := None |};
      {| Ipc.lineLen := 70;
         Ipc.lineMsg := Some (Ipc.NewSourceInitMessage "backend" "pipe") |};
      {| Ipc.lineLen := 150;
         Ipc.lineMsg := Some (Ipc.NewLogMessage late) |};
      {| Ipc.lineLen := 65536;
         Ipc.lineMsg := Some (Ipc.NewLogMessage lost) |};
      {| Ipc.lineLen := 150;
         Ipc.lineMsg := Some (Ipc.NewLogMessage lost) |} ] in
  Go.chanBuf (Ipc.logChan (Ipc.handleClient Ipc.NewServer 7 lines)) = [late] ∧
  Ipc.logChan (Ipc.handleClient Scenario.fullServer 7 lines)
  = Ipc.logChan Scenario.fullServer.
Proof.
  intros late lost lines.
  assert (H0 : Go.len (Go.chanBuf (Ipc.logChan Ipc.NewServer))
               <= Go.chanCap (Ipc.logChan Ipc.NewServer)) by (by vm_compute).
  destruct (queue_after_connection Ipc.NewServer 7 lines H0)
    as (_ & Hbuf & _).
  split; [rewrite Hbuf; reflexivity|]. vm_compute. reflexivity.
Defined.

(** *** From the queue to the panes *)

Lemma fromSource_snoc (s : string) (seen : list Ipc.LogEntry)
    (e : Ipc.LogEntry) :
  App.fromSource s (seen ++ [e])
  = App.fromSource s seen ++
    (if decide (Ipc.Source e = s) then [App.logEntryOf e] else []).
Proof.
  unfold App.fromSource. rewrite filter_app, fmap_app. f_equal.
  rewrite filter_cons, filter_nil. by case_decide.
Qed.

Lemma fromSource_unseen (s : string) (seen : list Ipc.LogEntry) :
  s ∉ Ipc.Source <$> seen → App.fromSource s seen = [].
Proof.
  intros Hs. unfold App.fromSource.
  rewrite filter_none; [done|]. intros e He Heq. apply Hs.
  rewrite <- Heq. by apply list_elem_of_fmap_2.
Qed.

Lemma NewPane_Rep (name : string) :
  ∃ p, Pane.NewPane name 1000 = Some p ∧ Log.Rep 1000 [] (Pane.buffer p).
Proof.
  assert (HN : 0 < 1000 <= Go.int_max) by (by vm_compute).
  destruct (LogProofs.Rep_NewBuffer 1000 HN) as (b0 & Hb0 & Hrep).
  unfold Pane.NewPane. rewrite Hb0. cbn [mbind option_bind].
  eexists. split; [reflexivity|]. exact Hrep.
Qed.

Lemma AddEntry_Rep (p : Pane.Pane) (seen : list Log.LogEntry)
    (e : Log.LogEntry) :
  Log.Rep 1000 seen (Pane.buffer p) →
  ∃ p', Pane.AddEntry p e = Some p' ∧
        Log.Rep 1000 (seen ++ [e]) (Pane.buffer p').
Proof.
  intros Hrep.
  assert (HN : 0 < 1000 <= Go.int_max) by (by vm_compute).
  destruct (LogProofs.Rep_Add 1000 seen _ e HN Hrep) as (b' & Hadd & Hrep').
  unfold Pane.AddEntry. rewrite Hadd. cbn [mbind option_bind].
  eexists. split; [reflexivity|]. exact Hrep'.
Qed.

Lemma demuxOK_insert (seen : list Ipc.LogEntry) (e : Ipc.LogEntry)
    (a a' : App.App) (p' : Pane.Pane) :
  App.demuxOK seen a →
  App.panes a' = <[Ipc.Source e := p']> (App.panes a) →
  Log.Rep 1000 (App.fromSource (Ipc.Source e) (seen ++ [e]))
          (Pane.buffer p') →
  App.demuxOK (seen ++ [e]) a'.
Proof.
  intros Hok Hpanes Hrep s. rewrite Hpanes, fmap_app, lookup_insert.
  case_decide as Heq.
  - subst s. split; [|done]. rewrite elem_of_app. right. simpl. left.
  - specialize (Hok s). destruct (App.panes a !! s) as [p|].
    + destruct Hok as [Hin Hr]. split.
      * rewrite elem_of_app. by left.
      * rewrite fromSource_snoc, decide_False, app_nil_r by done. done.
    + rewrite elem_of_app. simpl. rewrite list_elem_of_singleton.
      intros [?|?]; [done|]. by apply Heq.
Qed.

Lemma handleLogEntry_demux (seen : list Ipc.LogEntry) (a : App.App)
    (e : Ipc.LogEntry) :
  App.demuxOK seen a → App.paused a = false →
  ∃ a', App.handleLogEntry a e = Some a' ∧
        App.demuxOK (seen ++ [e]) a' ∧ App.paused a' = false.
Proof.
  intros Hok Hrun. unfold App.handleLogEntry.
  fold (App.logEntryOf e).
  pose proof (Hok (Ipc.Source e)) as Hsrc.
  destruct (App.panes a !! Ipc.Source e) as [pane|] eqn:Hp.
  - destruct Hsrc as [_ Hrep].
    destruct (AddEntry_Rep pane _ (App.logEntryOf e) Hrep)
      as (p' & Hadd & Hrep').
    cbn [mbind option_bind]. rewrite Hrun, Hadd. cbn [mbind option_bind].
    eexists. split; [reflexivity|]. split; [|done].
    eapply demuxOK_insert; [done|reflexivity|].
    by rewrite fromSource_snoc, decide_True.
  - destruct (NewPane_Rep (Ipc.Source e)) as (p & Hnew & Hrep).
    rewrite Hnew. cbn [mbind option_bind].
    unfold App.updateLayout, App.set_paneOrder, App.set_panes.
    cbn [App.paused App.panes]. rewrite Hrun.
    destruct (AddEntry_Rep p _ (App.logEntryOf e) Hrep)
      as (p' & Hadd & Hrep').
    rewrite Hadd. cbn [mbind option_bind].
    eexists. split; [reflexivity|]. split; [|done].
    eapply demuxOK_insert; [done| |].
    + cbn [App.panes]. by rewrite insert_insert_eq.
    + by rewrite fromSource_snoc, decide_True, fromSource_unseen.
Qed.

Lemma handleLogEntries_demux (es seen : list Ipc.LogEntry) (a : App.App) :
  App.demuxOK seen a → App.paused a = false →
  ∃ a', App.handleLogEntries a es = Some a' ∧
        App.demuxOK (seen ++ es) a' ∧ App.paused a' = false.
Proof.
  revert seen a. induction es as [|e es IH]; intros seen a Hok Hrun.
  - exists a. by rewrite app_nil_r.
  - destruct (handleLogEntry_demux seen a e Hok Hrun)
      as (a1 & Hstep & Hok1 & Hrun1).
    destruct (IH _ _ Hok1 Hrun1) as (a' & Hrest & Hok' & Hrun').
    exists a'. simpl. rewrite Hstep. cbn [mbind option_bind].
    by rewrite <- app_assoc in Hok'.
Qed.

(** X7. Delivery to the panes keeps the order of each source. Starting
    with no panes and not paused, after the entry handler has seen the
    entries [es], the pane of each source holds, oldest first, the last
    1000 entries of that source and no entry of another source,
    however the sources interleave; a source that sent nothing has no
    pane. *)
Theorem panes_hold_entries_of_their_source (a : App.App)
    (es : list Ipc.LogEntry) :
  App.panes a = ∅ → App.paused a = false →
  ∃ a', App.handleLogEntries a es = Some a' ∧
    ∀ s,
      (s ∈ Ipc.Source <$> es →
       ∃ p, App.panes a' !! s = Some p ∧
            Log.GetAll (Pane.buffer p)
            = Some (Log.lastN 1000 (App.fromSource s es))) ∧
      (s ∉ Ipc.Source <$> es → App.panes a' !! s = None).
Proof.
  intros Hempty Hrun.
  assert (H0 : App.demuxOK [] a).
  { intros s. rewrite Hempty, lookup_empty. apply not_elem_of_nil. }
  destruct (handleLogEntries_demux es [] a H0 Hrun) as (a' & Hall & Hok & _).
  exists a'. split; [done|]. intros s. specialize (Hok s). simpl in Hok.
  assert (HN : 0 < 1000 <= Go.int_max) by (by vm_compute).
  destruct (App.panes a' !! s) as [p|]; split; try done.
  - intros _. exists p. split; [done|].
    apply LogProofs.Rep_GetAll; [done|]. by destruct Hok.
  - intros Hnot. by destruct Hok.
Qed.

Lemma panes_hold_entries_of_their_source_witness :
  let z1 := Scenario.ipcEntry "zeta" "one" in
  let a1 := Scenario.ipcEntry "alpha" "two" in
  let z2 := Scenario.ipcEntry "zeta" "three" in
  ∃ a' p,
    App.handleLogEntries App.NewApp [z1; a1; z2] = Some a' ∧
    App.panes a' !! "zeta" = Some p ∧
    Log.GetAll (Pane.buffer p)
    = Some [App.logEntryOf z1; App.logEntryOf z2].
Proof.
  intros z1 a1 z2.
  destruct (panes_hold_entries_of_their_source App.NewApp [z1; a1; z2]
              eq_refl eq_refl) as (a' & Hrun & Hpanes).
  destruct (Hpanes "zeta") as [Hin _].
  destruct Hin as (p & Hp & Hget); [left|].
  exists a', p. split; [exact Hrun|]. split; [exact Hp|]. exact Hget.
Defined.

End PipelineProps.

(** ** Strings as byte sequences *)

Module StringFacts.

Lemma length_append (s1 s2 : string) :
  String.length (s1 +:+ s2) = (String.length s1 + String.length s2)%nat.
Proof.
  induction s1 as [|c s1 IH]; [done|].
  rewrite GoFacts.append_cons. simpl. by rewrite IH.
Qed.

Lemma substring_0_append (s1 s2 : string) :
  String.substring 0 (String.length s1) (s1 +:+ s2) = s1.
Proof.
  induction s1 as [|c s1 IH].
  - rewrite GoFacts.append_nil_l. by destruct s2.
  - rewrite GoFacts.append_cons. simpl. by rewrite IH.
Qed.

Lemma length_substring_0 (n : nat) (s : string) :
  (n ≤ String.length s)%nat → String.length (String.substring 0 n s) = n.
Proof.
  revert n. induction s as [|c s IH]; intros n Hn; simpl in Hn.
  - by replace n with 0%nat by lia.
  - destruct n as [|n]; [done|]. simpl. rewrite IH; [done|lia].
Qed.

End StringFacts.

(** ** The dashboard: indices stay in range and nothing panics *)

Module AppProps.
Import App ListFacts.

(** Unfold the setters and read the fields. *)
Ltac fields :=
  unfold updateLayout, set_panes, set_paneOrder, set_layout, set_viewMode,
    set_focusedPane, set_zoomedPane, set_searchMode, set_searchQuery,
    set_searchResults, set_filterLevel, set_followMode, set_paused,
    set_width, set_height in *;
  cbn [panes paneOrder layout viewMode focusedPane zoomedPane searchMode
       searchQuery searchResults filterLevel followMode paused width height]
    in *.

Lemma appOK_frame (n : Z) (a a' : App) :
  appOK n a →
  panes a' = panes a → paneOrder a' = paneOrder a →
  focusedPane a' = focusedPane a → zoomedPane a' = zoomedPane a →
  viewMode a' = viewMode a → searchQuery a' = searchQuery a →
  appOK n a'.
Proof.
  unfold appOK, viewOK, buffersOK, sizeOK.
  intros H -> -> -> -> -> ->. done.
Qed.

Lemma appOK_mono (n m : Z) (a : App) : n <= m → appOK n a → appOK m a.
Proof.
  intros Hnm (Hv & Hb & Hs). split; [done|]. split; [done|].
  unfold sizeOK in *. lia.
Qed.

Lemma appOK_set_focus (n v : Z) (a : App) :
  appOK n a → 0 <= v < Z.max 1 (Go.len (paneOrder a)) →
  appOK n (set_focusedPane v a).
Proof.
  intros ((Hf & Hz & Hm) & Hb & Hs) Hv.
  split; [|split]; [|done|done]. split; [|split]; fields; done.
Qed.

Lemma appOK_set_panes (n : Z) (a : App) (name : string) (p' : Pane.Pane) :
  appOK n a → Log.reachable 1000 (Pane.buffer p') →
  appOK n (set_panes (<[name := p']> (panes a)) a).
Proof.
  intros (Hv & Hb & Hs) Hp. split; [done|]. split; [|done].
  intros s p. fields. rewrite lookup_insert. case_decide.
  - by intros [= <-].
  - apply Hb.
Qed.

Lemma focus_in_range (n : Z) (a : App) :
  appOK n a → Go.len (paneOrder a) > 0 →
  ∃ name, Go.at_ (paneOrder a) (focusedPane a) = Some name.
Proof.
  intros ((Hf & _) & _) Hlen. unfold Go.at_, Go.len in *.
  rewrite decide_True by lia.
  apply lookup_lt_is_Some. lia.
Qed.

Lemma nextPane_OK (n : Z) (a : App) :
  2 * n + 2 <= Go.int_max → appOK n a → appOK n (nextPane a).
Proof.
  intros Hn Hok. unfold nextPane. case_decide as Hlen; [|done].
  apply appOK_set_focus; [done|].
  destruct Hok as ((Hf & _) & _ & Hs & _).
  rewrite GoFacts.add_small by GoFacts.int_lia.
  rewrite Z.rem_mod_nonneg by lia.
  pose proof (Z.mod_pos_bound (focusedPane a + 1) (Go.len (paneOrder a))).
  lia.
Qed.

Lemma prevPane_OK (n : Z) (a : App) :
  2 * n + 2 <= Go.int_max → appOK n a → appOK n (prevPane a).
Proof.
  intros Hn Hok. unfold prevPane. case_decide as Hlen; [|done].
  apply appOK_set_focus; [done|].
  destruct Hok as ((Hf & _) & _ & Hs & _).
  rewrite GoFacts.sub_small by GoFacts.int_lia.
  rewrite GoFacts.add_small by GoFacts.int_lia.
  rewrite Z.rem_mod_nonneg by lia.
  pose proof (Z.mod_pos_bound (focusedPane a - 1 + Go.len (paneOrder a))
                (Go.len (paneOrder a))).
  lia.
Qed.

Lemma ScrollDown_buffer (p : Pane.Pane) :
  Log.reachable 1000 (Pane.buffer p) →
  ∃ p', Pane.ScrollDown p = Some p' ∧ Pane.buffer p' = Pane.buffer p.
Proof.
  intros Hreach.
  assert (HN : 0 < 1000 <= Go.int_max) by (by vm_compute).
  destruct (LogProofs.reachable_total 1000 _ Log.zeroLogEntry HN Hreach)
    as [_ [all Hall]].
  unfold Pane.ScrollDown. rewrite Hall. cbn [mbind option_bind].
  eexists. split; [reflexivity|]. by case_decide.
Qed.

Lemma scrollDown_OK (n : Z) (a : App) :
  appOK n a → ∃ a', scrollDown a = Some a' ∧ appOK n a'.
Proof.
  intros Hok. unfold scrollDown. case_decide as Hlen; [|by exists a].
  destruct (focus_in_range n a Hok Hlen) as [name ->].
  cbn [mbind option_bind].
  destruct (panes a !! name) as [pane|] eqn:Hp; [|by exists a].
  pose proof (proj1 (proj2 Hok) _ _ Hp) as Hreach.
  destruct (ScrollDown_buffer pane Hreach) as (p' & -> & Hbuf).
  cbn [mbind option_bind]. eexists. split; [reflexivity|].
  apply appOK_set_panes; [done|]. by rewrite Hbuf.
Qed.

Lemma scrollUp_OK (n : Z) (a : App) :
  appOK n a → ∃ a', scrollUp a = Some a' ∧ appOK n a'.
Proof.
  intros Hok. unfold scrollUp. case_decide as Hlen; [|by exists a].
  destruct (focus_in_range n a Hok Hlen) as [name ->].
  cbn [mbind option_bind].
  destruct (panes a !! name) as [pane|] eqn:Hp; [|by exists a].
  pose proof (proj1 (proj2 Hok) _ _ Hp) as Hreach.
  eexists. split; [reflexivity|].
  apply appOK_set_panes; [done|]. unfold Pane.ScrollUp. by case_decide.
Qed.

Lemma clearFocusedPane_OK (n : Z) (a : App) :
  appOK n a → ∃ a', clearFocusedPane a = Some a' ∧ appOK n a'.
Proof.
  intros Hok. unfold clearFocusedPane. case_decide as Hlen; [|by exists a].
  destruct (focus_in_range n a Hok Hlen) as [name ->].
  cbn [mbind option_bind].
  destruct (panes a !! name) as [pane|] eqn:Hp; [|by exists a].
  pose proof (proj1 (proj2 Hok) _ _ Hp) as Hreach.
  eexists. split; [reflexivity|].
  apply appOK_set_panes; [done|]. by apply Log.reach_clear.
Qed.

Lemma zoom_OK (n : Z) (a : App) :
  appOK n a →
  appOK n
    (if decide (viewMode a = ViewMultiPane ∧ Go.len (paneOrder a) > 0)
     then set_zoomedPane (focusedPane a) (set_viewMode ViewZoomed a)
     else if decide (viewMode a = ViewZoomed)
          then set_viewMode ViewMultiPane a
          else a).
Proof.
  intros ((Hf & Hz & Hm) & Hb & Hs).
  case_decide as Hmulti; [|case_decide as Hzoomed]; [| |done].
  - split; [|done]. split; [|split]; fields; [done|done|]. intros _. lia.
  - split; [|done]. split; [|split]; fields; [done|done|]. done.
Qed.

Lemma digit_byte (key : string) :
  key ∈ digitKeys →
  ∃ c, Go.byte0 key = Some c ∧ 0 <= Go.byte_sub c 49 <= 8.
Proof.
  unfold digitKeys. intros H.
  repeat (apply elem_of_cons in H as [->|H];
          [eexists; split; [reflexivity|by vm_compute]|]).
  by apply elem_of_nil in H.
Qed.

Lemma digit_OK (n paneNum : Z) (a : App) :
  appOK n a → 0 <= paneNum →
  appOK n
    (if decide (paneNum < Go.len (paneOrder a))
     then updateLayout
            (set_focusedPane paneNum
               (if decide (viewMode a = ViewZoomed)
                then set_zoomedPane paneNum a else a))
     else a).
Proof.
  intros ((Hf & Hz & Hm) & Hb & Hs) Hp. case_decide as Hlt; [|done].
  split; [|by case_decide]. case_decide; split; fields; lia || (split; [lia|done]).
Qed.

Lemma startSearch_OK (n : Z) (m : SearchMode) (a : App) :
  0 <= n → appOK n a →
  appOK n (set_searchQuery "" (set_searchMode m a)).
Proof.
  intros Hn (Hv & Hb & Hs). split; [done|]. split; [done|].
  unfold sizeOK in *. fields. split; [lia|]. by vm_compute.
Qed.

(** Close a goal [∃ a', Some x = Some a' ∧ appOK n a']. *)
Ltac pure_OK tac :=
  eexists; split; [reflexivity|]; tac.

Ltac frame_OK :=
  eapply appOK_frame; [eassumption|reflexivity..].

Lemma handleCommandKey_OK (n : Z) (a : App) (key : string) :
  0 <= n → 2 * n + 2 <= Go.int_max → appOK n a →
  ∃ a', handleCommandKey a key = Some a' ∧ appOK n a'.
Proof.
  intros Hn Hbound Hok. unfold handleCommandKey.
  destruct (decide (key = "l")); [pure_OK ltac:(unfold cycleLayout; destruct (layout a); frame_OK)|].
  destruct (decide (key = "z")); [pure_OK ltac:(by apply zoom_OK)|].
  destruct (decide (key = "tab")); [pure_OK ltac:(by apply nextPane_OK)|].
  destruct (decide (key = "shift+tab")); [pure_OK ltac:(by apply prevPane_OK)|].
  destruct (decide (key = "h")).
  { pure_OK ltac:(case_decide; [by apply prevPane_OK|done]). }
  destruct (decide (key = "j")).
  { case_decide; [pure_OK ltac:(by apply nextPane_OK)|by apply scrollDown_OK]. }
  destruct (decide (key = "k")).
  { case_decide; [pure_OK ltac:(by apply prevPane_OK)|by apply scrollUp_OK]. }
  destruct (decide (key ∈ digitKeys)) as [Hdigit|_].
  { destruct (digit_byte key Hdigit) as (c & -> & Hc).
    cbn [mbind option_bind].
    exists (if decide (Go.byte_sub c 49 < Go.len (paneOrder a))
            then updateLayout
                   (set_focusedPane (Go.byte_sub c 49)
                      (if decide (viewMode a = ViewZoomed)
                       then set_zoomedPane (Go.byte_sub c 49) a else a))
            else a).
    split; [by case_decide|]. apply digit_OK; [done|lia]. }
  destruct (decide (key = "/")); [pure_OK ltac:(by apply startSearch_OK)|].
  destruct (decide (key = "ctrl+/" ∨ key = "?"));
    [pure_OK ltac:(by apply startSearch_OK)|].
  destruct (decide (key = "e")); [pure_OK frame_OK|].
  destruct (decide (key = "w")); [pure_OK frame_OK|].
  destruct (decide (key = "i")); [pure_OK frame_OK|].
  destruct (decide (key = "a")); [pure_OK frame_OK|].
  destruct (decide (key = " ")); [pure_OK frame_OK|].
  destruct (decide (key = "f")); [pure_OK frame_OK|].
  destruct (decide (key = "c")); [by apply clearFocusedPane_OK|].
  by exists a.
Qed.

Lemma performSearch_OK (n : Z) (a : App) :
  appOK n a →
  performSearch a = Some (set_searchResults [] a).
Proof.
  intros Hok. unfold performSearch. case_decide as Hlocal; [|done].
  destruct Hlocal as [_ Hlen].
  destruct (focus_in_range n a Hok Hlen) as [name Hname].
  fields. by rewrite Hname.
Qed.

Lemma handleSearchInput_OK (n : Z) (a : App) (key : string) :
  0 <= n → 2 * n + 2 <= Go.int_max → appOK n a →
  ∃ a', handleSearchInput a key = Some (a', CmdNil) ∧ appOK (n + 1) a'.
Proof.
  intros Hn Hbound Hok. unfold handleSearchInput.
  apply (appOK_mono n (n + 1)) in Hok as Hok1; [|lia].
  destruct (decide (key = "enter")).
  { rewrite (performSearch_OK n) by done. cbn [mbind option_bind].
    pure_OK frame_OK. }
  destruct (decide (key = "esc")).
  { cbn [mbind option_bind]. pure_OK ltac:(apply startSearch_OK; [lia|done]). }
  destruct Hok1 as (Hv & Hb & Hlen & Hq).
  destruct (decide (key = "backspace")).
  { case_decide as Hnonempty; [|cbn [mbind option_bind]; by exists a].
    rewrite GoFacts.sub_small by (unfold Go.strlen in *; GoFacts.int_lia).
    unfold Go.str_slice_to. rewrite decide_True by lia.
    cbn [mbind option_bind]. eexists. split; [reflexivity|].
    split; [done|]. split; [done|]. split; fields; [done|].
    unfold Go.strlen in *.
    rewrite StringFacts.length_substring_0 by lia. lia. }
  case_decide as Hone; cbn [mbind option_bind]; [|by exists a].
  eexists. split; [reflexivity|].
  split; [done|]. split; [done|]. split; fields; [done|].
  destruct Hok as (_ & _ & _ & Hq0).
  unfold Go.strlen in *. rewrite StringFacts.length_append. lia.
Qed.

Lemma handleKeyPress_OK (n : Z) (a : App) (key : string) :
  0 <= n → 2 * n + 2 <= Go.int_max → appOK n a →
  ∃ a' cmd, handleKeyPress a key = Some (a', cmd) ∧ appOK (n + 1) a'.
Proof.
  intros Hn Hbound Hok. unfold handleKeyPress.
  case_decide; [exists a, CmdQuit; split; [done|]; apply (appOK_mono n); [lia|done]|].
  case_decide.
  - destruct (handleSearchInput_OK n a key Hn Hbound Hok) as (a' & ? & ?).
    by exists a', CmdNil.
  - destruct (handleCommandKey_OK n a key Hn Hbound Hok) as (a' & -> & ?).
    exists a', CmdNil. split; [done|]. apply (appOK_mono n); [lia|done].
Qed.

Lemma handleLogEntry_OK (n : Z) (a : App) (e : Ipc.LogEntry) :
  0 <= n → appOK n a →
  ∃ a', handleLogEntry a e = Some a' ∧ appOK (n + 1) a'.
Proof.
  intros Hn Hok. unfold handleLogEntry.
  assert (HN : 0 < 1000 <= Go.int_max) by (by vm_compute).
  assert (Hadd : ∀ (p : Pane.Pane) (x : Log.LogEntry),
    Log.reachable 1000 (Pane.buffer p) →
    ∃ p', Pane.AddEntry p x = Some p' ∧ Log.reachable 1000 (Pane.buffer p')).
  { intros p x Hreach.
    destruct (LogProofs.reachable_total 1000 _ x HN Hreach) as [[b' Hb'] _].
    unfold Pane.AddEntry. rewrite Hb'. cbn [mbind option_bind].
    eexists. split; [reflexivity|]. by eapply Log.reach_add. }
  apply (appOK_mono n (n + 1)) in Hok as Hok1; [|lia].
  destruct (panes a !! Ipc.Source e) as [pane|] eqn:Hp.
  - cbn [mbind option_bind]. destruct (paused a); [by exists a|].
    destruct (Hadd pane (logEntryOf e)) as (p' & Hp' & Hreach').
    { by apply (proj1 (proj2 Hok) _ _ Hp). }
    unfold logEntryOf in Hp'. rewrite Hp'. cbn [mbind option_bind].
    eexists. split; [reflexivity|]. by apply appOK_set_panes.
  - unfold Pane.NewPane.
    destruct (Log.NewBuffer 1000) as [b0|] eqn:Hb0; [|by vm_compute in Hb0].
    cbn [mbind option_bind].
    set (p := Pane.Build_Pane _ _ _ _ _ _ _).
    assert (Hreach : Log.reachable 1000 (Pane.buffer p))
      by (by apply Log.reach_new).
    set (a1 := updateLayout _).
    assert (Hok' : appOK (n + 1) a1).
    { destruct Hok as ((Hf & Hz & Hm) & Hb & Hlen & Hq).
      subst a1. split; [|split].
      - unfold viewOK, Go.len in *. fields. rewrite length_app. simpl.
        split; [lia|]. split; [lia|]. intros _. lia.
      - intros s q. fields. rewrite lookup_insert. case_decide.
        + by intros [= <-].
        + apply Hb.
      - unfold sizeOK, Go.len in *. fields. rewrite length_app. simpl. lia. }
    destruct (paused a1) eqn:Hpaused; [by exists a1|].
    destruct (Hadd p (logEntryOf e) Hreach) as (p' & Hp' & Hreach').
    unfold logEntryOf in Hp'. rewrite Hp'. cbn [mbind option_bind].
    eexists. split; [reflexivity|]. by apply appOK_set_panes.
Qed.

Lemma Update_OK (n : Z) (a : App) (msg : Msg) :
  0 <= n → 2 * n + 2 <= Go.int_max → appOK n a →
  ∃ a' cmd, Update a msg = Some (a', cmd) ∧ appOK (n + 1) a'.
Proof.
  intros Hn Hbound Hok.
  apply (appOK_mono n (n + 1)) in Hok as Hok1; [|lia].
  destruct msg as [w h|key|e|]; simpl.
  - eexists _, _. split; [reflexivity|]. frame_OK.
  - by apply handleKeyPress_OK.
  - destruct (handleLogEntry_OK n a e Hn Hok) as (a' & -> & ?).
    by exists a', CmdNil.
  - by exists a, CmdTick.
Qed.

Lemma appOK_NewApp : appOK 0 NewApp.
Proof.
  split; [|split].
  - unfold viewOK. simpl. split; [by vm_compute|]. split; [by vm_compute|done].
  - intros s p. simpl. by rewrite lookup_empty.
  - by vm_compute.
Qed.

Lemma updates_OK (msgs : list Msg) (n : Z) (a : App) :
  0 <= n → 2 * (n + Go.len msgs) <= Go.int_max → appOK n a →
  ∃ a', updates a msgs = Some a' ∧ appOK (n + Go.len msgs) a'.
Proof.
  revert n a. unfold Go.len.
  induction msgs as [|msg msgs IH]; intros n a Hn Hbound Hok.
  - exists a. simpl. by rewrite Z.add_0_r.
  - simpl length in *.
    destruct (Update_OK n a msg Hn ltac:(lia) Hok) as (a1 & cmd & Hstep & Hok1).
    destruct (IH (n + 1) a1 ltac:(lia) ltac:(lia) Hok1) as (a' & Hrest & Hok').
    exists a'. simpl. rewrite Hstep. cbn [mbind option_bind].
    split; [done|].
    by replace (n + Z.of_nat (S (length msgs)))
         with (n + 1 + Z.of_nat (length msgs)) by lia.
Qed.

(** X9. From the initial state no sequence of messages (window sizes,
    keys, log entries, ticks) makes [Update] panic: every index into the
    pane list is in range, every buffer operation succeeds. In every
    state that is reached the focus index points at a pane whenever
    there is one, and so does the zoom index; the zoomed view is on only
    when there is a pane to show. *)
Theorem dashboard_never_panics (msgs : list Msg) :
  2 * Go.len msgs <= Go.int_max →
  ∃ a', updates NewApp msgs = Some a' ∧
    0 <= focusedPane a' < Z.max 1 (Go.len (paneOrder a')) ∧
    0 <= zoomedPane a' < Z.max 1 (Go.len (paneOrder a')) ∧
    (viewMode a' = ViewZoomed → 0 < Go.len (paneOrder a')) ∧
    (∀ s p, panes a' !! s = Some p →
            is_Some (Log.GetAll (Pane.buffer p))).
Proof.
  intros Hbound.
  destruct (updates_OK msgs 0 NewApp ltac:(lia) ltac:(lia) appOK_NewApp)
    as (a' & Hrun & (Hf & Hz & Hm) & Hb & _).
  exists a'. do 4 (split; [done|]).
  intros s p Hp.
  assert (HN : 0 < 1000 <= Go.int_max) by (by vm_compute).
  by destruct (LogProofs.reachable_total 1000 _ Log.zeroLogEntry HN
                 (Hb s p Hp)).
Qed.

Lemma dashboard_never_panics_witness :
  let msgs := [KeyMsg "z"; LogEntryMsg (Scenario.ipcEntry "zeta" "up");
               KeyMsg "k"; LogEntryMsg (Scenario.ipcEntry "alpha" "up");
               KeyMsg "tab"; KeyMsg "z"; KeyMsg "c"; KeyMsg "/";
               KeyMsg "a"; KeyMsg "backspace"; KeyMsg "enter";
               WindowSizeMsg 80 24; TickMsg; KeyMsg "9"; KeyMsg "2"] in
  2 * Go.len msgs <= Go.int_max ∧
  ∃ a', updates NewApp msgs = Some a' ∧
        focusedPane a' = 1 ∧ zoomedPane a' = 1 ∧ viewMode a' = ViewZoomed.
Proof.
  intros msgs.
  assert (Hbound : 2 * Go.len msgs <= Go.int_max) by (by vm_compute).
  split; [exact Hbound|].
  destruct (dashboard_never_panics msgs Hbound) as (a' & Hrun & _).
  exists a'. split; [exact Hrun|].
  vm_compute in Hrun. injection Hrun as <-. repeat split.
Defined.

End AppProps.

(** ** The dashboard: what the keys do *)

Module KeyProps.
Import App ListFacts.

Lemma set_focusedPane_same (a : App) (v w : Z) :
  v = focusedPane a → set_focusedPane v (set_focusedPane w a) = a.
Proof. intros ->. by destruct a. Qed.

Lemma set_searchQuery_same (a : App) (q q' : string) :
  q = searchQuery a → set_searchQuery q (set_searchQuery q' a) = a.
Proof. intros ->. by destruct a. Qed.

(** X10. Focus moves in a circle through the pane list. With [L > 0]
    panes and the focus at [i < L], [nextPane] moves it to
    [(i + 1) mod L] and [prevPane] to [(i - 1) mod L], so the last pane
    is followed by the first and the first preceded by the last, and
    each of the two undoes the other. *)
Theorem focus_moves_in_a_circle (a : App) :
  0 < Go.len (paneOrder a) → 2 * Go.len (paneOrder a) <= Go.int_max →
  0 <= focusedPane a < Go.len (paneOrder a) →
  focusedPane (nextPane a) = (focusedPane a + 1) `mod` Go.len (paneOrder a) ∧
  focusedPane (prevPane a) = (focusedPane a - 1) `mod` Go.len (paneOrder a) ∧
  prevPane (nextPane a) = a ∧ nextPane (prevPane a) = a.
Proof.
  intros Hlen Hbound Hf.
  set (L := Go.len (paneOrder a)) in *.
  assert (Hnext : nextPane a = set_focusedPane ((focusedPane a + 1) `mod` L) a).
  { unfold nextPane. fold L. rewrite decide_True by lia.
    rewrite GoFacts.add_small by GoFacts.int_lia.
    by rewrite Z.rem_mod_nonneg by lia. }
  assert (Hprev : prevPane a = set_focusedPane ((focusedPane a - 1) `mod` L) a).
  { unfold prevPane. fold L. rewrite decide_True by lia.
    rewrite GoFacts.sub_small by GoFacts.int_lia.
    rewrite GoFacts.add_small by GoFacts.int_lia.
    rewrite Z.rem_mod_nonneg by lia.
    replace (focusedPane a - 1 + L) with (focusedPane a - 1 + 1 * L) by lia.
    by rewrite Z.mod_add by lia. }
  pose proof (Z.mod_pos_bound (focusedPane a + 1) L ltac:(lia)) as Hn.
  pose proof (Z.mod_pos_bound (focusedPane a - 1) L ltac:(lia)) as Hp.
  rewrite Hnext, Hprev. split; [done|]. split; [done|]. split.
  - unfold prevPane. cbn [paneOrder set_focusedPane focusedPane]. fold L.
    rewrite decide_True by lia.
    rewrite GoFacts.sub_small by GoFacts.int_lia.
    rewrite GoFacts.add_small by GoFacts.int_lia.
    rewrite Z.rem_mod_nonneg by lia.
    apply set_focusedPane_same.
    replace ((focusedPane a + 1) `mod` L - 1 + L)
      with ((focusedPane a + 1) `mod` L + (L - 1)) by lia.
    rewrite Zplus_mod_idemp_l.
    replace (focusedPane a + 1 + (L - 1)) with (focusedPane a + 1 * L) by lia.
    rewrite Z.mod_add, Z.mod_small by lia. done.
  - unfold nextPane. cbn [paneOrder set_focusedPane focusedPane]. fold L.
    rewrite decide_True by lia.
    rewrite GoFacts.add_small by GoFacts.int_lia.
    rewrite Z.rem_mod_nonneg by lia.
    apply set_focusedPane_same.
    rewrite Zplus_mod_idemp_l.
    replace (focusedPane a - 1 + 1) with (focusedPane a) by lia.
    by rewrite Z.mod_small by lia.
Qed.

Lemma twoPanes_facts :
  ∃ a, Scenario.twoPanes = Some a ∧ paneOrder a = ["zeta"; "alpha"] ∧
       focusedPane a = 0 ∧ appOK 2 a.
Proof.
  unfold Scenario.twoPanes.
  destruct (AppProps.updates_OK
              [LogEntryMsg (Scenario.ipcEntry "zeta" "up");
               LogEntryMsg (Scenario.ipcEntry "alpha" "up")] 0 NewApp)
    as (a & Hrun & Hok); [done|by vm_compute|apply AppProps.appOK_NewApp|].
  exists a.
  assert (Hsame : handleLogEntries NewApp
                    [Scenario.ipcEntry "zeta" "up";
                     Scenario.ipcEntry "alpha" "up"] = Some a).
  { simpl in Hrun. simpl.
    destruct (handleLogEntry NewApp _) as [a1|]; [|done]. simpl in *.
    destruct (handleLogEntry a1 _) as [a2|]; [|done]. simpl in *. done. }
  split; [exact Hsame|].
  split; [|split; [|exact Hok]];
    vm_compute in Hsame; injection Hsame as <-; reflexivity.
Qed.

Lemma focus_moves_in_a_circle_witness :
  ∃ a, Scenario.twoPanes = Some a ∧
       focusedPane a = 0 ∧
       focusedPane (nextPane a) = 1 ∧ focusedPane (prevPane a) = 1 ∧
       prevPane (nextPane a) = a.
Proof.
  destruct twoPanes_facts as (a & Ha & Horder & Hfocus & _).
  exists a. split; [exact Ha|]. split; [exact Hfocus|].
  destruct (focus_moves_in_a_circle a) as (Hn & Hp & Hpn & _).
  - rewrite Horder. by vm_compute.
  - rewrite Horder. by vm_compute.
  - rewrite Horder, Hfocus. by vm_compute.
  - rewrite Hn, Hp, Horder, Hfocus. split; [reflexivity|].
    split; [reflexivity|exact Hpn].
Defined.

(** X11. Typing in search mode. A key of one byte other than [q] is
    appended to the query, and nothing else changes; backspace then
    takes it away again, so the two together leave the dashboard as it
    was. Backspace on an empty query does nothing. *)
Theorem typing_and_backspace (a : App) (key : string) :
  searchMode a ≠ SearchNone → Go.strlen key = 1 → key ≠ "q" →
  Go.strlen (searchQuery a) < Go.int_max →
  let a1 := set_searchQuery (searchQuery a +:+ key) a in
  handleKeyPress a key = Some (a1, CmdNil) ∧
  handleKeyPress a1 "backspace" = Some (a, CmdNil) ∧
  (searchQuery a = "" → handleKeyPress a "backspace" = Some (a, CmdNil)).
Proof.
  intros Hmode Hone Hq Hlen a1.
  assert (Hnames : key ≠ "ctrl+c" ∧ key ≠ "enter" ∧ key ≠ "esc"
                   ∧ key ≠ "backspace").
  { split_and!; intros ->; by vm_compute in Hone. }
  destruct Hnames as (Hc & He & Hx & Hb).
  split; [|split].
  - unfold handleKeyPress. rewrite decide_False by tauto.
    rewrite decide_True by done. unfold handleSearchInput.
    rewrite !decide_False by done. by rewrite decide_True by done.
  - unfold handleKeyPress. rewrite decide_False by (intros [?|?]; done).
    rewrite decide_True by done. unfold handleSearchInput.
    rewrite decide_False by done. rewrite decide_False by done.
    rewrite decide_True by done.
    subst a1. cbn [searchQuery set_searchQuery].
    unfold Go.strlen in *. rewrite StringFacts.length_append.
    rewrite decide_True by lia.
    rewrite GoFacts.sub_small by GoFacts.int_lia.
    unfold Go.str_slice_to, Go.strlen. rewrite StringFacts.length_append.
    rewrite decide_True by lia. cbn [mbind option_bind].
    replace (Z.to_nat (Z.of_nat (String.length (searchQuery a)
                                 + String.length key)%nat - 1))
      with (String.length (searchQuery a)) by lia.
    rewrite StringFacts.substring_0_append.
    by rewrite set_searchQuery_same.
  - intros Hempty. unfold handleKeyPress.
    rewrite decide_False by (intros [?|?]; done).
    rewrite decide_True by done. unfold handleSearchInput.
    rewrite decide_False by done. rewrite decide_False by done.
    rewrite decide_True by done. rewrite Hempty.
    by rewrite decide_False by (by vm_compute).
Qed.

Lemma typing_and_backspace_witness :
  let a := Scenario.searchingApp in
  handleKeyPress a "x" = Some (set_searchQuery "x" a, CmdNil) ∧
  handleKeyPress (set_searchQuery "x" a) "backspace" = Some (a, CmdNil).
Proof.
  intros a.
  assert (Hmode : searchMode a ≠ SearchNone) by done.
  assert (Hone : Go.strlen "x" = 1) by reflexivity.
  assert (Hq : "x" ≠ "q") by done.
  assert (Hlen : Go.strlen (searchQuery a) < Go.int_max) by (by vm_compute).
  destruct (typing_and_backspace a "x" Hmode Hone Hq Hlen) as (Ht & Hb & _).
  split; [exact Ht|exact Hb].
Defined.

(** X12. Leaving search mode. When the focus is in range, enter
    returns to normal mode with the query kept and with an empty list
    of results, whatever the panes hold: the two branches of
    [performSearch] have no body, so a search never finds anything.
    Escape returns to normal mode and empties the query. Neither
    touches the panes. *)
Theorem enter_never_finds_anything (n : Z) (a : App) :
  appOK n a → searchMode a ≠ SearchNone →
  handleKeyPress a "enter"
  = Some (set_searchMode SearchNone (set_searchResults [] a), CmdNil) ∧
  handleKeyPress a "esc"
  = Some (set_searchQuery "" (set_searchMode SearchNone a), CmdNil).
Proof.
  intros Hok Hmode. split.
  - unfold handleKeyPress. rewrite decide_False by (intros [?|?]; done).
    rewrite decide_True by done. unfold handleSearchInput.
    rewrite decide_True by done.
    by rewrite (AppProps.performSearch_OK n a Hok).
  - unfold handleKeyPress. rewrite decide_False by (intros [?|?]; done).
    rewrite decide_True by done. unfold handleSearchInput.
    rewrite decide_False by done. by rewrite decide_True by done.
Qed.

Lemma enter_never_finds_anything_witness :
  ∃ a a',
    Scenario.twoPanesSearching = Some a ∧ searchQuery a = "up" ∧
    handleKeyPress a "enter" = Some (a', CmdNil) ∧
    searchResults a' = [] ∧ searchQuery a' = "up" ∧
    searchMode a' = SearchNone.
Proof.
  destruct twoPanes_facts as (a0 & Ha0 & _ & _ & Hok0).
  unfold Scenario.twoPanesSearching. rewrite Ha0. cbn [mbind option_bind].
  set (a := set_searchQuery "up" (set_searchMode SearchLocal a0)).
  assert (Hok : appOK 2 a).
  { destruct Hok0 as (Hv & Hb & Hl & _). split; [done|]. split; [done|].
    split; [done|]. by vm_compute. }
  assert (Hmode : searchMode a ≠ SearchNone) by done.
  destruct (enter_never_finds_anything 2 a Hok Hmode) as [Henter _].
  exists a, (set_searchMode SearchNone (set_searchResults [] a)).
  split; [reflexivity|]. split; [reflexivity|]. split; [exact Henter|].
  repeat split.
Defined.

(** X13. The key [c] outside search mode empties the focused pane and
    nothing else: its buffer returns no entries and its scroll position
    is 0, every other pane, the pane list, the focus and all modes stay
    as they are. *)
Theorem clear_touches_only_the_focused_pane (a : App) (name : string)
    (pane : Pane.Pane) :
  searchMode a = SearchNone →
  Go.at_ (paneOrder a) (focusedPane a) = Some name →
  panes a !! name = Some pane →
  let a' := set_panes (<[name := Pane.Clear pane]> (panes a)) a in
  handleKeyPress a "c" = Some (a', CmdNil) ∧
  panes a' !! name = Some (Pane.Clear pane) ∧
  Log.GetAll (Pane.buffer (Pane.Clear pane)) = Some [] ∧
  Pane.scrollPos (Pane.Clear pane) = 0 ∧
  (∀ s, s ≠ name → panes a' !! s = panes a !! s).
Proof.
  intros Hmode Hname Hpane a'.
  assert (Hlen : Go.len (paneOrder a) > 0).
  { unfold Go.at_ in Hname. case_decide; [lia|done]. }
  split; [|split; [|split; [|split]]].
  - unfold handleKeyPress. rewrite decide_False by (intros [?|?]; done).
    rewrite decide_False by (by rewrite Hmode; intros ?).
    change (handleCommandKey a "c") with (clearFocusedPane a).
    unfold clearFocusedPane. rewrite decide_True by done.
    rewrite Hname. cbn [mbind option_bind]. by rewrite Hpane.
  - subst a'. cbn [panes set_panes]. apply lookup_insert_eq.
  - reflexivity.
  - reflexivity.
  - intros s Hs. subst a'. cbn [panes set_panes].
    by apply lookup_insert_ne.
Qed.

Lemma clear_touches_only_the_focused_pane_witness :
  ∃ a a' pane,
    Scenario.twoPanes = Some a ∧ panes a !! "zeta" = Some pane ∧
    handleKeyPress a "c" = Some (a', CmdNil) ∧
    panes a' !! "zeta" = Some (Pane.Clear pane) ∧
    panes a' !! "alpha" = panes a !! "alpha".
Proof.
  destruct Scenario.twoPanes as [a|] eqn:Ha; [|by vm_compute in Ha].
  assert (Hmode : searchMode a = SearchNone).
  { vm_compute in Ha. injection Ha as <-. reflexivity. }
  assert (Hname : Go.at_ (paneOrder a) (focusedPane a) = Some "zeta").
  { vm_compute in Ha. injection Ha as <-. reflexivity. }
  destruct (panes a !! "zeta") as [pane|] eqn:Hpane.
  2:{ vm_compute in Ha. injection Ha as <-. by vm_compute in Hpane. }
  destruct (clear_touches_only_the_focused_pane a "zeta" pane Hmode Hname
              Hpane) as (Hkey & Hcleared & _ & _ & Hothers).
  eexists a, _, pane. split; [reflexivity|]. split; [exact Hpane|].
  split; [exact Hkey|]. split; [exact Hcleared|]. by apply Hothers.
Defined.

End KeyProps.

(** ** From the connection to the panes *)

Module EndToEnd.

Lemma updates_LogEntryMsg (es : list Ipc.LogEntry) (a : App.App) :
  App.updates a (App.LogEntryMsg <$> es) = App.handleLogEntries a es.
Proof.
  revert a. induction es as [|e es IH]; intros a; [done|].
  simpl. destruct (App.handleLogEntry a e) as [a1|]; [|done].
  simpl. apply IH.
Qed.

(** X8. The whole path. A connection delivers [lines] to a new server
    and the dashboard then receives what is queued. The queue holds
    the first 1000 entries of the well-formed log messages among the
    lines that the scanner reads, which are the lines in front of the
    first one of 64 KiB or more; the dashboard handles them without a
    panic, and afterwards the pane of every source that got an entry
    into the queue returns from [GetAll] exactly the queued entries of
    that source, in the order in which the connection sent them. *)
Theorem queued_entries_reach_their_panes (conn : Z)
    (lines : list Ipc.Line) :
  let s' := Ipc.handleClient Ipc.NewServer conn lines in
  let queued := Go.chanBuf (Ipc.LogChannel s') in
  queued = take 1000 (Ipc.logEntriesOf (Ipc.scanned lines)) ∧
  ∃ a',
    App.updates App.NewApp (App.listenForLogs (Ipc.LogChannel s')) = Some a' ∧
    ∀ s, s ∈ Ipc.Source <$> queued →
         ∃ p, App.panes a' !! s = Some p ∧
              Log.GetAll (Pane.buffer p) = Some (App.fromSource s queued).
Proof.
  intros s' queued.
  assert (H0 : Go.len (Go.chanBuf (Ipc.logChan Ipc.NewServer))
               <= Go.chanCap (Ipc.logChan Ipc.NewServer)) by (by vm_compute).
  destruct (PipelineProps.queue_after_connection_aux Ipc.NewServer conn
              lines H0) as (_ & Hbuf & _).
  fold s' in Hbuf. change (Go.chanBuf (Ipc.logChan s')) with queued in Hbuf.
  assert (Hq : queued = take 1000 (Ipc.logEntriesOf (Ipc.scanned lines)))
    by exact Hbuf.
  split; [exact Hq|].
  unfold App.listenForLogs. fold queued. rewrite updates_LogEntryMsg.
  destruct (PipelineProps.handleLogEntries_demux queued [] App.NewApp)
    as (a' & Hrun & Hok & _); [|done|].
  { intros s. simpl. rewrite lookup_empty. apply not_elem_of_nil. }
  exists a'. split; [exact Hrun|]. intros s Hs.
  specialize (Hok s). simpl in Hok.
  destruct (App.panes a' !! s) as [p|]; [|done].
  exists p. split; [done|]. destruct Hok as [_ Hrep].
  assert (HN : 0 < 1000 <= Go.int_max) by (by vm_compute).
  rewrite (LogProofs.Rep_GetAll 1000 _ _ HN Hrep). f_equal.
  apply LogProofs.lastN_short.
  unfold App.fromSource, Go.len. rewrite length_fmap.
  pose proof (length_filter (λ e, Ipc.Source e = s) queued) as Hle.
  assert (length queued ≤ 1000)%nat by (rewrite Hq, length_take; lia).
  lia.
Qed.

End EndToEnd.

(** ** The parser: JSON lines and plain lines *)

Module ParserProps.
Import Log ListFacts.

Section WithEncoding.
Context `{GS : !Go.Strings} `{GE : !Go.Encoding}.

Lemma firstField_None (fields : list string) (data : gmap string Go.JValue)
    (field : string) :
  firstField fields data = None → field ∈ fields → data !! field = None.
Proof.
  induction fields as [|f fields IH]; intros Hnone Hin.
  - by apply elem_of_nil in Hin.
  - simpl in Hnone. destruct (data !! f) eqn:Hf; [done|].
    apply elem_of_cons in Hin as [->|Hin]; [done|by apply IH].
Qed.

(** The loop that copies the other fields keeps what the result has
    and adds every field of the input whose key is still free. *)
Lemma copy_other_fields (result : gmap string Go.Any)
    (data : gmap string Go.JValue) (k : string) :
  map_fold (λ k v (result : gmap string Go.Any),
              match result !! k with
              | Some _ => result
              | None => <[k := Go.VJSON v]> result
              end) result data !! k
  = match result !! k with
    | Some v => Some v
    | None => Go.VJSON <$> data !! k
    end.
Proof.
  revert k. apply (map_fold_weak_ind (λ r m, ∀ k,
    r !! k = match result !! k with
             | Some v => Some v
             | None => Go.VJSON <$> m !! k
             end)).
  - intros k. rewrite lookup_empty. by destruct (result !! k).
  - intros i x m r Hi IH k.
    pose proof (IH i) as Hri. rewrite Hi in Hri.
    destruct (decide (k = i)) as [->|Hne].
    + rewrite lookup_insert_eq.
      destruct (result !! i) as [v|] eqn:Hres.
      * by rewrite Hri.
      * simpl in Hri. rewrite Hri. by rewrite lookup_insert_eq.
    + rewrite (lookup_insert_ne m) by done. rewrite <- IH.
      destruct (r !! i); [done|]. by rewrite lookup_insert_ne.
Qed.

(** The loop of [NewLogEntry] that fills the metadata. *)
Lemma metadata_fields (structured : gmap string Go.Any) (k : string) :
  map_fold (λ k v (metadata : gmap string Go.Any),
              if decide (k ≠ "timestamp" ∧ k ≠ "message" ∧ k ≠ "level")
              then <[k := v]> metadata
              else metadata) ∅ structured !! k
  = if decide (k ≠ "timestamp" ∧ k ≠ "message" ∧ k ≠ "level")
    then structured !! k else None.
Proof.
  revert k. apply (map_fold_weak_ind (λ r m, ∀ k,
    r !! k = if decide (k ≠ "timestamp" ∧ k ≠ "message" ∧ k ≠ "level")
             then m !! k else None)).
  - intros k. rewrite !lookup_empty. by case_decide.
  - intros i x m r Hi IH k.
    destruct (decide (k = i)) as [->|Hne].
    + rewrite lookup_insert_eq. case_decide.
      * by rewrite lookup_insert_eq.
      * rewrite IH. by rewrite decide_False.
    + rewrite (lookup_insert_ne m) by done. rewrite <- IH.
      case_decide; [|done]. by rewrite lookup_insert_ne.
Qed.

Lemma canonical_iff (k : string) :
  k ≠ "timestamp" ∧ k ≠ "message" ∧ k ≠ "level" ↔ k ∉ canonicalKeys.
Proof.
  unfold canonicalKeys. rewrite !not_elem_of_cons.
  split; [|tauto]. intros (? & ? & ?). split_and!; try done.
  apply not_elem_of_nil.
Qed.

Lemma normalizeJSONFields_lookup (data : gmap string Go.JValue)
    (k : string) :
  normalizeJSONFields data !! k
  = if decide (k = "timestamp") then
      match parsedTimestamp data with
      | Some ts => Some (Go.VTime ts)
      | None => Go.VJSON <$> data !! "timestamp"
      end
    else if decide (k = "message")
    then Go.VJSON <$> firstField messageFields data
    else if decide (k = "level")
    then Go.VJSON <$> firstField levelFields data
    else Go.VJSON <$> data !! k.
Proof.
  unfold normalizeJSONFields. rewrite copy_other_fields.
  set (r1 := match firstField timestampFields data with
             | Some (Go.JString timeStr) =>
               match firstParse formats timeStr with
               | Some ts => <["timestamp" := Go.VTime ts]> ∅
               | None => ∅
               end
             | _ => ∅
             end : gmap string Go.Any).
  assert (H1 : ∀ k', r1 !! k'
    = if decide (k' = "timestamp")
      then Go.VTime <$> parsedTimestamp data else None).
  { intros k'. subst r1. unfold parsedTimestamp.
    destruct (firstField timestampFields data) as [[| | |timeStr| |]|];
      try (rewrite lookup_empty; by case_decide).
    destruct (firstParse formats timeStr) as [ts|];
      [|rewrite lookup_empty; by case_decide].
    case_decide as Hk.
    - subst k'. by rewrite lookup_insert_eq.
    - rewrite lookup_insert_ne by done. apply lookup_empty. }
  clearbody r1.
  assert (Hm : firstField messageFields data = None →
               data !! "message" = None).
  { intros Hnone. apply (firstField_None messageFields); [done|]. left. }
  assert (Hl : firstField levelFields data = None →
               data !! "level" = None).
  { intros Hnone. apply (firstField_None levelFields); [done|]. left. }
  destruct (decide (k = "timestamp")) as [->|Ht].
  { destruct (firstField messageFields data), (firstField levelFields data);
      rewrite ?lookup_insert_ne by done; rewrite H1, decide_True by done;
      by destruct (parsedTimestamp data). }
  destruct (decide (k = "message")) as [->|Hmsg].
  { destruct (firstField messageFields data) eqn:Hfm,
             (firstField levelFields data);
      rewrite ?(lookup_insert_ne _ "level") by done;
      rewrite ?lookup_insert_eq; try done;
      rewrite H1, decide_False by done; by rewrite Hm. }
  destruct (decide (k = "level")) as [->|Hlvl].
  { destruct (firstField messageFields data),
             (firstField levelFields data) eqn:Hfl;
      rewrite ?lookup_insert_eq; try done;
      rewrite ?(lookup_insert_ne _ "message") by done;
      rewrite H1, decide_False by done; by rewrite Hl. }
  destruct (firstField messageFields data), (firstField levelFields data);
    rewrite ?lookup_insert_ne by done; rewrite H1;
    by rewrite decide_False by done.
Qed.

(** X14. [normalizeJSONFields] loses no field of the input. Under a key
    other than [timestamp], [message] and [level] the result has
    exactly the value of the input, the aliases [msg], [ts] and the
    like included. Under [message] and [level] it has the value of the
    first alias that is present, in the order of the alias lists; under
    [timestamp] the parsed time of the first timestamp alias, or else
    the unparsed value of the key [timestamp] itself. *)
Theorem normalizeJSONFields_keeps_every_field (data : gmap string Go.JValue) :
  (∀ k, k ∉ canonicalKeys →
        normalizeJSONFields data !! k = Go.VJSON <$> data !! k) ∧
  (∀ k, is_Some (data !! k) → is_Some (normalizeJSONFields data !! k)) ∧
  normalizeJSONFields data !! "message"
  = Go.VJSON <$> firstField messageFields data ∧
  normalizeJSONFields data !! "level"
  = Go.VJSON <$> firstField levelFields data ∧
  normalizeJSONFields data !! "timestamp"
  = match parsedTimestamp data with
    | Some ts => Some (Go.VTime ts)
    | None => Go.VJSON <$> data !! "timestamp"
    end.
Proof.
  assert (Hother : ∀ k, k ∉ canonicalKeys →
    normalizeJSONFields data !! k = Go.VJSON <$> data !! k).
  { intros k Hk. apply canonical_iff in Hk as (? & ? & ?).
    rewrite normalizeJSONFields_lookup. by rewrite !decide_False by done. }
  split; [exact Hother|]. split; [|by rewrite !normalizeJSONFields_lookup].
  intros k [v Hv]. rewrite normalizeJSONFields_lookup.
  destruct (decide (k = "timestamp")) as [->|?].
  { rewrite Hv. by destruct (parsedTimestamp data). }
  destruct (decide (k = "message")) as [->|?].
  { destruct (firstField messageFields data) eqn:Hf; [done|].
    rewrite (firstField_None messageFields data "message") in Hv;
      [done|done|left]. }
  destruct (decide (k = "level")) as [->|?].
  { destruct (firstField levelFields data) eqn:Hf; [done|].
    rewrite (firstField_None levelFields data "level") in Hv;
      [done|done|left]. }
  by rewrite Hv.
Qed.

Lemma ParseStructured_json (line : string) (data : gmap string Go.JValue) :
  Go.HasPrefix (Go.TrimSpace line) "{" = true →
  Go.json_Unmarshal line = Some data →
  ParseStructured line = normalizeJSONFields data.
Proof. intros Hp Hj. unfold ParseStructured. by rewrite Hp, Hj. Qed.

Lemma ParseStructured_plain (line : string) (k : string) :
  Go.HasPrefix (Go.TrimSpace line) "{" = false
  ∨ Go.json_Unmarshal line = None →
  ParseStructured line !! k
  = if decide (k = "timestamp")
    then Go.VTime <$> scannedTimestamp line else None.
Proof.
  intros Hplain.
  assert (Hfb : ParseStructured line
    = (if decide (Go.FindString timestampPattern line ≠ "") then
         match Go.time_Parse "2006-01-02 15:04:05"
                 (Go.FindString timestampPattern line) with
         | Some ts => <["timestamp" := Go.VTime ts]> ∅
         | None =>
           match Go.time_Parse "2006-01-02T15:04:05"
                   (Go.FindString timestampPattern line) with
           | Some ts => <["timestamp" := Go.VTime ts]> ∅
           | None => ∅
           end
         end
       else ∅)).
  { unfold ParseStructured. destruct Hplain as [-> | Hj]; [done|].
    rewrite Hj. by destruct (Go.HasPrefix _ _). }
  rewrite Hfb. unfold scannedTimestamp. cbn [firstParse].
  destruct (decide (Go.FindString timestampPattern line ≠ ""));
    [|rewrite lookup_empty; by case_decide].
  destruct (Go.time_Parse "2006-01-02 15:04:05" _) as [ts|].
  { case_decide as Hk; [subst k; by rewrite lookup_insert_eq|].
    rewrite lookup_insert_ne by done. apply lookup_empty. }
  destruct (Go.time_Parse "2006-01-02T15:04:05" _) as [ts|].
  { case_decide as Hk; [subst k; by rewrite lookup_insert_eq|].
    rewrite lookup_insert_ne by done. apply lookup_empty. }
  rewrite lookup_empty. by case_decide.
Qed.

(** X15. An entry made from a line that parses as a JSON object. The
    raw text is the line; the level comes from the scan of the raw
    line, not from a level field; the content is the first message
    alias when it is a string, else the line; the timestamp is the
    parsed first timestamp alias, else the current time. The metadata
    has every field of the object except those whose key is literally
    [timestamp], [message] or [level]: the aliases that were used for
    the content and the timestamp are kept. *)
Theorem NewLogEntry_of_json_line (now : Go.Time) (source line : string)
    (data : gmap string Go.JValue) :
  Go.HasPrefix (Go.TrimSpace line) "{" = true →
  Go.json_Unmarshal line = Some data →
  let e := NewLogEntry now source line in
  Source e = source ∧ Raw e = line ∧ Level e = ParseLevel line ∧
  Content e = match firstField messageFields data with
              | Some (Go.JString msg) => msg
              | _ => line
              end ∧
  Timestamp e = default now (parsedTimestamp data) ∧
  ∀ k, Metadata e !! k
       = if decide (k ∈ canonicalKeys) then None
         else Go.VJSON <$> data !! k.
Proof.
  intros Hp Hj e. subst e. unfold NewLogEntry.
  rewrite (ParseStructured_json line data Hp Hj).
  cbn [Source Raw Level Content Timestamp Metadata].
  split; [done|]. split; [done|]. split; [done|].
  rewrite !normalizeJSONFields_lookup.
  rewrite (decide_True (P := "timestamp" = "timestamp")) by done.
  rewrite (decide_False (P := "message" = "timestamp")) by done.
  rewrite (decide_True (P := "message" = "message")) by done.
  split; [|split].
  - by destruct (firstField messageFields data) as [[| | | | |]|].
  - destruct (parsedTimestamp data) as [ts|] eqn:Hts; [done|]. simpl.
    unfold parsedTimestamp in Hts.
    destruct (data !! "timestamp") as [v|] eqn:Hv; [|done]. done.
  - intros k. rewrite metadata_fields.
    destruct (decide (k ∈ canonicalKeys)) as [Hin|Hout].
    + rewrite decide_False; [done|]. by rewrite canonical_iff; intros ?.
    + rewrite decide_True by (by apply canonical_iff).
      apply canonical_iff in Hout as (? & ? & ?).
      rewrite normalizeJSONFields_lookup. by rewrite !decide_False by done.
Qed.

(** X16. An entry made from a line that is not a JSON object (it does
    not start with a brace after trimming, or it does not parse). The
    content and the raw text are the line, there is no metadata, and
    the timestamp is the leftmost timestamp-shaped text of the line
    when it parses, else the current time. *)
Theorem NewLogEntry_of_plain_line (now : Go.Time) (source line : string) :
  Go.HasPrefix (Go.TrimSpace line) "{" = false
  ∨ Go.json_Unmarshal line = None →
  NewLogEntry now source line
  = {| Timestamp := default now (scannedTimestamp line);
       Source := source; Level := ParseLevel line;
       Content := line; Raw := line; Metadata := ∅ |}.
Proof.
  intros Hplain. unfold NewLogEntry.
  rewrite !(ParseStructured_plain line) by done.
  rewrite decide_True by done. rewrite decide_False by done.
  f_equal.
  - by destruct (scannedTimestamp line).
  - apply map_eq. intros k. rewrite metadata_fields, lookup_empty.
    case_decide as Hk; [|done].
    rewrite ParseStructured_plain by done.
    by rewrite decide_False by tauto.
Qed.

End WithEncoding.

Lemma NewLogEntry_of_json_line_witness :
  let e := NewLogEntry (GS := AsciiText.strings) (GE := Scenario.encoding)
             0 "backend" Scenario.jsonLine in
  Level e = LogLevelWarn ∧ Content e = "cache miss" ∧
  Timestamp e = Scenario.newYear2024 ∧
  Metadata e !! "level" = None ∧
  Metadata e !! "msg" = Some (Go.VJSON (Go.JString "cache miss")).
Proof.
  intros e.
  destruct (NewLogEntry_of_json_line (GS := AsciiText.strings)
              (GE := Scenario.encoding) 0 "backend" Scenario.jsonLine
              Scenario.jsonData)
    as (_ & _ & Hlevel & Hcontent & Htime & Hmeta);
    [vm_compute; reflexivity|vm_compute; reflexivity|].
  fold e in Hlevel, Hcontent, Htime, Hmeta.
  split; [rewrite Hlevel; vm_compute; reflexivity|].
  split; [rewrite Hcontent; vm_compute; reflexivity|].
  split; [rewrite Htime; vm_compute; reflexivity|].
  split; rewrite Hmeta; vm_compute; reflexivity.
Defined.

Lemma NewLogEntry_of_plain_line_witness :
  let line := "ERROR: disk full" in
  NewLogEntry (GS := AsciiText.strings) (GE := Scenario.encoding)
    5 "backend" line
  = {| Timestamp := 5; Source := "backend"; Level := LogLevelError;
       Content := line; Raw := line; Metadata := ∅ |}.
Proof.
  intros line.
  rewrite (NewLogEntry_of_plain_line (GS := AsciiText.strings)
             (GE := Scenario.encoding) 5 "backend" line)
    by (left; vm_compute; reflexivity).
  vm_compute. reflexivity.
Defined.

End ParserProps.

(** ** Panes: what Render does *)

Module PaneProps.
Import ListFacts.

Lemma Filter_reachable (N : Z) (b : Log.Buffer) (lvl : Log.LogLevel) :
  0 < N <= Go.int_max → Log.reachable N b →
  ∃ filtered, Log.Filter b lvl = Some filtered ∧ 0 <= Go.len filtered <= N.
Proof.
  intros HN Hreach.
  destruct (BufferProps.reachable_GetAll N b HN Hreach) as (seen & _ & Hget).
  rewrite (LogProofs.Filter_filter b _ lvl Hget).
  eexists. split; [reflexivity|].
  pose proof (BufferProps.length_lastN N seen ltac:(lia)) as Hlen.
  pose proof (length_filter
    (λ e, Log.levelOrderOf lvl <= Log.levelOrderOf (Log.Level e))
    (Log.lastN N seen)) as Hle.
  unfold Go.len in *. lia.
Qed.

Section WithText.
Context `{GT : !Go.Text}.


Lemma formatLogEntry_wide (entry : Log.LogEntry) (maxWidth : Z) :
  3 <= maxWidth <= Go.int_max →
  is_Some (Pane.formatLogEntry entry maxWidth).
Proof.
  intros Hw. unfold Pane.formatLogEntry.
  set (levelStr := Go.style_Render _ _).
  set (line := _ +:+ _).
  case_decide as Hlong; [|by eexists].
  rewrite (GoFacts.sub_small maxWidth 3) by GoFacts.int_lia.
  unfold Go.str_slice_to. rewrite decide_True by lia. by eexists.
Qed.

Lemma format_all_wide (visible : list Log.LogEntry) (width : Z) :
  7 <= width <= Go.int_max →
  is_Some (mapM (λ entry, Pane.formatLogEntry entry (Go.sub width 4))
                visible).
Proof.
  intros Hw. apply mapM_is_Some_2, Forall_forall. intros entry _.
  simpl. rewrite (GoFacts.sub_small width 4) by GoFacts.int_lia.
  apply formatLogEntry_wide. GoFacts.int_lia.
Qed.


(** The window of [Render]: the slice expression is in range whenever
    the position is not negative, and the window is not empty when the
    position is inside the list. *)
Lemma visible_entries (entries : list Log.LogEntry) (pos rows : Z) :
  0 <= pos →
  ∃ visible,
    (if decide (Go.len entries > 0) then
       let start := pos in
       let end_ := Go.add start rows in
       let end_ :=
         if decide (end_ > Go.len entries) then Go.len entries else end_ in
       if decide (start < end_) then Go.slice entries start end_
       else Some []
     else Some []) = Some visible ∧
    (entries = [] → visible = []) ∧
    (pos < Go.len entries → 1 <= rows → pos + rows <= Go.int_max →
     visible ≠ []).
Proof.
  intros Hpos. cbv zeta.
  case_decide as Hlen.
  2:{ exists []. split; [done|]. split; [done|]. intros. lia. }
  assert (Hne : entries ≠ []) by (intros ->; unfold Go.len in Hlen; simpl in Hlen; lia).
  set (end_ := if decide (Go.add pos rows > Go.len entries) then _ else _).
  assert (Hend : end_ <= Go.len entries) by (subst end_; case_decide; lia).
  case_decide as Hlt.
  - unfold Go.slice. rewrite decide_True by lia.
    eexists. split; [reflexivity|]. split; [done|].
    intros Hin Hrows Hsum Hnil.
    apply (f_equal length) in Hnil.
    rewrite length_take, length_drop in Hnil. simpl in Hnil.
    unfold Go.len in *. lia.
  - exists []. split; [done|]. split; [done|].
    intros Hin Hrows Hsum. exfalso. apply Hlt. subst end_.
    rewrite GoFacts.add_small by GoFacts.int_lia.
    destruct (decide (pos + rows > Go.len entries)); lia.
Qed.

(** [Render] on a buffer that the methods have produced, step by step:
    the filter returns, the window is cut out of the filtered entries
    without a panic, and what is left is the formatting of the entries
    of the window. *)
Lemma Render_shape (N : Z) (p : Pane.Pane) (width height : Z)
    (focused followMode : bool) (lvl : Log.LogLevel) :
  0 < N <= Go.int_max → Log.reachable N (Pane.buffer p) →
  ∃ filtered visible pos,
    Log.Filter (Pane.buffer p) lvl = Some filtered ∧
    Pane.Render p width height focused lvl followMode
    = (mapM (λ entry, Pane.formatLogEntry entry (Go.sub width 4)) visible
       ≫= λ _,
       Some {| Pane.name := Pane.name p; Pane.buffer := Pane.buffer p;
               Pane.scrollPos := pos; Pane.width := width;
               Pane.height := height; Pane.focused := focused;
               Pane.lastSearch := Pane.lastSearch p |}) ∧
    0 <= pos ∧ (filtered = [] → visible = []) ∧
    (Go.int_min + 2 <= height <= Go.int_max →
     let rows := Z.max 1 (height - 2) in
     (filtered ≠ [] → visible ≠ []) ∧
     (followMode = true → Go.len filtered > rows →
      pos = Go.len filtered - rows) ∧
     (filtered ≠ [] → pos <= Z.max 0 (Go.len filtered - rows)) ∧
     (filtered = [] → pos = Z.max 0 (Pane.scrollPos p))).
Proof.
  intros HN Hreach.
  destruct (Filter_reachable N _ lvl HN Hreach) as (filtered & HF & Hlen).
  exists filtered. unfold Pane.Render. rewrite HF. cbn [mbind option_bind].
  cbv zeta.
  set (rows0 := if decide (Go.sub height 2 < 1) then 1 else Go.sub height 2).
  match goal with
  | |- context [Go.slice filtered ?pos _] => set (POS := pos)
  end.
  assert (Hpos : 0 <= POS).
  { subst POS. destruct followMode; simpl;
      repeat case_bool_decide; repeat case_decide; lia. }
  destruct (visible_entries filtered POS rows0 Hpos)
    as (visible & Hvis & Hnil & Hne).
  cbv zeta in Hvis. rewrite Hvis.
  exists visible, POS. split; [done|]. split; [done|].
  split; [done|]. split; [done|].
  intros Hh. set (rows := Z.max 1 (height - 2)).
  assert (Hrows : rows0 = rows).
  { subst rows0 rows. rewrite (GoFacts.sub_small height 2) by GoFacts.int_lia.
    destruct (decide (height - 2 < 1)); lia. }
  assert (Hr : 1 <= rows <= Go.int_max) by (subst rows; GoFacts.int_lia).
  assert (Hz : filtered = [] → Go.len filtered = 0) by (by intros ->).
  assert (Hposlen : filtered ≠ [] → Go.len filtered > 0).
  { unfold Go.len. destruct filtered; [done|]. simpl. lia. }
  assert (Hfacts :
    (followMode = true → Go.len filtered > rows →
     POS = Go.len filtered - rows) ∧
    (filtered ≠ [] → POS <= Z.max 0 (Go.len filtered - rows)) ∧
    (filtered = [] → POS = Z.max 0 (Pane.scrollPos p))).
  { subst POS. rewrite Hrows.
    rewrite !(GoFacts.sub_small (Go.len filtered) rows) by GoFacts.int_lia.
    clear Hvis Hne Hnil Hpos.
    destruct followMode; simpl; repeat case_bool_decide; repeat case_decide;
      split_and!; intros;
      repeat match goal with
             | H : filtered ≠ [] |- _ => apply Hposlen in H
             | H : filtered = [] |- _ => apply Hz in H
             end;
      first [lia | done]. }
  destruct Hfacts as (Hfollow & Hmax & Hkeep).
  split; [|done].
  intros Hfne. rewrite Hrows in Hne. apply Hne; [|lia|].
  - specialize (Hmax Hfne). specialize (Hposlen Hfne). lia.
  - specialize (Hmax Hfne). GoFacts.int_lia.
Qed.

Lemma Render_fields (N : Z) (p : Pane.Pane) (width height : Z)
    (focused followMode : bool) (lvl : Log.LogLevel) :
  0 < N <= Go.int_max → Log.reachable N (Pane.buffer p) →
  7 <= width <= Go.int_max →
  ∃ p', Pane.Render p width height focused lvl followMode = Some p' ∧
        Pane.name p' = Pane.name p ∧ Pane.buffer p' = Pane.buffer p ∧
        Pane.width p' = width ∧ Pane.height p' = height ∧
        Pane.focused p' = focused.
Proof.
  intros HN Hreach Hw.
  destruct (Render_shape N p width height focused followMode lvl HN Hreach)
    as (filtered & visible & pos & _ & HR & _).
  destruct (format_all_wide visible width Hw) as [lines Hlines].
  rewrite HR, Hlines. cbn [mbind option_bind].
  eexists. split; [reflexivity|]. done.
Qed.


End WithText.



End PaneProps.
(** ** The layouts: how the area is shared among the panes *)

Module LayoutProps.
Import App.

Lemma sum_replicate (k : nat) (x : Z) :
  foldr Z.add 0 (replicate k x) = Z.of_nat k * x.
Proof. induction k as [|k IH]; simpl; [done|]. rewrite IH. lia. Qed.

Lemma sum_app (l k : list Z) :
  foldr Z.add 0 (l ++ k) = foldr Z.add 0 l + foldr Z.add 0 k.
Proof. induction l as [|x l IH]; simpl; [done|]. rewrite IH. lia. Qed.

(** A list whose first [r] elements are [x] and whose other elements
    are [y]. *)
Lemma two_blocks (l : list Z) (r : nat) (x y : Z) :
  (r ≤ length l)%nat →
  (∀ (k : nat) z, l !! k = Some z → z = if decide (k < r)%nat then x else y) →
  l = replicate r x ++ replicate (length l - r) y.
Proof.
  intros Hr Hl. apply list_eq_same_length with (length l); [|done|].
  { rewrite length_app, !length_replicate. lia. }
  intros k z z' Hk Hz Hz'. rewrite (Hl k z Hz).
  case_decide.
  - rewrite lookup_app_l in Hz' by (rewrite length_replicate; lia).
    apply lookup_replicate in Hz'. by destruct Hz'.
  - rewrite lookup_app_r in Hz' by (rewrite length_replicate; lia).
    apply lookup_replicate in Hz'. by destruct Hz'.
Qed.

Section WithText.
Context `{GT : !Go.Text}.

(** The loop renders every pane of the list once, with the dimensions
    of its index, and leaves the rest of the state alone, when every
    pane gets 7 columns or more. *)
Lemma renderEach_spec (dims : Z → Z * Z) (names : list string) :
  (∀ i, 0 <= i → 7 <= (dims i).1 <= Go.int_max) →
  ∀ (a : App) (i : Z),
    0 <= i → NoDup names →
    (∀ s, s ∈ names →
          ∃ p, panes a !! s = Some p ∧ Log.reachable 1000 (Pane.buffer p)) →
    ∃ a', renderEach a dims i names = Some a' ∧
      a' = set_panes (panes a') a ∧
      (∀ s, s ∉ names → panes a' !! s = panes a !! s) ∧
      (∀ (k : nat) s, names !! k = Some s →
         ∃ p p', panes a !! s = Some p ∧ panes a' !! s = Some p' ∧
           Pane.name p' = Pane.name p ∧ Pane.buffer p' = Pane.buffer p ∧
           Pane.width p' = (dims (i + Z.of_nat k)).1 ∧
           Pane.height p' = (dims (i + Z.of_nat k)).2 ∧
           Pane.focused p' = bool_decide (i + Z.of_nat k = focusedPane a)).
Proof.
  intros Hdims.
  assert (HN : 0 < 1000 <= Go.int_max) by (by vm_compute).
  induction names as [|s names IH]; intros a i Hi Hnd Hpanes.
  - exists a. split; [done|]. split; [by destruct a|]. split; [done|].
    intros k s Hk. by rewrite lookup_nil in Hk.
  - apply NoDup_cons in Hnd as [Hs Hnd].
    destruct (Hpanes s) as (p & Hp & Hreach); [by left|].
    destruct (PaneProps.Render_fields 1000 p (dims i).1 (dims i).2
                (bool_decide (i = focusedPane a)) (followMode a)
                (filterLevel a) HN Hreach (Hdims i Hi))
      as (p1 & HR & Hname & Hbuf & Hw & Hh & Hf).
    set (a1 := set_panes (<[s := p1]> (panes a)) a).
    destruct (IH a1 (i + 1) ltac:(lia) Hnd)
      as (a' & Hrun & Hframe & Hout & Hin).
    { intros s' Hs'. destruct (Hpanes s') as (p' & Hp' & Hr'); [by right|].
      exists p'. split; [|done]. subst a1. simpl.
      rewrite lookup_insert_ne; [done|]. by intros ->. }
    exists a'. split.
    { simpl. rewrite Hp. cbn [mbind option_bind]. rewrite HR.
      cbn [mbind option_bind]. exact Hrun. }
    split; [by rewrite Hframe|]. split.
    { intros s' Hs'. rewrite not_elem_of_cons in Hs'. destruct Hs' as [Hne Hs'].
      rewrite (Hout s' Hs'). subst a1. simpl. by rewrite lookup_insert_ne. }
    intros [|k] s' Hk; simpl in Hk.
    + injection Hk as <-. exists p, p1. split; [done|]. split.
      { rewrite (Hout s Hs). subst a1. simpl. by rewrite lookup_insert_eq. }
      rewrite Z.add_0_r. done.
    + destruct (Hin k s' Hk) as (q & q' & Hq & Hq' & Hrest).
      exists q, q'. split.
      { subst a1. simpl in Hq. rewrite lookup_insert_ne in Hq; [done|].
        intros ->. apply Hs. by eapply list_elem_of_lookup_2. }
      split; [done|].
      replace (i + Z.of_nat (S k)) with (i + 1 + Z.of_nat k) by lia.
      exact Hrest.
Qed.

(** The loop on the whole pane list of a dashboard whose list and map
    of panes agree. *)
Lemma layout_panes (a : App) (dims : Z → Z * Z) :
  (∀ i, 0 <= i → 7 <= (dims i).1 <= Go.int_max) →
  orderOK a → buffersOK a →
  ∃ a' ps ps',
    renderEach a dims 0 (paneOrder a) = Some a' ∧
    a' = set_panes (panes a') a ∧ orderOK a' ∧ buffersOK a' ∧
    orderedPanes a = Some ps ∧ orderedPanes a' = Some ps' ∧
    length ps' = length (paneOrder a) ∧
    ∀ (k : nat) p', ps' !! k = Some p' →
      ∃ p, ps !! k = Some p ∧
        Pane.name p' = Pane.name p ∧ Pane.buffer p' = Pane.buffer p ∧
        Pane.width p' = (dims (Z.of_nat k)).1 ∧
        Pane.height p' = (dims (Z.of_nat k)).2 ∧
        Pane.focused p' = bool_decide (Z.of_nat k = focusedPane a).
Proof.
  intros Hdims [Hnd Hdom] Hbuf.
  destruct (renderEach_spec dims (paneOrder a) Hdims a 0 ltac:(lia) Hnd)
    as (a' & Hrun & Hframe & Hout & Hin).
  { intros s Hs. apply Hdom in Hs as [p Hp]. exists p. split; [done|].
    by apply (Hbuf s p). }
  assert (Hord : paneOrder a' = paneOrder a) by (by rewrite Hframe).
  destruct (mapM_is_Some_2 (λ s, panes a !! s) (paneOrder a)) as [ps Hps].
  { apply Forall_forall. intros s Hs. by apply Hdom. }
  destruct (mapM_is_Some_2 (λ s, panes a' !! s) (paneOrder a)) as [ps' Hps'].
  { apply Forall_lookup_2. intros k s Hk.
    destruct (Hin k s Hk) as (p & p' & _ & Hp' & _). by exists p'. }
  exists a', ps, ps'. split; [exact Hrun|]. split; [exact Hframe|].
  split.
  { split; [by rewrite Hord|]. intros s. rewrite Hord, <- Hdom.
    destruct (decide (s ∈ paneOrder a)) as [Hs|Hs].
    - pose proof Hs as Hs'. apply list_elem_of_lookup_1 in Hs' as [k Hk].
      destruct (Hin k s Hk) as (p & p' & Hp & Hp' & _).
      rewrite Hp, Hp'. split; eauto.
    - by rewrite (Hout s Hs). }
  split.
  { intros s p' Hp'. destruct (decide (s ∈ paneOrder a)) as [Hs|Hs].
    - apply list_elem_of_lookup_1 in Hs as [k Hk].
      destruct (Hin k s Hk) as (p & p'' & Hp & Hp'' & _ & Hb & _).
      rewrite Hp' in Hp''. injection Hp'' as <-. rewrite Hb.
      by apply (Hbuf s p).
    - rewrite (Hout s Hs) in Hp'. by apply (Hbuf s p'). }
  unfold orderedPanes. rewrite Hord. split; [exact Hps|]. split; [exact Hps'|].
  split; [symmetry; by eapply length_mapM|].
  intros k p' Hk.
  apply mapM_Some_1 in Hps, Hps'.
  destruct (Forall2_lookup_r _ _ _ _ _ Hps' Hk) as (s & Hs & Hp').
  destruct (Forall2_lookup_l _ _ _ _ _ Hps Hs) as (p & Hpk & Hp).
  destruct (Hin k s Hs) as (q & q' & Hq & Hq' & Hrest).
  simpl in Hp', Hp. rewrite Hp' in Hq'. injection Hq' as <-.
  rewrite Hp in Hq. injection Hq as <-.
  exists p. split; [exact Hpk|]. by rewrite Z.add_0_l in Hrest.
Qed.

(** The shares that both layouts work out for a total of rows or
    columns: the quotient for every pane, and one more for the first
    panes, as many as the remainder. *)
Lemma shared_out (total : Z) (l : list Z) :
  0 <= total <= Go.int_max → l ≠ [] →
  (∀ (k : nat) z, l !! k = Some z →
     z = if decide (Z.of_nat k < Z.rem total (Go.len l))
         then Go.add (Z.quot total (Go.len l)) 1
         else Z.quot total (Go.len l)) →
  l = replicate (Z.to_nat (Z.rem total (Go.len l)))
                (Z.quot total (Go.len l) + 1) ++
      replicate (length l - Z.to_nat (Z.rem total (Go.len l)))
                (Z.quot total (Go.len l)) ∧
  foldr Z.add 0 l = total.
Proof.
  intros Ht Hne Hl.
  assert (Hn : 0 < Go.len l).
  { unfold Go.len. destruct l; [done|]. simpl. lia. }
  pose proof (Z.rem_bound_pos total (Go.len l) ltac:(lia) Hn) as Hr.
  pose proof (Z.quot_rem' total (Go.len l)) as Hqr.
  pose proof (Z.quot_pos total (Go.len l) ltac:(lia) Hn) as Hq.
  set (q := Z.quot total (Go.len l)) in *.
  set (r := Z.rem total (Go.len l)) in *.
  assert (Hblocks : l = replicate (Z.to_nat r) (q + 1) ++
                        replicate (length l - Z.to_nat r) q).
  { apply two_blocks; [unfold Go.len in *; lia|].
    intros k z Hk. rewrite (Hl k z Hk).
    repeat case_decide; try lia.
    apply GoFacts.add_small. split; [GoFacts.int_lia|]. nia. }
  split; [exact Hblocks|].
  rewrite Hblocks, sum_app, !sum_replicate.
  rewrite Nat2Z.inj_sub by (unfold Go.len in *; lia).
  rewrite Z2Nat.id by lia. fold (Go.len l). lia.
Qed.

(** What both layouts have in common once the loop has run: the
    buffers stay and the focus mark follows the focus index. *)
Lemma layout_rest (a : App) (dims : Z → Z * Z)
    (ps ps' : list Pane.Pane) :
  length ps = length ps' →
  (∀ (k : nat) p', ps' !! k = Some p' →
     ∃ p, ps !! k = Some p ∧
       Pane.name p' = Pane.name p ∧ Pane.buffer p' = Pane.buffer p ∧
       Pane.width p' = (dims (Z.of_nat k)).1 ∧
       Pane.height p' = (dims (Z.of_nat k)).2 ∧
       Pane.focused p' = bool_decide (Z.of_nat k = focusedPane a)) →
  Pane.buffer <$> ps' = Pane.buffer <$> ps ∧
  ∀ (k : nat) p', ps' !! k = Some p' →
    Pane.focused p' = bool_decide (Z.of_nat k = focusedPane a).
Proof.
  intros Hlen Hall. split.
  - apply list_eq_same_length with (length ps').
    + by rewrite length_fmap.
    + by rewrite length_fmap.
    + intros k b b' _ Hb1 Hb2. rewrite list_lookup_fmap in Hb1, Hb2.
      destruct (ps' !! k) as [p'|] eqn:Hp'; [|done].
      destruct (Hall k p' Hp') as (p & Hp & _ & Hbuffer & _).
      rewrite Hp in Hb2. simpl in *. congruence.
  - intros k p' Hp'.
    by destruct (Hall k p' Hp') as (p & _ & _ & _ & _ & _ & Hfocus).
Qed.

(** The dashboard of the scenario with two sources. *)
Lemma twoPanes_layout :
  ∃ a, Scenario.twoPanes = Some a ∧ paneOrder a = ["zeta"; "alpha"] ∧
       focusedPane a = 0 ∧ orderOK a ∧ buffersOK a.
Proof.
  destruct KeyProps.twoPanes_facts
    as (a & Ha & Horder & Hfocus & _ & Hbuf & _).
  destruct (AppProofs.handleLogEntries_order
              [Scenario.ipcEntry "zeta" "up"; Scenario.ipcEntry "alpha" "up"]
              NewApp)
    as (a0 & Ha0 & _ & Hord & _).
  { intros s p. simpl. by rewrite lookup_empty. }
  { split; [constructor|]. intros s. simpl. rewrite lookup_empty.
    split; [by intros [? ?]|by intros ?%elem_of_nil]. }
  unfold Scenario.twoPanes in Ha. rewrite Ha in Ha0. injection Ha0 as <-.
  by exists a.
Qed.

(** X18. The horizontal layout shares the rows of the area among the
    panes: on a dashboard whose pane list and map of panes agree, with
    at least one pane, a window of 7 columns or more and a height that
    is not negative, every pane is rendered (the call does not panic:
    at 7 columns [formatLogEntry] can cut every line), each with the
    full width; the first panes, as many as the remainder of the height by the number
    of panes, get one row more than the quotient and the others the
    quotient, so the heights add up to the height of the area. The
    focus mark goes to the pane at the focus index and to no other, and
    no buffer changes. *)
Theorem horizontal_layout_fills_the_height (a : App) (height : Z) :
  orderOK a → buffersOK a → paneOrder a ≠ [] →
  7 <= width a <= Go.int_max →
  0 <= height <= Go.int_max →
  let n := length (paneOrder a) in
  let q := Z.quot height (Z.of_nat n) in
  let r := Z.to_nat (Z.rem height (Z.of_nat n)) in
  ∃ a' ps ps',
    renderHorizontalLayout a height = Some a' ∧
    a' = set_panes (panes a') a ∧ orderOK a' ∧ buffersOK a' ∧
    orderedPanes a = Some ps ∧ orderedPanes a' = Some ps' ∧
    Pane.height <$> ps' = replicate r (q + 1) ++ replicate (n - r) q ∧
    foldr Z.add 0 (Pane.height <$> ps') = height ∧
    Forall (λ p', Pane.width p' = width a) ps' ∧
    Pane.buffer <$> ps' = Pane.buffer <$> ps ∧
    ∀ (k : nat) p', ps' !! k = Some p' →
      Pane.focused p' = bool_decide (Z.of_nat k = focusedPane a).
Proof.
  intros Hord Hbuf Hne Hwide Hh n q r.
  unfold renderHorizontalLayout.
  rewrite decide_False by (unfold Go.len; destruct (paneOrder a); done).
  cbv zeta.
  match goal with
  | |- context [renderEach a ?dims 0 _] =>
    set (d := dims);
    destruct (layout_panes a d ltac:(by intros i _) Hord Hbuf)
      as (a' & ps & ps' & Hrun & Hframe & Ho' & Hb' & Hps & Hps' & Hlen & Hall)
  end.
  exists a', ps, ps'. do 6 (split; [done|]).
  assert (Hlen' : Go.len (Pane.height <$> ps') = Z.of_nat n).
  { unfold Go.len. by rewrite length_fmap, Hlen. }
  destruct (shared_out height (Pane.height <$> ps') Hh) as [Hblocks Hsum].
  { intros H. apply fmap_nil_inv in H. subst ps'. by destruct (paneOrder a). }
  { intros k z Hk. rewrite list_lookup_fmap in Hk.
    destruct (ps' !! k) as [p'|] eqn:Hp'; [|done]. injection Hk as <-.
    destruct (Hall k p' Hp') as (p & _ & _ & _ & _ & Hheight & _).
    rewrite Hheight, Hlen'. reflexivity. }
  rewrite Hlen', length_fmap, Hlen in Hblocks.
  split; [exact Hblocks|]. split; [exact Hsum|]. split.
  { apply Forall_lookup_2. intros k p' Hp'.
    by destruct (Hall k p' Hp') as (p & _ & _ & _ & Hwidth & _). }
  apply (layout_rest a d ps ps'); [|exact Hall].
  apply mapM_Some_1, Forall2_length in Hps. by rewrite <- Hps.
Qed.

(** X19. The vertical layout shares the columns of the window among
    the panes in the same way: on a dashboard whose pane list and map
    of panes agree, with at least one pane and a window of 7 columns or
    more for each pane, every pane is rendered (the call does not
    panic) with the full height of the area; the first panes, as many as the remainder of the width by the
    number of panes, get one column more than the quotient and the
    others the quotient, so the widths add up to the width of the
    window. The focus mark goes to the pane at the focus index and no
    buffer changes. *)
Theorem vertical_layout_fills_the_width (a : App) (height : Z) :
  orderOK a → buffersOK a → paneOrder a ≠ [] →
  7 * Go.len (paneOrder a) <= width a <= Go.int_max →
  let n := length (paneOrder a) in
  let q := Z.quot (width a) (Z.of_nat n) in
  let r := Z.to_nat (Z.rem (width a) (Z.of_nat n)) in
  ∃ a' ps ps',
    renderVerticalLayout a height = Some a' ∧
    a' = set_panes (panes a') a ∧ orderOK a' ∧ buffersOK a' ∧
    orderedPanes a = Some ps ∧ orderedPanes a' = Some ps' ∧
    Pane.width <$> ps' = replicate r (q + 1) ++ replicate (n - r) q ∧
    foldr Z.add 0 (Pane.width <$> ps') = width a ∧
    Forall (λ p', Pane.height p' = height) ps' ∧
    Pane.buffer <$> ps' = Pane.buffer <$> ps ∧
    ∀ (k : nat) p', ps' !! k = Some p' →
      Pane.focused p' = bool_decide (Z.of_nat k = focusedPane a).
Proof.
  intros Hord Hbuf Hne Hwide n q r.
  assert (Hn : 0 < Go.len (paneOrder a)).
  { unfold Go.len. destruct (paneOrder a); [done|]. simpl. lia. }
  assert (Hw : 0 <= width a <= Go.int_max) by lia.
  assert (Hshare : ∀ i, 0 <= i →
    7 <= (if decide (i < Z.rem (width a) (Go.len (paneOrder a)))
          then Go.add (Z.quot (width a) (Go.len (paneOrder a))) 1
          else Z.quot (width a) (Go.len (paneOrder a))) <= Go.int_max).
  { intros i Hi.
    pose proof (Z.rem_bound_pos (width a) (Go.len (paneOrder a))
                  ltac:(lia) Hn) as Hr.
    pose proof (Z.quot_rem' (width a) (Go.len (paneOrder a))) as Hqr.
    pose proof (Z.quot_le_lower_bound (width a) (Go.len (paneOrder a)) 7
                  Hn ltac:(lia)) as Hq.
    case_decide.
    - rewrite GoFacts.add_small; [nia|].
      split; [GoFacts.int_lia|nia].
    - nia. }
  unfold renderVerticalLayout.
  rewrite decide_False by lia.
  cbv zeta.
  match goal with
  | |- context [renderEach a ?dims 0 _] =>
    set (d := dims);
    destruct (layout_panes a d Hshare Hord Hbuf)
      as (a' & ps & ps' & Hrun & Hframe & Ho' & Hb' & Hps & Hps' & Hlen & Hall)
  end.
  exists a', ps, ps'. do 6 (split; [done|]).
  assert (Hlen' : Go.len (Pane.width <$> ps') = Z.of_nat n).
  { unfold Go.len. by rewrite length_fmap, Hlen. }
  destruct (shared_out (width a) (Pane.width <$> ps') Hw) as [Hblocks Hsum].
  { intros H. apply fmap_nil_inv in H. subst ps'. by destruct (paneOrder a). }
  { intros k z Hk. rewrite list_lookup_fmap in Hk.
    destruct (ps' !! k) as [p'|] eqn:Hp'; [|done]. injection Hk as <-.
    destruct (Hall k p' Hp') as (p & _ & _ & _ & Hwidth & _).
    rewrite Hwidth, Hlen'. reflexivity. }
  rewrite Hlen', length_fmap, Hlen in Hblocks.
  split; [exact Hblocks|]. split; [exact Hsum|]. split.
  { apply Forall_lookup_2. intros k p' Hp'.
    by destruct (Hall k p' Hp') as (p & _ & _ & _ & _ & Hheight & _). }
  apply (layout_rest a d ps ps'); [|exact Hall].
  apply mapM_Some_1, Forall2_length in Hps. by rewrite <- Hps.
Qed.

End WithText.

Lemma horizontal_layout_fills_the_height_witness :
  ∃ a a' ps',
    Scenario.twoPanes = Some a ∧
    renderHorizontalLayout (GT := AsciiText.text) (set_width 80 a) 7
    = Some a' ∧
    orderedPanes a' = Some ps' ∧
    Pane.height <$> ps' = [4; 3] ∧ Pane.focused <$> ps' = [true; false].
Proof.
  destruct twoPanes_layout as (a & Ha & Horder & Hfocus & Hord & Hbuf).
  assert (Hne : paneOrder (set_width 80 a) ≠ []) by (simpl; by rewrite Horder).
  assert (Hwide : 7 <= width (set_width 80 a) <= Go.int_max)
    by (by vm_compute).
  assert (Hh : 0 <= 7 <= Go.int_max) by (by vm_compute).
  destruct (horizontal_layout_fills_the_height (GT := AsciiText.text)
              (set_width 80 a) 7 Hord Hbuf Hne Hwide Hh)
    as (a' & ps & ps' & Hrun & _ & _ & _ & _ & Hps' & Hheights & _ & _ & _
        & Hfoc).
  exists a, a', ps'. split; [exact Ha|]. split; [exact Hrun|].
  split; [exact Hps'|]. simpl in Hheights. rewrite Horder in Hheights.
  split; [exact Hheights|].
  destruct ps' as [|p1 [|p2 [|p3 ps']]]; try discriminate Hheights.
  simpl. rewrite (Hfoc 0%nat p1 eq_refl), (Hfoc 1%nat p2 eq_refl).
  simpl. rewrite Hfocus.
  reflexivity.
Defined.

Lemma vertical_layout_fills_the_width_witness :
  ∃ a a' ps',
    Scenario.twoPanes = Some a ∧
    renderVerticalLayout (GT := AsciiText.text) (set_width 81 a) 20
    = Some a' ∧
    orderedPanes a' = Some ps' ∧
    Pane.width <$> ps' = [41; 40] ∧ Pane.height <$> ps' = [20; 20].
Proof.
  destruct twoPanes_layout as (a & Ha & Horder & Hfocus & Hord & Hbuf).
  assert (Hne : paneOrder (set_width 81 a) ≠ []) by (simpl; by rewrite Horder).
  assert (Hw : 7 * Go.len (paneOrder (set_width 81 a))
               <= width (set_width 81 a) <= Go.int_max).
  { simpl. rewrite Horder. by vm_compute. }
  destruct (vertical_layout_fills_the_width (GT := AsciiText.text)
              (set_width 81 a) 20 Hord Hbuf Hne Hw)
    as (a' & ps & ps' & Hrun & _ & _ & _ & _ & Hps' & Hwidths & _ & Hheights
        & _).
  exists a, a', ps'. split; [exact Ha|]. split; [exact Hrun|].
  split; [exact Hps'|]. simpl in Hwidths. rewrite Horder in Hwidths.
  split; [exact Hwidths|].
  destruct ps' as [|p1 [|p2 [|p3 ps']]]; try discriminate Hwidths.
  apply Forall_cons in Hheights as [H1 Hheights].
  apply Forall_cons in Hheights as [H2 _].
  simpl. by rewrite H1, H2.
Defined.

End LayoutProps.
